(** * EDA helper routines ([src/funciones_auxiliares.py]): model and properties

    The Python module is embedded function by function.  The numeric
    conventions of the embedding are:

    - a float64 value is [Fin x] for a real [x], or one of the IEEE special
      values [PInf], [NInf], [NaN]; arithmetic on finite values is exact
      (rounding and signed zeros are outside the model), arithmetic on the
      special values follows IEEE 754 / numpy;
    - a numeric cell of a table is a rational in lowest terms ([Qc]);
    - a Python exception is a [Raise e] result; [print] appends to a list of
      lines; a DataFrame that a function mutates is threaded explicitly.

    pandas, numpy and scipy are libraries, not part of the repository: the
    calls the module makes are modelled by their documented (pandas 2.x,
    scipy >= 1.7) behaviour under the defaults the module uses. *)

From Stdlib Require Import Reals Lra Lia ZArith QArith Qcanon Qreals.
From Stdlib Require Import String List Bool Permutation DecimalString.
Import ListNotations.

(* ================================================================= *)
(** ** Python results *)

Inductive exn : Type :=
  | KeyError | IndexError | ValueError | TypeError | ZeroDivisionError.

Inductive result (A : Type) : Type :=
  | Ok (a : A)
  | Raise (e : exn).

Arguments Ok {A} a.
Arguments Raise {A} e.

Definition bind {A B : Type} (m : result A) (f : A -> result B) : result B :=
  match m with
  | Ok a => f a
  | Raise e => Raise e
  end.

Notation "x <- m ;; k" := (bind m (fun x => k))
  (at level 61, m at next level, right associativity).

(* ================================================================= *)
(** ** float64 values *)

Inductive float : Type :=
  | Fin (x : R)
  | PInf
  | NInf
  | NaN.

Definition of_Z (z : Z) : float := Fin (IZR z).

(** Sign of a real, as a three-way comparison with zero. *)
Definition sgn (x : R) : comparison :=
  if Rlt_dec 0 x then Gt else if Rlt_dec x 0 then Lt else Eq.

Definition fopp (a : float) : float :=
  match a with
  | Fin x => Fin (- x)
  | PInf => NInf
  | NInf => PInf
  | NaN => NaN
  end.

Definition fadd (a b : float) : float :=
  match a, b with
  | NaN, _ | _, NaN => NaN
  | Fin x, Fin y => Fin (x + y)
  | PInf, NInf | NInf, PInf => NaN
  | PInf, _ | _, PInf => PInf
  | NInf, _ | _, NInf => NInf
  end.

Definition fsub (a b : float) : float :=
  match a, b with
  | Fin x, Fin y => Fin (x - y)
  | _, _ => fadd a (fopp b)
  end.

(** An infinity scaled by the fsign [s] of the other factor. *)
Definition signed_inf (pos : bool) (s : comparison) : float :=
  match s with
  | Gt => if pos then PInf else NInf
  | Lt => if pos then NInf else PInf
  | Eq => NaN
  end.

Definition fmul (a b : float) : float :=
  match a, b with
  | NaN, _ | _, NaN => NaN
  | Fin x, Fin y => Fin (x * y)
  | PInf, Fin y => signed_inf true (sgn y)
  | NInf, Fin y => signed_inf false (sgn y)
  | Fin x, PInf => signed_inf true (sgn x)
  | Fin x, NInf => signed_inf false (sgn x)
  | PInf, PInf | NInf, NInf => PInf
  | PInf, NInf | NInf, PInf => NInf
  end.

(** numpy division: a zero divisor gives an infinity or [NaN], never an
    exception. *)
Definition fdiv (a b : float) : float :=
  match a, b with
  | NaN, _ | _, NaN => NaN
  | Fin x, Fin y =>
      if Req_dec_T y 0 then signed_inf true (sgn x) else Fin (x / y)
  | Fin _, (PInf | NInf) => Fin 0
  | PInf, Fin y => match sgn y with Lt => NInf | _ => PInf end
  | NInf, Fin y => match sgn y with Lt => PInf | _ => NInf end
  | (PInf | NInf), (PInf | NInf) => NaN
  end.

(** [np.log]. *)
Definition flog (a : float) : float :=
  match a with
  | Fin x =>
      match sgn x with
      | Gt => Fin (ln x)
      | Eq => NInf
      | Lt => NaN
      end
  | PInf => PInf
  | NInf | NaN => NaN
  end.

(** [np.sqrt]. *)
Definition fsqrt (a : float) : float :=
  match a with
  | Fin x => match sgn x with Lt => NaN | _ => Fin (R_sqrt.sqrt x) end
  | PInf => PInf
  | NInf | NaN => NaN
  end.

(** [np.sign] and [np.abs]. *)
Definition fsign (a : float) : float :=
  match a with
  | Fin x => match sgn x with Gt => Fin 1 | Lt => Fin (-1) | Eq => Fin 0 end
  | PInf => Fin 1
  | NInf => Fin (-1)
  | NaN => NaN
  end.

Definition fabs (a : float) : float :=
  match a with
  | Fin x => Fin (Rabs x)
  | PInf | NInf => PInf
  | NaN => NaN
  end.

(** Comparisons; every comparison with [NaN] is false. *)
Definition fltb (a b : float) : bool :=
  match a, b with
  | Fin x, Fin y => if Rlt_dec x y then true else false
  | NInf, (Fin _ | PInf) | Fin _, PInf => true
  | _, _ => false
  end.

Definition feqb (a b : float) : bool :=
  match a, b with
  | Fin x, Fin y => if Req_dec_T x y then true else false
  | PInf, PInf | NInf, NInf => true
  | _, _ => false
  end.

Definition fleb (a b : float) : bool := fltb a b || feqb a b.

Definition isnan (a : float) : bool :=
  match a with NaN => true | _ => false end.

(** Python's builtin [max(a, b)] and [min(a, b)]: the first argument is
    kept unless the second compares strictly greater (smaller). *)
Definition py_max (a b : float) : float := if fltb a b then b else a.
Definition py_min (a b : float) : float := if fltb b a then b else a.

(** [np.minimum]: propagates [NaN]. *)
Definition minimum (a b : float) : float :=
  match a, b with
  | NaN, _ | _, NaN => NaN
  | _, _ => if fltb b a then b else a
  end.

Definition maximum (a b : float) : float :=
  match a, b with
  | NaN, _ | _, NaN => NaN
  | _, _ => if fltb a b then b else a
  end.

(** [np.sum] over an array. *)
Definition fsum (l : list float) : float := fold_right fadd (Fin 0) l.

(** [Series.sum()] with the default [skipna=True]. *)
Definition nansum (l : list float) : float :=
  fsum (filter (fun a => negb (isnan a)) l).

(** [Series.replace(0, np.nan)] and [Series.replace([np.inf, -np.inf], 0)]
    on one element. *)
Definition replace_zero_nan (a : float) : float :=
  match a with
  | Fin x => if Req_dec_T x 0 then NaN else a
  | _ => a
  end.

Definition replace_inf_zero (a : float) : float :=
  match a with
  | PInf | NInf => Fin 0
  | _ => a
  end.

(* ================================================================= *)
(** ** Tables *)

(** A cell: missing, a number, a text value, or an interval [(lo, hi]]
    produced by binning. *)
Inductive cell : Type :=
  | NA
  | Num (q : Qc)
  | Str (s : string)
  | Itv (lo hi : Qc).

Definition qz (z : Z) : Qc := Q2Qc (inject_Z z).

Definition Qc_to_R (q : Qc) : R := Q2R (this q).

Definition cell_eq_dec (a b : cell) : {a = b} + {a <> b}.
Proof.
  decide equality; try apply Qc_eq_dec; apply string_dec.
Defined.

Definition cell_eqb (a b : cell) : bool :=
  if cell_eq_dec a b then true else false.

Definition isnull (c : cell) : bool :=
  match c with NA => true | _ => false end.

Definition notnull (c : cell) : bool := negb (isnull c).

(** The sort order of values inside one column ([np.unique], group keys). *)
Definition comparison_then (c d : comparison) : comparison :=
  match c with Eq => d | _ => c end.

Definition cell_rank (c : cell) : Z :=
  match c with NA => 3 | Num _ => 0 | Str _ => 1 | Itv _ _ => 2 end.

Definition cell_compare (a b : cell) : comparison :=
  match a, b with
  | Num p, Num q => Qccompare p q
  | Str s, Str t => String.compare s t
  | Itv l h, Itv l' h' => comparison_then (Qccompare l l') (Qccompare h h')
  | _, _ => Z.compare (cell_rank a) (cell_rank b)
  end.

Definition cell_leb (a b : cell) : bool :=
  match cell_compare a b with Gt => false | _ => true end.

Fixpoint insert_sorted (x : cell) (l : list cell) : list cell :=
  match l with
  | [] => [x]
  | y :: l' => if cell_leb x y then x :: l else y :: insert_sorted x l'
  end.

Definition sort_cells (l : list cell) : list cell :=
  fold_right insert_sorted [] l.

(** [np.unique]: the distinct values, sorted. *)
Definition unique (l : list cell) : list cell :=
  sort_cells (nodup cell_eq_dec l).

Definition dropna (l : list cell) : list cell := filter notnull l.

Inductive dtype : Type :=
  | dt_object | dt_category | dt_int64 | dt_float64 | dt_bool.

(** A column (pandas Series).  [categories] is meaningful for the
    [category] dtype only. *)
Record Series : Type := mkSeries {
  s_dtype : dtype;
  s_categories : list cell;
  s_values : list cell
}.

(** A DataFrame: its columns in order, by label.  Labels are taken to be
    distinct and columns to have one length, as in a DataFrame whose
    [df[name]] is a Series; [lookup] returns the first column of a label. *)
Definition DataFrame : Type := list (string * Series).

Definition columns (df : DataFrame) : list string := map fst df.

Fixpoint lookup (df : DataFrame) (name : string) : option Series :=
  match df with
  | [] => None
  | (n, s) :: df' => if String.eqb n name then Some s else lookup df' name
  end.

(** [df[name]]. *)
Definition getcol (df : DataFrame) (name : string) : result Series :=
  match lookup df name with
  | Some s => Ok s
  | None => Raise KeyError
  end.

(** [df[name] = s]: overwrite the column in place, or append a new one. *)
Fixpoint setcol (df : DataFrame) (name : string) (s : Series) : DataFrame :=
  match df with
  | [] => [(name, s)]
  | (n, s0) :: df' =>
      if String.eqb n name then (n, s) :: df' else (n, s0) :: setcol df' name s
  end.

(** [df.shape[0]]. *)
Definition shape0 (df : DataFrame) : nat :=
  match df with
  | [] => O
  | (_, s) :: _ => length (s_values s)
  end.

(** Boolean-mask selection [s[mask]]. *)
Fixpoint select_mask {A : Type} (l : list A) (mask : list bool) : list A :=
  match l, mask with
  | x :: l', b :: mask' =>
      if b then x :: select_mask l' mask' else select_mask l' mask'
  | _, _ => []
  end.

(** The same selection on a column: dtype and categories are kept. *)
Definition select_rows (s : Series) (mask : list bool) : Series :=
  mkSeries (s_dtype s) (s_categories s) (select_mask (s_values s) mask).

(** Number of cells equal to the integer [z] ([(x == z).sum()]). *)
Definition count_eq_int (z : Z) (l : list cell) : Z :=
  Z.of_nat (length (filter (cell_eqb (Num (qz z))) l)).

(* ================================================================= *)
(** ** [pd.cut] with an integer number of bins *)

Definition Qc_min (a b : Qc) : Qc :=
  match Qccompare a b with Gt => b | _ => a end.

Definition Qc_max (a b : Qc) : Qc :=
  match Qccompare a b with Lt => b | _ => a end.

Definition Qc_abs (a : Qc) : Qc :=
  match Qccompare a (qz 0) with Lt => Qcopp a | _ => a end.

Definition Qc_ltb (a b : Qc) : bool :=
  match Qccompare a b with Lt => true | _ => false end.

Definition Qc_leb (a b : Qc) : bool :=
  match Qccompare a b with Gt => false | _ => true end.

(** The numbers of a column, missing cells skipped; a text or interval
    cell makes numeric operations raise. *)
Fixpoint numeric_values (l : list cell) : result (list Qc) :=
  match l with
  | [] => Ok []
  | NA :: l' => numeric_values l'
  | Num q :: l' => qs <- numeric_values l' ;; Ok (q :: qs)
  | _ :: _ => Raise TypeError
  end.

(** [np.linspace(a, b, n + 1)]. *)
Definition linspace (a b : Qc) (n : nat) : list Qc :=
  map (fun i => Qcplus a (Qcmult (qz (Z.of_nat i))
                            (Qcdiv (Qcminus b a) (qz (Z.of_nat n)))))
      (seq 0 (S n)).

Definition one_thousandth : Qc := Q2Qc (1 # 1000).

(** Bin edges for [nbins] equal-width bins: the range of the data, widened
    by 0.1% on the left (or on both sides when the data is constant). *)
Definition nbins_to_bins (x : list cell) (nbins : Z) : result (list Qc) :=
  if (nbins <? 1)%Z then Raise ValueError
  else if Nat.eqb (length x) 0 then Raise ValueError
  else
    xs <- numeric_values x ;;
    match xs with
    | [] => Raise ValueError
    | x0 :: xs' =>
        let mn := fold_right Qc_min x0 xs' in
        let mx := fold_right Qc_max x0 xs' in
        let widen (m : Qc) : Qc :=
          if Qc_eq_dec m (qz 0) then one_thousandth
          else Qcmult one_thousandth (Qc_abs m) in
        if Qc_eq_dec mn mx then
          Ok (linspace (Qcminus mn (widen mn)) (Qcplus mx (widen mx))
                       (Z.to_nat nbins))
        else
          let adj := Qcmult (Qcminus mx mn) one_thousandth in
          match linspace mn mx (Z.to_nat nbins) with
          | b0 :: rest => Ok (Qcminus b0 adj :: rest)
          | [] => Ok []
          end
    end.

(** Consecutive edges as right-closed intervals. *)
Fixpoint intervals (edges : list Qc) : list cell :=
  match edges with
  | lo :: ((hi :: _) as rest) => Itv lo hi :: intervals rest
  | _ => []
  end.

(** The interval a value falls in; missing stays missing. *)
Definition cut_cell (cats : list cell) (c : cell) : cell :=
  match c with
  | Num q =>
      match find (fun i => match i with
                           | Itv lo hi => Qc_ltb lo q && Qc_leb q hi
                           | _ => false
                           end) cats with
      | Some i => i
      | None => NA
      end
  | _ => NA
  end.

(** [pd.cut(s, bins=nbins, duplicates='drop')]: a categorical column whose
    categories are the intervals.  (pandas rounds the interval edges of the
    labels to three significant digits; edges are kept exact here.) *)
Definition pd_cut (s : Series) (nbins : Z) : result Series :=
  edges <- nbins_to_bins (s_values s) nbins ;;
  let cats := intervals edges in
  Ok (mkSeries dt_category cats (map (cut_cell cats) (s_values s))).

(* ================================================================= *)
(** ** [iv_woe] *)

(** Keys of [df.groupby(variable)]: the sorted distinct non-missing values;
    for a categorical column every category, observed or not. *)
Definition group_keys (s : Series) : list cell :=
  match s_dtype s with
  | dt_category => s_categories s
  | _ => unique (dropna (s_values s))
  end.

Record woe_row : Type := mk_woe_row {
  w_key : cell;
  buenos : Z;
  malos : Z;
  dist_buenos : float;
  dist_malos : float;
  WoE : float;
  IV : float
}.

(** [df.groupby(variable).agg(buenos=..., malos=...).reset_index()]. *)
Definition groupby_agg (df : DataFrame) (variable target : string)
  : result (list (cell * Z * Z)) :=
  v <- getcol df variable ;;
  t <- getcol df target ;;
  Ok (map (fun k =>
             let x := select_mask (s_values t)
                                  (map (cell_eqb k) (s_values v)) in
             (k, count_eq_int 0 x, count_eq_int 1 x))
          (group_keys v)).

(** Lines 153-159 on one row of the frequency table. *)
Definition woe_of_counts (total_buenos total_malos : Z) (g : cell * Z * Z)
  : woe_row :=
  let '(k, b, m) := g in
  let dist_b := fdiv (of_Z b) (of_Z total_buenos) in
  let dist_m := fdiv (of_Z m) (of_Z total_malos) in
  let woe := flog (fdiv dist_b (replace_zero_nan dist_m)) in
  let iv := fmul (fsub dist_b dist_m) woe in
  mk_woe_row k b m dist_b dist_m (replace_inf_zero woe) iv.

(** Python truthiness of the [bins] argument. *)
Definition truthy (bins : option Z) : bool :=
  match bins with
  | Some b => negb (b =? 0)%Z
  | None => false
  end.

(** Lines 139-140: the binned column is stored back into the caller's
    DataFrame. *)
Definition apply_binning (df : DataFrame) (variable : string)
                         (bins : option Z) : DataFrame * result unit :=
  match bins with
  | Some b =>
      if truthy bins then
        match (s <- getcol df variable ;; pd_cut s b) with
        | Ok c => (setcol df variable c, Ok tt)
        | Raise e => (df, Raise e)
        end
      else (df, Ok tt)
  | None => (df, Ok tt)
  end.

(** [iv_woe(df, variable, target, bins)]: the DataFrame as the call leaves
    it, and the returned pair [(tabla, iv_total)]. *)
Definition iv_woe (df : DataFrame) (variable target : string)
                  (bins : option Z)
  : DataFrame * result (list woe_row * float) :=
  let '(df1, binned) := apply_binning df variable bins in
  (df1,
   _ <- binned ;;
   groups <- groupby_agg df1 variable target ;;
   t <- getcol df1 target ;;
   let total_buenos := count_eq_int 0 (s_values t) in
   let total_malos := count_eq_int 1 (s_values t) in
   let tabla := map (woe_of_counts total_buenos total_malos) groups in
   let iv_total := nansum (map IV tabla) in
   Ok (tabla, iv_total)).

(** The dataset of the end-to-end example. *)
Definition example_df : DataFrame :=
  [ ("target"%string,
     mkSeries dt_int64 [] [Num (qz 0); Num (qz 0); Num (qz 1); Num (qz 1)]);
    ("cat"%string,
     mkSeries dt_object [] [Str "A"; Str "A"; Str "B"; Str "B"]) ].

(* ================================================================= *)
(** ** [dame_variables_categoricas] *)

Definition newline : string := String (Ascii.ascii_of_nat 10) EmptyString.

(** What the classifier returns: the integer sentinel or the two lists. *)
Inductive clasif_ret : Type :=
  | RetInt (z : Z)
  | RetLists (lista_variables_categoricas other : list string).

(** [dtype in ['object', 'category']]. *)
Definition is_object_or_category (d : dtype) : bool :=
  match d with
  | dt_object | dt_category => true
  | _ => false
  end.

(** [int(len(np.unique(s.dropna())))]. *)
Definition unicos (s : Series) : Z :=
  Z.of_nat (length (unique (dropna (s_values s)))).

(** The loop of lines 36-41 over the remaining column labels. *)
Fixpoint clasifica (dataset : DataFrame) (max_unicos : Z) (cols : list string)
                   (lista_variables_categoricas other : list string)
  : result (list string * list string) :=
  match cols with
  | [] => Ok (lista_variables_categoricas, other)
  | i :: rest =>
      s <- getcol dataset i ;;
      if is_object_or_category (s_dtype s) || (unicos s <? max_unicos)%Z
      then clasifica dataset max_unicos rest
                     (lista_variables_categoricas ++ [i]) other
      else clasifica dataset max_unicos rest
                     lista_variables_categoricas (other ++ [i])
  end.

(** The printed lines and the returned value. *)
Definition dame_variables_categoricas (dataset : option DataFrame)
                                      (max_unicos : Z)
  : list string * result clasif_ret :=
  match dataset with
  | None =>
      ([(newline ++ "Faltan argumentos por pasar a la función")%string],
       Ok (RetInt 1))
  | Some d =>
      ([],
       r <- clasifica d max_unicos (columns d) [] [] ;;
       Ok (RetLists (fst r) (snd r)))
  end.

(* ================================================================= *)
(** ** [get_corr_matrix] *)

Definition mapi {A B : Type} (f : nat -> A -> B) (l : list A) : list B :=
  map (fun p => f (fst p) (snd p)) (combine (seq 0 (length l)) l).

Fixpoint set_nth {A : Type} (n : nat) (x : A) (l : list A) : list A :=
  match n, l with
  | _, [] => []
  | O, _ :: l' => x :: l'
  | S n', y :: l' => y :: set_nth n' x l'
  end.

(** [for i in range(corr.shape[0]): corr.iloc[i, i] = 0]. *)
Definition zero_diagonal (corr : list (list float)) : list (list float) :=
  mapi (fun i row => set_nth i (Fin 0) row) corr.

(** What the call did besides returning: lines printed and heatmaps
    rendered. *)
Record effects : Type := mk_effects {
  printed : list string;
  rendered : list (list (list float))
}.

Section Correlation.

(** [dataset.corr(method=metodo)], the pandas correlation routine. *)
Variable pandas_corr : DataFrame -> string -> result (list (list float)).

Definition get_corr_matrix (dataset : option DataFrame) (metodo : string)
  : effects * result Z :=
  match dataset with
  | None =>
      (mk_effects
         [(newline ++ "Hace falta pasar argumentos a la función")%string] [],
       Ok 1%Z)
  | Some d =>
      match pandas_corr d metodo with
      | Raise e => (mk_effects [] [], Raise e)
      | Ok corr =>
          (mk_effects [] [zero_diagonal corr], Ok 0%Z)
      end
  end.

End Correlation.

(* ================================================================= *)
(** ** Target distribution among selected rows *)

(** A Python value stored in a result table: a cell value or a float. *)
Inductive pyval : Type :=
  | VCell (c : cell)
  | VFloat (f : float).

(** A small DataFrame: column labels, and rows as (index label, values). *)
Record frame : Type := mk_frame {
  f_columns : list pyval;
  f_rows : list (string * list pyval)
}.

(** Distinct values in order of first appearance. *)
Fixpoint first_seen (l : list cell) (seen : list cell) : list cell :=
  match l with
  | [] => []
  | x :: l' =>
      if existsb (cell_eqb x) seen then first_seen l' seen
      else x :: first_seen l' (x :: seen)
  end.

Definition count_cell (c : cell) (l : list cell) : nat :=
  length (filter (cell_eqb c) l).

Fixpoint insert_by_count (x : cell * nat) (l : list (cell * nat))
  : list (cell * nat) :=
  match l with
  | [] => [x]
  | y :: l' =>
      if (snd y <=? snd x)%nat then x :: l else y :: insert_by_count x l'
  end.

(** [Series.value_counts()]: missing values dropped, most frequent first.
    A categorical column lists every category, with count 0 for those that
    do not occur. *)
Definition value_counts (s : Series) : list (cell * nat) :=
  let l' := dropna (s_values s) in
  let keys := match s_dtype s with
              | dt_category => s_categories s
              | _ => first_seen l' []
              end in
  fold_right insert_by_count [] (map (fun k => (k, count_cell k l')) keys).

(** [pd.DataFrame(s.value_counts(normalize=True).reset_index()).T] for a
    Series named [name]: one column per distinct value, labelled 0, 1, ...;
    a first row holding the values and a second row holding their shares.
    (The rows are labelled as pandas 2 labels them; a column itself named
    [proportion] is not considered.) *)
Definition value_counts_frame (name : string) (s : Series) : frame :=
  let vc := value_counts s in
  let n := length (dropna (s_values s)) in
  mk_frame
    (map (fun i => VCell (Num (qz (Z.of_nat i)))) (seq 0 (length vc)))
    [ (name, map (fun p => VCell (fst p)) vc);
      ("proportion"%string,
       map (fun p => VFloat (fdiv (of_Z (Z.of_nat (snd p)))
                                  (of_Z (Z.of_nat n)))) vc) ].

(** [fr.iloc[i, j]]. *)
Definition iloc (fr : frame) (i j : nat) : result pyval :=
  match nth_error (f_rows fr) i with
  | None => Raise IndexError
  | Some row =>
      match nth_error (snd row) j with
      | None => Raise IndexError
      | Some v => Ok v
      end
  end.

(** [fr.columns = labels]. *)
Definition set_columns (fr : frame) (labels : list pyval) : result frame :=
  if Nat.eqb (length labels) (length (f_columns fr))
  then Ok (mk_frame labels (f_rows fr))
  else Raise ValueError.

(** [fr.drop(label, axis=0)], with [errors='ignore'] or [errors='raise']. *)
Definition drop_row (fr : frame) (label : string) (ignore : bool)
  : result frame :=
  if existsb (fun r => String.eqb (fst r) label) (f_rows fr) || ignore
  then Ok (mk_frame (f_columns fr)
                    (filter (fun r => negb (String.eqb (fst r) label))
                            (f_rows fr)))
  else Raise KeyError.

Definition pyval_eq_dec (a b : pyval) : {a = b} + {a <> b}.
Proof.
  decide equality.
  - apply cell_eq_dec.
  - destruct f as [x| | |], f0 as [y| | |];
      try (left; reflexivity); try (right; discriminate).
    destruct (Req_dec_T x y) as [->|N];
      [left; reflexivity | right; intros H; inversion H; contradiction].
Defined.

(** [fr[label] = v] for a scalar [v]: overwrite the column, or add it. *)
Definition set_scalar (fr : frame) (label : string) (v : pyval) : frame :=
  let lbl := VCell (Str label) in
  if existsb (fun c => if pyval_eq_dec c lbl then true else false)
             (f_columns fr)
  then mk_frame (f_columns fr)
         (map (fun r =>
                 (fst r,
                  map (fun cv => if pyval_eq_dec (fst cv) lbl then v
                                 else snd cv)
                      (combine (f_columns fr) (snd r))))
              (f_rows fr))
  else mk_frame (f_columns fr ++ [lbl])
                (map (fun r => (fst r, snd r ++ [v])) (f_rows fr)).

(** A row of the accumulated result table: values by column label.  The
    concatenated table has the union of the labels as columns; a label
    absent from a row is a missing entry of that row. *)
Definition out_row : Type := list (pyval * pyval).

Definition frame_rows (fr : frame) : list out_row :=
  map (fun r => combine (f_columns fr) (snd r)) (f_rows fr).

(** [pd.concat([pd_final, fr], axis=0).reset_index(drop=True)]. *)
Definition concat_rows (pd_final : list out_row) (fr : frame)
  : list out_row :=
  pd_final ++ frame_rows fr.

(** [row[label]]. *)
Fixpoint row_get (r : out_row) (label : string) : option pyval :=
  match r with
  | [] => None
  | (l, v) :: r' =>
      if pyval_eq_dec l (VCell (Str label)) then Some v else row_get r' label
  end.

(** Lines 214-217 / 236-239: the transposed distribution table with its two
    columns renamed after the first row. *)
Definition renamed_distribution (target : string) (selected : Series)
  : result frame :=
  let pd_concat_percent := value_counts_frame target selected in
  c0 <- iloc pd_concat_percent 0 0 ;;
  c1 <- iloc pd_concat_percent 0 1 ;;
  set_columns pd_concat_percent [c0; c1].

(* ================================================================= *)
(** ** [get_percent_null_values_target] *)

Definition count_null (s : Series) : Z :=
  Z.of_nat (length (filter isnull (s_values s))).

Fixpoint null_values_loop (pd_loan : DataFrame) (target : string)
                          (list_var_continuous : list string)
                          (pd_final : list out_row)
  : result (list out_row) :=
  match list_var_continuous with
  | [] => Ok pd_final
  | i :: rest =>
      s <- getcol pd_loan i ;;
      if (0 <? count_null s)%Z then
        t <- getcol pd_loan target ;;
        fr <- renamed_distribution target
                (select_rows t (map isnull (s_values s))) ;;
        fr <- drop_row fr "index" true ;;
        let fr := set_scalar fr "variable" (VCell (Str i)) in
        let fr := set_scalar fr "sum_null_values"
                             (VCell (Num (qz (count_null s)))) in
        let fr := set_scalar fr "porcentaje_sum_null_values"
                    (VFloat (fdiv (of_Z (count_null s))
                                  (of_Z (Z.of_nat (shape0 pd_loan))))) in
        null_values_loop pd_loan target rest (concat_rows pd_final fr)
      else null_values_loop pd_loan target rest pd_final
  end.

Definition no_nulls_message : string :=
  "No existen variables con valores nulos".

Definition get_percent_null_values_target (pd_loan : DataFrame)
    (list_var_continuous : list string) (target : string)
  : list string * result (list out_row) :=
  match null_values_loop pd_loan target list_var_continuous [] with
  | Raise e => ([], Raise e)
  | Ok pd_final =>
      (match pd_final with [] => [no_nulls_message] | _ => [] end,
       Ok pd_final)
  end.

(* ================================================================= *)
(** ** [get_deviation_of_mean_perc] *)

Definition rsum (l : list R) : R := fold_right Rplus 0%R l.

(** [Series.mean()] and [Series.std()] (sample standard deviation), both
    skipping missing values. *)
Definition mean_of (xs : list Qc) : float :=
  match xs with
  | [] => NaN
  | _ => Fin (rsum (map Qc_to_R xs) / INR (length xs))
  end.

Definition std_of (xs : list Qc) : float :=
  if (length xs <? 2)%nat then NaN
  else
    let m := (rsum (map Qc_to_R xs) / INR (length xs))%R in
    Fin (sqrt (rsum (map (fun x => ((Qc_to_R x - m) * (Qc_to_R x - m))%R) xs)
               / (INR (length xs) - 1))).

Definition column_mean (s : Series) : result float :=
  xs <- numeric_values (s_values s) ;; Ok (mean_of xs).

Definition column_std (s : Series) : result float :=
  xs <- numeric_values (s_values s) ;; Ok (std_of xs).

(** Element-wise comparisons of a numeric column with a float; a missing
    cell compares false. *)
Definition cell_lt (c : cell) (b : float) : bool :=
  match c with Num q => fltb (Fin (Qc_to_R q)) b | _ => false end.

Definition cell_gt (c : cell) (b : float) : bool :=
  match c with Num q => fltb b (Fin (Qc_to_R q)) | _ => false end.

Definition cell_le (c : cell) (b : float) : bool :=
  match c with Num q => fleb (Fin (Qc_to_R q)) b | _ => false end.

Definition cell_ge (c : cell) (b : float) : bool :=
  match c with Num q => fleb b (Fin (Qc_to_R q)) | _ => false end.

Definition count_true (mask : list bool) : Z :=
  Z.of_nat (length (filter (fun b => b) mask)).

(** Division of two Python ints. *)
Definition py_int_div (a b : Z) : result float :=
  if (b =? 0)%Z then Raise ZeroDivisionError
  else Ok (Fin (IZR a / IZR b)).

(** [(s < left) | (s > right)]. *)
Definition excess_mask (s : Series) (left right : float) : list bool :=
  map (fun c => cell_lt c left || cell_gt c right) (s_values s).

Fixpoint deviation_loop (pd_loan : DataFrame) (target : string)
                        (multiplier : float)
                        (list_var_continuous : list string)
                        (pd_final : list out_row)
  : result (list out_row) :=
  match list_var_continuous with
  | [] => Ok pd_final
  | i :: rest =>
      s <- getcol pd_loan i ;;
      series_mean <- column_mean s ;;
      series_std <- column_std s ;;
      let std_amp := fmul multiplier series_std in
      let left := fsub series_mean std_amp in
      let right := fadd series_mean std_amp in
      let size_s := Z.of_nat (length (s_values s)) in
      perc_goods <- py_int_div
                      (count_true (map (fun c => cell_ge c left
                                                 && cell_le c right)
                                       (s_values s)))
                      size_s ;;
      perc_excess <- py_int_div (count_true (excess_mask s left right))
                                size_s ;;
      if fltb (Fin 0) perc_excess then
        t <- getcol pd_loan target ;;
        fr <- renamed_distribution target
                (select_rows t (excess_mask s left right)) ;;
        fr <- drop_row fr target false ;;
        let fr := set_scalar fr "variable" (VCell (Str i)) in
        let fr := set_scalar fr "sum_outlier_values"
                    (VCell (Num (qz (count_true
                                       (excess_mask s left right))))) in
        let fr := set_scalar fr "porcentaje_sum_null_values"
                             (VFloat perc_excess) in
        deviation_loop pd_loan target multiplier rest
                       (concat_rows pd_final fr)
      else deviation_loop pd_loan target multiplier rest pd_final
  end.

Definition get_deviation_of_mean_perc (pd_loan : DataFrame)
    (list_var_continuous : list string) (target : string)
    (multiplier : float)
  : list string * result (list out_row) :=
  match deviation_loop pd_loan target multiplier list_var_continuous [] with
  | Raise e => ([], Raise e)
  | Ok pd_final =>
      (match pd_final with [] => [no_nulls_message] | _ => [] end,
       Ok pd_final)
  end.

(* ================================================================= *)
(** ** [scipy.stats.chi2_contingency] *)

Definition zsum (l : list Z) : Z := fold_right Z.add 0%Z l.

(** [m.shape] and [m.sum()] of a two-dimensional integer array, given as
    its list of rows. *)
Definition shape (m : list (list Z)) : nat * nat :=
  (length m, match m with [] => O | row :: _ => length row end).

Definition total (m : list (list Z)) : Z := zsum (map zsum m).

Definition row_sums (m : list (list Z)) : list Z := map zsum m.

Definition col_sums (m : list (list Z)) : list Z :=
  map (fun j => zsum (map (fun row => nth j row 0%Z) m))
      (seq 0 (snd (shape m))).

Definition map2 {A B C : Type} (f : A -> B -> C) (l1 : list A) (l2 : list B)
  : list C :=
  map (fun p => f (fst p) (snd p)) (combine l1 l2).

(** [scipy.stats.contingency.expected_freq]: outer product of the marginal
    sums over the grand total. *)
Definition expected_freq (m : list (list Z)) : list (list float) :=
  map (fun ri =>
         map (fun cj => fdiv (fmul (of_Z ri) (of_Z cj)) (of_Z (total m)))
             (col_sums m))
      (row_sums m).

(** Yates' continuity correction of one observed count towards its
    expectation, by at most the distance between them. *)
Definition yates_adjust (o e : float) : float :=
  let diff := fsub e o in
  let direction := fsign diff in
  let magnitude := minimum (Fin (1 / 2)) (fabs diff) in
  fadd o (fmul magnitude direction).

(** One term of the Pearson statistic ([power_divergence], lambda = 1). *)
Definition pearson_term (o e : float) : float :=
  fdiv (fmul (fsub o e) (fsub o e)) e.

(** The statistic returned by [chi2_contingency(observed)] with its default
    arguments ([correction=True]): the checks on the input, the degenerate
    case of one row or one column, Yates' correction when there is one
    degree of freedom, then the Pearson sum.  ([power_divergence] also
    compares the sums of observed and expected counts; they are equal
    here, with or without the correction.) *)
Definition chi2_contingency (observed : list (list Z)) : result float :=
  if existsb (existsb (fun x => (x <? 0)%Z)) observed then Raise ValueError
  else
    let '(r, k) := shape observed in
    if Nat.eqb (r * k) 0 then Raise ValueError
    else
      let expected := expected_freq observed in
      if existsb (existsb (fun e => feqb e (Fin 0))) expected
      then Raise ValueError
      else
        let dof := (Z.of_nat (r * k) - Z.of_nat (r + k) + 2 - 1)%Z in
        if (dof =? 0)%Z then Ok (Fin 0)
        else
          let obs := map (map of_Z) observed in
          let obs := if (dof =? 1)%Z
                     then map2 (map2 yates_adjust) obs expected
                     else obs in
          Ok (fsum (concat (map2 (map2 pearson_term) obs expected))).

(* ================================================================= *)
(** ** [cramers_v] *)

Definition cramers_v (confusion_matrix : list (list Z)) : result float :=
  chi2 <- chi2_contingency confusion_matrix ;;
  let n := total confusion_matrix in
  let phi2 := fdiv chi2 (of_Z n) in
  let r := Z.of_nat (fst (shape confusion_matrix)) in
  let k := Z.of_nat (snd (shape confusion_matrix)) in
  let phi2corr :=
    py_max (Fin 0)
           (fsub phi2 (fdiv (of_Z ((k - 1) * (r - 1))) (of_Z (n - 1)))) in
  let rcorr := fsub (of_Z r) (fdiv (of_Z ((r - 1) ^ 2)) (of_Z (n - 1))) in
  let kcorr := fsub (of_Z k) (fdiv (of_Z ((k - 1) ^ 2)) (of_Z (n - 1))) in
  Ok (fsqrt (fdiv phi2corr
                  (py_min (fsub kcorr (Fin 1)) (fsub rcorr (Fin 1))))).

(** *** The statistic as the specification words it *)

Definition cell_at (m : list (list Z)) (i j : nat) : Z :=
  nth j (nth i m []) 0%Z.

Definition row_total (m : list (list Z)) (i : nat) : Z :=
  zsum (map (fun j => cell_at m i j) (seq 0 (snd (shape m)))).

Definition col_total (m : list (list Z)) (j : nat) : Z :=
  zsum (map (fun i => cell_at m i j) (seq 0 (fst (shape m)))).

(** Expected count of cell (i, j) under independence. *)
Definition expected_at (m : list (list Z)) (i j : nat) : float :=
  fdiv (of_Z (row_total m i * col_total m j)) (of_Z (total m)).

(** Specification, step 1: the Pearson chi-squared statistic, the sum over
    all cells of (O - E)^2 / E. *)
Definition pearson_chi2 (m : list (list Z)) : float :=
  fsum (map (fun i =>
               fsum (map (fun j =>
                            let o := of_Z (cell_at m i j) in
                            let e := expected_at m i j in
                            fdiv (fmul (fsub o e) (fsub o e)) e)
                         (seq 0 (snd (shape m)))))
            (seq 0 (fst (shape m)))).

(** The same sum with Yates' continuity correction: every deviation
    |O - E| is reduced by min(1/2, |O - E|) before squaring. *)
Definition yates_chi2 (m : list (list Z)) : float :=
  fsum (map (fun i =>
               fsum (map (fun j =>
                            let o := of_Z (cell_at m i j) in
                            let e := expected_at m i j in
                            let d := fabs (fsub o e) in
                            let d' := fsub d (minimum (Fin (1 / 2)) d) in
                            fdiv (fmul d' d') e)
                         (seq 0 (snd (shape m)))))
            (seq 0 (fst (shape m)))).

(** Specification, steps 2-5, from a given chi-squared statistic. *)
Definition cramers_v_formula (chi2 : float) (r k n : Z) : float :=
  let phi2 := fdiv chi2 (of_Z n) in
  let phi2corr :=
    maximum (Fin 0)
            (fsub phi2 (fdiv (fmul (of_Z (k - 1)) (of_Z (r - 1)))
                             (of_Z (n - 1)))) in
  let rcorr := fsub (of_Z r)
                    (fdiv (fmul (of_Z (r - 1)) (of_Z (r - 1)))
                          (of_Z (n - 1))) in
  let kcorr := fsub (of_Z k)
                    (fdiv (fmul (of_Z (k - 1)) (of_Z (k - 1)))
                          (of_Z (n - 1))) in
  fsqrt (fdiv phi2corr (minimum (fsub kcorr (Fin 1)) (fsub rcorr (Fin 1)))).

Definition cramers_v_spec (m : list (list Z)) : float :=
  cramers_v_formula (pearson_chi2 m)
                    (Z.of_nat (fst (shape m))) (Z.of_nat (snd (shape m)))
                    (total m).

(* ================================================================= *)
(** ** [pd.crosstab] and [cramer_matrix] *)

(** [pd.crosstab(a, b).values]: rows where both values are present, counted
    by (value of a, value of b); rows and columns in sorted order. *)
Definition crosstab (a b : Series) : list (list Z) :=
  let pairs := filter (fun p => notnull (fst p) && notnull (snd p))
                      (combine (s_values a) (s_values b)) in
  map (fun r =>
         map (fun c =>
                Z.of_nat (length (filter (fun p => cell_eqb (fst p) r
                                                   && cell_eqb (snd p) c)
                                         pairs)))
             (unique (map snd pairs)))
      (unique (map fst pairs)).

(** A float DataFrame indexed by row label and column label. *)
Definition matrix : Type := list (string * list (string * float)).

(** [pd.DataFrame(index=vars, columns=vars, dtype=float)]: all missing. *)
Definition empty_matrix (vars : list string) : matrix :=
  map (fun r => (r, map (fun c => (c, NaN)) vars)) vars.

(** [m.loc[r, c] = x]. *)
Definition loc_set (m : matrix) (r c : string) (x : float) : matrix :=
  map (fun row =>
         if String.eqb (fst row) r
         then (fst row,
               map (fun e => if String.eqb (fst e) c then (fst e, x) else e)
                   (snd row))
         else row)
      m.

(** [m.T]. *)
Definition transpose (m : matrix) : matrix :=
  mapi (fun j c =>
          (c, map (fun row => (fst row, snd (nth j (snd row) (c, NaN)))) m))
       (match m with [] => [] | row :: _ => map fst (snd row) end).

Fixpoint cramer_inner (data : DataFrame) (var1 : string)
                      (vars2 : list string) (m : matrix) : result matrix :=
  match vars2 with
  | [] => Ok m
  | var2 :: rest =>
      a <- getcol data var1 ;;
      b <- getcol data var2 ;;
      v <- cramers_v (crosstab a b) ;;
      cramer_inner data var1 rest (loc_set m var1 var2 v)
  end.

Fixpoint cramer_outer (data : DataFrame) (vars1 categorical_vars : list string)
                      (m : matrix) : result matrix :=
  match vars1 with
  | [] => Ok m
  | var1 :: rest =>
      m' <- cramer_inner data var1 categorical_vars m ;;
      cramer_outer data rest categorical_vars m'
  end.

Definition cramer_matrix (data : DataFrame) (categorical_vars : list string)
  : result matrix :=
  cramer_outer data categorical_vars categorical_vars
               (empty_matrix categorical_vars).

(* ================================================================= *)
(** ** [plot_feature] *)

(** The two subplots of the figure. *)
Inductive axes : Type := ax1 | ax2.

(** A call made to matplotlib or seaborn.  What [plot_feature] does is the
    list of these calls, in order; the rendering is the libraries', and so
    are their own failures on what they cannot draw (a box plot against a
    column that does not exist, for one).  The calls that take [data=df]
    receive the caller's DataFrame. *)
Inductive plot_call : Type :=
  | Subplots (nrows ncols : nat) (figsize : Z * Z) (dpi : Z)
  | Histplot (data : list cell) (color : string) (ax : axes)
  | Countplot (x : string) (order : list cell) (color : string) (ax : axes)
  | Boxplot (x y : string) (color : string) (ax : axes)
  | Barplot (x y hue : string) (data : list (cell * cell * float))
            (ax : axes)
  | SetTitle (ax : axes) (title : string)
  | SetXlabel (ax : axes) (label : string)
  | SetYlabel (ax : axes) (label : string)
  | TickParams (ax : axes) (rotation : Z)
  | TightLayout
  | Show.

(** [str(z)] of an integer. *)
Definition string_of_Z (z : Z) : string := NilZero.string_of_int (Z.to_int z).

(** Line 68. *)
Definition null_text (count_null : Z) : string :=
  if (0 <? count_null)%Z
  then ("Número de nulos: " ++ string_of_Z count_null)%string
  else "Sin valores nulos"%string.

(** Lines 100-105,
    [df.groupby(col_name)[target].value_counts(normalize=True)
       .rename("proportion").reset_index()]:
    for every category of [col_name], in sorted order, one row per target
    value met in it (most frequent first) with its share among the
    category's rows with a target.  [reset_index] cannot insert a label
    twice.  (Stated for columns that are not of categorical dtype.) *)
Definition prop_data (df : DataFrame) (col_name target : string)
  : result (list (cell * cell * float)) :=
  v <- getcol df col_name ;;
  t <- getcol df target ;;
  if String.eqb col_name target then Raise ValueError
  else
    Ok (concat
          (map (fun k =>
                  let x := select_rows t (map (cell_eqb k) (s_values v)) in
                  let n := Z.of_nat (length (dropna (s_values x))) in
                  map (fun p => (k, fst p,
                                 fdiv (of_Z (Z.of_nat (snd p))) (of_Z n)))
                      (value_counts x))
               (group_keys v))).

Definition default_figsize : Z * Z := (12, 6)%Z.
Definition default_color : string := "#5975A4".

(** [plot_feature(df, col_name, is_continuous, target, figsize, color)]:
    the calls made, and the outcome (the function returns nothing). *)
Definition plot_feature (df : DataFrame) (col_name : string)
                        (is_continuous : bool) (target : string)
                        (figsize : Z * Z) (color : string)
  : list plot_call * result unit :=
  let f := [Subplots 1 2 figsize 90] in
  match getcol df col_name with
  | Raise e => (f, Raise e)
  | Ok s =>
      let null_text := null_text (count_null s) in
      let first :=
        if is_continuous then
          [ Histplot (dropna (s_values s)) color ax1;
            SetTitle ax1 ("Distribución de " ++ col_name ++ newline
                          ++ "(" ++ null_text ++ ")")%string;
            SetXlabel ax1 col_name;
            SetYlabel ax1 "Frecuencia"%string ]
        else
          [ Countplot col_name (map fst (value_counts s)) color ax1;
            SetTitle ax1 ("Conteo de " ++ col_name ++ newline
                          ++ "(" ++ null_text ++ ")")%string;
            SetXlabel ax1 col_name;
            SetYlabel ax1 "Frecuencia"%string;
            TickParams ax1 90 ] in
      if is_continuous then
        (f ++ first
           ++ [ Boxplot target col_name color ax2;
                SetTitle ax2 (col_name ++ " por " ++ target)%string;
                SetXlabel ax2 target;
                SetYlabel ax2 col_name;
                TightLayout; Show ],
         Ok tt)
      else
        match prop_data df col_name target with
        | Raise e => (f ++ first, Raise e)
        | Ok data =>
            (f ++ first
               ++ [ Barplot col_name "proportion" target data ax2;
                    SetTitle ax2 (col_name ++ " segmentado por " ++ target
                                  ++ " (Proporción)")%string;
                    SetXlabel ax2 col_name;
                    SetYlabel ax2 "Proporción"%string;
                    TickParams ax2 90;
                    TightLayout; Show ],
             Ok tt)
        end
  end.

(* ================================================================= *)
(** ** Auxiliary notions used in the statements and proofs *)

(** The test of line 38 on the column labelled [i]. *)
Definition es_categorica (d : DataFrame) (max_unicos : Z) (i : string)
  : bool :=
  match lookup d i with
  | Some s => is_object_or_category (s_dtype s) || (unicos s <? max_unicos)%Z
  | None => false
  end.

(** Lines 263-269 of [cramers_v], from the statistic onwards. *)
Definition v_of_chi2 (chi2 : float) (n r k : Z) : float :=
  let phi2 := fdiv chi2 (of_Z n) in
  let phi2corr :=
    py_max (Fin 0)
           (fsub phi2 (fdiv (of_Z ((k - 1) * (r - 1))) (of_Z (n - 1)))) in
  let rcorr := fsub (of_Z r) (fdiv (of_Z ((r - 1) ^ 2)) (of_Z (n - 1))) in
  let kcorr := fsub (of_Z k) (fdiv (of_Z ((k - 1) ^ 2)) (of_Z (n - 1))) in
  fsqrt (fdiv phi2corr (py_min (fsub kcorr (Fin 1)) (fsub rcorr (Fin 1)))).

(** *** Tabulated matrices

    A matrix given by its row keys, its column keys and a function of the
    two: the shape in which [pd.crosstab] produces tables. *)

Definition tab {A B : Type} (rows : list A) (cols : list B) (f : A -> B -> Z)
  : list (list Z) :=
  map (fun a => map (f a) cols) rows.

Definition tab_row {A B : Type} (cols : list B) (f : A -> B -> Z) (a : A)
  : Z :=
  zsum (map (f a) cols).

Definition tab_col {A B : Type} (rows : list A) (f : A -> B -> Z) (c : B)
  : Z :=
  zsum (map (fun a => f a c) rows).

Definition tab_total {A B : Type} (rows : list A) (cols : list B)
                     (f : A -> B -> Z) : Z :=
  zsum (map (tab_row cols f) rows).

Definition tab_expected {A B : Type} (rows : list A) (cols : list B)
                        (f : A -> B -> Z) (a : A) (c : B) : float :=
  fdiv (fmul (of_Z (tab_row cols f a)) (of_Z (tab_col rows f c)))
       (of_Z (tab_total rows cols f)).

(** Degrees of freedom of an r x k table, as scipy computes them. *)
Definition dof_of (r k : nat) : Z :=
  (Z.of_nat (r * k) - Z.of_nat (r + k) + 2 - 1)%Z.

Definition tab_observed {A B : Type} (rows : list A) (cols : list B)
                        (f : A -> B -> Z) (a : A) (c : B) : float :=
  if (dof_of (length rows) (length cols) =? 1)%Z
  then yates_adjust (of_Z (f a c)) (tab_expected rows cols f a c)
  else of_Z (f a c).

(** [chi2_contingency] on a tabulated matrix, by keys. *)
Definition chi2_tab {A B : Type} (rows : list A) (cols : list B)
                    (f : A -> B -> Z) : result float :=
  if existsb (fun a => existsb (fun c => (f a c <? 0)%Z) cols) rows
  then Raise ValueError
  else if existsb (fun a => existsb (fun c =>
                     feqb (tab_expected rows cols f a c) (Fin 0)) cols) rows
  then Raise ValueError
  else if (dof_of (length rows) (length cols) =? 0)%Z then Ok (Fin 0)
  else Ok (fsum (map (fun a =>
                        fsum (map (fun c =>
                                     pearson_term
                                       (tab_observed rows cols f a c)
                                       (tab_expected rows cols f a c))
                                  cols))
                     rows)).

(** Real-valued terms of the statistic. *)
Definition pearsonR (o e : R) : R := ((o - e) * (o - e) / e)%R.

Definition yatesR (o e : R) : R :=
  ((Rabs (o - e) - Rmin (1 / 2) (Rabs (o - e)))
   * (Rabs (o - e) - Rmin (1 / 2) (Rabs (o - e))) / e)%R.

(** Expected count and statistic of a tabulated matrix, as reals. *)
Definition expectedR {A B : Type} (rows : list A) (cols : list B)
                     (f : A -> B -> Z) (a : A) (c : B) : R :=
  (IZR (tab_row cols f a) * IZR (tab_col rows f c)
   / IZR (tab_total rows cols f))%R.

Definition termR {A B : Type} (rows : list A) (cols : list B)
                 (f : A -> B -> Z) (a : A) (c : B) : R :=
  if (dof_of (length rows) (length cols) =? 1)%Z
  then yatesR (IZR (f a c)) (expectedR rows cols f a c)
  else pearsonR (IZR (f a c)) (expectedR rows cols f a c).

Definition chi2R {A B : Type} (rows : list A) (cols : list B)
                 (f : A -> B -> Z) : R :=
  if (dof_of (length rows) (length cols) =? 0)%Z then 0%R
  else rsum (map (fun a => rsum (map (fun c => termR rows cols f a c) cols))
                 rows).

Definition rectangular (m : list (list Z)) : Prop :=
  Forall (fun row => length row = snd (shape m)) m.

(** A contingency table as [pd.crosstab] produces them: at least one row and
    one column, counts that are not negative, no empty row or column. *)
Definition well_formed_table (m : list (list Z)) : Prop :=
  m <> [] /\ snd (shape m) <> 0%nat /\ rectangular m
  /\ (forall i j, (i < fst (shape m))%nat -> (j < snd (shape m))%nat ->
                  (0 <= cell_at m i j)%Z)
  /\ (forall i, (i < fst (shape m))%nat -> (0 < row_total m i)%Z)
  /\ (forall j, (j < snd (shape m))%nat -> (0 < col_total m j)%Z).

(** *** The pieces of [pd.crosstab] *)

Definition both_present (p : cell * cell) : bool :=
  notnull (fst p) && notnull (snd p).

Definition pairs_of (a b : Series) : list (cell * cell) :=
  filter both_present (combine (s_values a) (s_values b)).

Definition pair_count (pairs : list (cell * cell)) (r c : cell) : Z :=
  Z.of_nat (length (filter (fun p => cell_eqb (fst p) r && cell_eqb (snd p) c)
                           pairs)).

Definition swap_pair (p : cell * cell) : cell * cell := (snd p, fst p).

(** Number of pairs whose first (second) component is a given value. *)
Definition first_count (pairs : list (cell * cell)) (r : cell) : Z :=
  Z.of_nat (length (filter (fun p => cell_eqb (fst p) r) pairs)).

Definition second_count (pairs : list (cell * cell)) (c : cell) : Z :=
  Z.of_nat (length (filter (fun p => cell_eqb (snd p) c) pairs)).

(** Number of times [a] occurs in [xs]. *)
Definition occurrences (xs : list cell) (a : cell) : Z :=
  Z.of_nat (length (filter (fun x => cell_eqb x a) xs)).

(** *** The matrix built by [cramer_matrix] *)

(** One cell of the matrix: Cramer's V of two columns of [data]. *)
Definition cramers_v_of (data : DataFrame) (var1 var2 : string)
  : result float :=
  a <- getcol data var1 ;;
  b <- getcol data var2 ;;
  cramers_v (crosstab a b).

Definition value_or_nan (r : result float) : float :=
  match r with Ok x => x | Raise _ => NaN end.

(** A matrix over [vars] filled by a function of the two labels. *)
Definition filled (vars : list string) (g : string -> string -> float)
  : matrix :=
  map (fun r => (r, map (fun c => (c, g r c)) vars)) vars.

Definition mem (x : string) (l : list string) : bool :=
  existsb (String.eqb x) l.

(** *** Concrete inputs *)

(** Two rows, a numeric variable to be binned. *)
Definition binning_df : DataFrame :=
  [ ("target"%string, mkSeries dt_int64 [] [Num (qz 0); Num (qz 1)]);
    ("x"%string, mkSeries dt_int64 [] [Num (qz 1); Num (qz 2)]) ].

(** The cross-tabulation of a two-valued column with itself. *)
Definition diag2 : list (list Z) := [[2; 0]; [0; 2]]%Z.

Definition binary_series : Series :=
  mkSeries dt_object [] [Str "A"; Str "A"; Str "B"; Str "B"].

Definition two_binary_df : DataFrame :=
  [ ("c1"%string, binary_series); ("c2"%string, binary_series) ].

Definition three_valued : Series :=
  mkSeries dt_object [] [Str "A"; Str "B"; Str "C"; Str "A"].

(** Ten cells, the first two given, the others 5. *)
Definition ten (a b : cell) : list cell :=
  [a; b; Num (qz 5); Num (qz 5); Num (qz 5); Num (qz 5); Num (qz 5);
   Num (qz 5); Num (qz 5); Num (qz 5)].

(** A column with 2 of 10 rows missing; the target is 0 on every row. *)
Definition nulls_single_class_df : DataFrame :=
  [ ("target"%string, mkSeries dt_int64 [] (repeat (Num (qz 0)) 10));
    ("x"%string, mkSeries dt_float64 [] (ten NA NA)) ].

(** The same column when the two missing rows carry both target values. *)
Definition nulls_two_classes_df : DataFrame :=
  [ ("target"%string,
     mkSeries dt_int64 []
              (Num (qz 0) :: Num (qz 1) :: repeat (Num (qz 0)) 8));
    ("x"%string, mkSeries dt_float64 [] (ten NA NA)) ].


(* ================================================================= *)
(** ** Further notions used in the statements *)

(** A value that is missing, plus infinity or a non-negative number. *)
Definition nonneg_or_nan (x : float) : Prop :=
  x = NaN \/ x = PInf \/ exists r, x = Fin r /\ (0 <= r)%R.

(** Three rows, all missing in [x], with three target values. *)
Definition nulls_three_classes_df : DataFrame :=
  [ ("target"%string,
     mkSeries dt_int64 [] [Num (qz 0); Num (qz 1); Num (qz 2)]);
    ("x"%string, mkSeries dt_float64 [] [NA; NA; NA]) ].

(** Three rows whose values all lie off the mean; three target values. *)
Definition outliers_three_classes_df : DataFrame :=
  [ ("target"%string,
     mkSeries dt_int64 [] [Num (qz 0); Num (qz 1); Num (qz 2)]);
    ("x"%string, mkSeries dt_int64 [] [Num (qz 0); Num (qz 0); Num (qz 3)]) ].

(** Three rows whose values all lie off the mean; two target values. *)
Definition outliers_two_classes_df : DataFrame :=
  [ ("target"%string,
     mkSeries dt_int64 [] [Num (qz 0); Num (qz 1); Num (qz 0)]);
    ("x"%string, mkSeries dt_int64 [] [Num (qz 0); Num (qz 0); Num (qz 3)]) ].

(** A column with a single observation, and a DataFrame without rows. *)
Definition single_observation_df : DataFrame :=
  [ ("target"%string, mkSeries dt_int64 [] [Num (qz 0); Num (qz 1)]);
    ("x"%string, mkSeries dt_float64 [] [Num (qz 7); NA]) ].

Definition no_rows_df : DataFrame :=
  [ ("target"%string, mkSeries dt_int64 [] []);
    ("x"%string, mkSeries dt_float64 [] []) ].

(** A row of a summary: the entries under the two target values [a] and
    [b], then the variable, its count under [count_label], and its rate. *)
Definition summary_row (a b : Qc) (under_a under_b : pyval) (variable : string)
                       (count_label : string) (count : Z) (rate : float)
  : out_row :=
  [ (VCell (Num a), under_a);
    (VCell (Num b), under_b);
    (VCell (Str "variable"), VCell (Str variable));
    (VCell (Str count_label), VCell (Num (qz count)));
    (VCell (Str "porcentaje_sum_null_values"), VFloat rate) ].

(** A value that is missing or a number between 0 and 1. *)
Definition unit_or_nan (x : float) : Prop :=
  x = NaN \/ exists v, x = Fin v /\ (0 <= v <= 1)%R.

(** A table whose rows are proportional: the two variables are
    independent. *)
Definition independent2 : list (list Z) := [[1; 2]; [2; 4]; [3; 6]]%Z.

(** A column with a single value, next to a two-valued one. *)
Definition constant_series : Series :=
  mkSeries dt_object [] [Str "k"; Str "k"; Str "k"; Str "k"].

(** A column without any value. *)
Definition all_missing_series : Series :=
  mkSeries dt_float64 [] [NA; NA; NA; NA].

(** A table with an empty first row. *)
Definition empty_row_table : list (list Z) := [[0; 0]; [1; 2]]%Z.

Definition missing_pair_df : DataFrame :=
  [ ("c1"%string, binary_series); ("c2"%string, all_missing_series) ].

(* ================================================================= *)
(** * Properties *)

Local Open Scope string_scope.
Local Open Scope list_scope.

(** ** Evaluating float operations *)

(** Case analysis on the decisions over reals. *)
Ltac real_case :=
  match goal with
  | |- context [Req_dec_T ?a ?b] => destruct (Req_dec_T a b); try lra
  | |- context [Rlt_dec ?a ?b] => destruct (Rlt_dec a b); try lra
  end.

Ltac real_decide :=
  repeat match goal with
  | |- context [Rcase_abs ?a] => destruct (Rcase_abs a); try lra
  | |- context [Rle_dec ?a ?b] => destruct (Rle_dec a b); try lra
  | |- context [Req_dec_T ?a ?b] => destruct (Req_dec_T a b); try lra
  | |- context [Rlt_dec ?a ?b] => destruct (Rlt_dec a b); try lra
  end.

(** Evaluation of float operations on concrete reals. *)
Ltac float_compute :=
  cbv beta iota delta
      [fdiv fmul fsub fadd fopp flog fsqrt fsign fabs fltb feqb
       replace_zero_nan replace_inf_zero py_max py_min minimum
       maximum signed_inf sgn of_Z Rabs Rmin];
  repeat (real_decide; cbv beta iota).

Lemma sgn_pos x : (0 < x)%R -> sgn x = Gt.
Proof. intros; unfold sgn; repeat real_case; reflexivity. Qed.
Lemma sgn_neg x : (x < 0)%R -> sgn x = Lt.
Proof. intros; unfold sgn; repeat real_case; reflexivity. Qed.
Lemma sgn_zero : sgn 0 = Eq.
Proof. unfold sgn; repeat real_case; reflexivity. Qed.

Lemma fdiv_Fin x y : y <> 0%R -> fdiv (Fin x) (Fin y) = Fin (x / y).
Proof.
  intros H. unfold fdiv. destruct (Req_dec_T y 0); [contradiction|reflexivity].
Qed.

(** ** Equality of cells *)

Lemma cell_eqb_true a b : cell_eqb a b = true <-> a = b.
Proof. unfold cell_eqb. destruct (cell_eq_dec a b); split; congruence. Qed.

Lemma cell_eqb_same a : cell_eqb a a = true.
Proof. apply cell_eqb_true. reflexivity. Qed.

Lemma cell_eqb_false a b : a <> b -> cell_eqb a b = false.
Proof. unfold cell_eqb. destruct (cell_eq_dec a b); congruence. Qed.

(* ================================================================= *)
(** ** [iv_woe]: Weight of Evidence per group *)

Lemma groupby_example :
  groupby_agg example_df "cat" "target"
  = Ok [(Str "A", 2%Z, 0%Z); (Str "B", 0%Z, 2%Z)].
Proof. vm_compute. reflexivity. Qed.

Lemma row_A :
  woe_of_counts 2 2 (Str "A", 2%Z, 0%Z)
  = mk_woe_row (Str "A") 2 0 (Fin 1) (Fin 0) NaN NaN.
Proof.
  unfold woe_of_counts.
  assert (Hb : fdiv (of_Z 2) (of_Z 2) = Fin 1).
  { float_compute. f_equal. lra. }
  assert (Hm : fdiv (of_Z 0) (of_Z 2) = Fin 0).
  { float_compute. f_equal. lra. }
  rewrite Hb, Hm.
  float_compute. reflexivity.
Qed.

Lemma row_B :
  woe_of_counts 2 2 (Str "B", 0%Z, 2%Z)
  = mk_woe_row (Str "B") 0 2 (Fin 0) (Fin 1) (Fin 0) PInf.
Proof.
  unfold woe_of_counts.
  assert (Hb : fdiv (of_Z 2) (of_Z 2) = Fin 1).
  { float_compute. f_equal. lra. }
  assert (Hm : fdiv (of_Z 0) (of_Z 2) = Fin 0).
  { float_compute. f_equal. lra. }
  rewrite Hb, Hm.
  float_compute. reflexivity.
Qed.

Lemma iv_woe_example_value :
  iv_woe example_df "cat" "target" None
  = (example_df,
     Ok ([ mk_woe_row (Str "A") 2 0 (Fin 1) (Fin 0) NaN NaN;
           mk_woe_row (Str "B") 0 2 (Fin 0) (Fin 1) (Fin 0) PInf ],
         PInf)).
Proof.
  unfold iv_woe. cbn [apply_binning bind].
  rewrite groupby_example. cbn [bind].
  change (getcol example_df "target") with
    (Ok (mkSeries dt_int64 []
           [Num (qz 0); Num (qz 0); Num (qz 1); Num (qz 1)])).
  cbn [bind s_values].
  change (count_eq_int 0 _) with 2%Z.
  change (count_eq_int 1 _) with 2%Z.
  cbn [map]. rewrite row_A, row_B. reflexivity.
Qed.

Lemma woe_of_counts_cases tb tm g :
  let row := woe_of_counts tb tm g in
  (forall a b, dist_buenos row = Fin a -> dist_malos row = Fin b ->
               (0 < a)%R -> (0 < b)%R -> WoE row = Fin (ln (a / b)))
  /\ (forall b, dist_buenos row = Fin 0 -> dist_malos row = Fin b ->
                (0 < b)%R -> WoE row = Fin 0)
  /\ (dist_malos row = Fin 0 -> WoE row = NaN)
  /\ (dist_malos row = NaN \/ dist_buenos row = NaN -> WoE row = NaN).
Proof.
  destruct g as [[k b] m]. cbn -[fdiv flog replace_zero_nan of_Z].
  set (db := fdiv (of_Z b) (of_Z tb)).
  set (dm := fdiv (of_Z m) (of_Z tm)).
  repeat split.
  - intros a c -> -> Ha Hc.
    assert (0 < a / c)%R by (apply Rdiv_lt_0_compat; assumption).
    unfold replace_zero_nan. destruct (Req_dec_T c 0); [lra|].
    unfold fdiv. destruct (Req_dec_T c 0); [lra|].
    unfold flog. rewrite sgn_pos by assumption. reflexivity.
  - intros c -> -> Hc.
    unfold replace_zero_nan. destruct (Req_dec_T c 0); [lra|].
    unfold fdiv. destruct (Req_dec_T c 0); [lra|].
    replace (0 / c)%R with 0%R by (field; assumption).
    unfold flog. rewrite sgn_zero. reflexivity.
  - intros ->. unfold replace_zero_nan.
    destruct (Req_dec_T 0 0); [|lra].
    destruct db; reflexivity.
  - intros [-> | ->]; [destruct db|]; reflexivity.
Qed.

Lemma iv_woe_rows df variable target bins df' tabla iv_total row :
  iv_woe df variable target bins = (df', Ok (tabla, iv_total)) ->
  In row tabla ->
  exists tb tm g, row = woe_of_counts tb tm g.
Proof.
  unfold iv_woe. destruct (apply_binning df variable bins) as [df1 binned].
  intros H Hin. injection H as _ H.
  destruct binned as [[]|e]; [|discriminate]. cbn [bind] in H.
  destruct (groupby_agg df1 variable target) as [groups|e]; [|discriminate].
  cbn [bind] in H.
  destruct (getcol df1 target) as [t|e]; [|discriminate].
  cbn [bind] in H. injection H as <- _.
  apply in_map_iff in Hin. destruct Hin as [g [<- _]].
  eauto.
Qed.

Lemma filter_select_mask_le {A} (p : A -> bool) l mask :
  (length (filter p (select_mask l mask)) <= length (filter p l))%nat.
Proof.
  revert mask. induction l as [|x l IH]; intros [|b mask];
    cbn [select_mask filter length]; try lia.
  specialize (IH mask).
  destruct b; cbn [filter]; destruct (p x); cbn [length]; lia.
Qed.

Lemma count_eq_int_select z l mask :
  (0 <= count_eq_int z (select_mask l mask) <= count_eq_int z l)%Z.
Proof.
  unfold count_eq_int.
  pose proof (filter_select_mask_le (cell_eqb (Num (qz z))) l mask). lia.
Qed.

(** A share of a count in a total that bounds it. *)
Lemma share_cases b T :
  (0 <= b <= T)%Z ->
  fdiv (of_Z b) (of_Z T) = NaN
  \/ exists a, fdiv (of_Z b) (of_Z T) = Fin a /\ (0 <= a)%R.
Proof.
  intros [Hb HT]. unfold fdiv, of_Z.
  destruct (Req_dec_T (IZR T) 0) as [E|N].
  - left. apply eq_IZR in E. assert (b = 0)%Z by lia. subst b.
    rewrite sgn_zero. reflexivity.
  - right. eexists. split; [reflexivity|].
    assert (0 < T)%Z.
    { destruct (Z.eq_dec T 0) as [->|]; [contradiction N; reflexivity|lia]. }
    apply Rmult_le_pos.
    + apply IZR_le. assumption.
    + left. apply Rinv_0_lt_compat. apply IZR_lt. assumption.
Qed.

Lemma iv_woe_row_shares df variable target bins df' tabla iv_total row :
  iv_woe df variable target bins = (df', Ok (tabla, iv_total)) ->
  In row tabla ->
  (dist_buenos row = NaN
   \/ exists a, dist_buenos row = Fin a /\ (0 <= a)%R)
  /\ (dist_malos row = NaN
      \/ exists b, dist_malos row = Fin b /\ (0 <= b)%R).
Proof.
  unfold iv_woe. destruct (apply_binning df variable bins) as [df1 binned].
  intros H Hin. injection H as _ H.
  destruct binned as [[]|e]; [|discriminate]. cbn [bind] in H.
  unfold groupby_agg in H.
  destruct (getcol df1 variable) as [v|e]; [|discriminate]. cbn [bind] in H.
  destruct (getcol df1 target) as [t|e]; [|discriminate]. cbn [bind] in H.
  injection H as <- _.
  apply in_map_iff in Hin. destruct Hin as [g [<- Hg]].
  apply in_map_iff in Hg. destruct Hg as [k [<- _]].
  cbn [woe_of_counts dist_buenos dist_malos].
  split; apply share_cases; apply count_eq_int_select.
Qed.

(** C1 (amended).  In the table returned by [iv_woe], every group has
    shares that are non-negative numbers or undefined (NaN), and:
    WoE = ln(dist_good / dist_bad) when both shares are positive; WoE = 0
    when dist_good is 0 and dist_bad is positive (minus infinity collapsed
    to 0); WoE is NaN, not 0, when dist_bad is 0 or a share is undefined. *)
Theorem woe_by_cases df variable target bins df' tabla iv_total row :
  iv_woe df variable target bins = (df', Ok (tabla, iv_total)) ->
  In row tabla ->
  ((dist_buenos row = NaN
    \/ exists a, dist_buenos row = Fin a /\ (0 <= a)%R)
   /\ (dist_malos row = NaN
       \/ exists b, dist_malos row = Fin b /\ (0 <= b)%R))
  /\ (forall a b, dist_buenos row = Fin a -> dist_malos row = Fin b ->
                  (0 < a)%R -> (0 < b)%R -> WoE row = Fin (ln (a / b)))
  /\ (forall b, dist_buenos row = Fin 0 -> dist_malos row = Fin b ->
                (0 < b)%R -> WoE row = Fin 0)
  /\ (dist_malos row = Fin 0 -> WoE row = NaN)
  /\ (dist_malos row = NaN \/ dist_buenos row = NaN -> WoE row = NaN).
Proof.
  intros H Hin. split.
  - exact (iv_woe_row_shares df variable target bins df' tabla iv_total row
             H Hin).
  - destruct (iv_woe_rows _ _ _ _ _ _ _ _ H Hin) as (tb & tm & g & ->).
    apply woe_of_counts_cases.
Qed.

(** C1, as stated, fails: in the example table group A has a zero bad share
    and its WoE is NaN, not 0. *)
Lemma woe_zero_bad_share_is_nan :
  exists tabla iv_total row,
    snd (iv_woe example_df "cat" "target" None) = Ok (tabla, iv_total)
    /\ In row tabla
    /\ dist_malos row = Fin 0
    /\ WoE row <> Fin 0.
Proof.
  rewrite iv_woe_example_value. cbn [snd].
  do 3 eexists. split; [reflexivity|].
  split; [left; reflexivity|]. cbn [dist_malos WoE].
  split; [reflexivity|discriminate].
Qed.

(** Group B of the example: a zero good share, WoE masked to 0. *)
Lemma woe_by_cases_witness :
  WoE (mk_woe_row (Str "B") 0 2 (Fin 0) (Fin 1) (Fin 0) PInf) = Fin 0.
Proof.
  refine (proj1 (proj2 (proj2 (woe_by_cases example_df "cat" "target" None
                          example_df _ PInf _ iv_woe_example_value _)))
                1%R _ _ _).
  - right. left. reflexivity.
  - reflexivity.
  - reflexivity.
  - lra.
Defined.



(* ================================================================= *)
(** ** [iv_woe]: effect on the caller's DataFrame *)

(** [pd.cut([1, 2], bins=2)]: the intervals (0.999, 1.5] and (1.5, 2]. *)
Example pd_cut_two_bins :
  exists c,
    pd_cut (mkSeries dt_int64 [] [Num (qz 1); Num (qz 2)]) 2 = Ok c
    /\ map (fun i => match i with
                     | Itv lo hi => Some (this lo, this hi)
                     | _ => None
                     end) (s_values c)
       = [Some (999 # 1000, 3 # 2); Some (3 # 2, 2 # 1)]%Q.
Proof. eexists. split; vm_compute; reflexivity. Qed.

(** C6, as stated, fails: with a bin count the variable's column of the
    input dataset is overwritten by its intervals. *)
Lemma iv_woe_overwrites_binned_column :
  fst (iv_woe binning_df "x" "target" (Some 2%Z)) <> binning_df.
Proof.
  intros H. vm_compute in H. discriminate H.
Qed.

Lemma lookup_setcol_other df name s other :
  other <> name -> lookup (setcol df name s) other = lookup df other.
Proof.
  intros Hne. induction df as [|[n s0] df IH]; simpl.
  - destruct (String.eqb_spec name other); congruence.
  - destruct (String.eqb_spec n name) as [->|Hn]; simpl.
    + destruct (String.eqb_spec name other); congruence.
    + rewrite IH. reflexivity.
Qed.

Lemma lookup_setcol_same df name s s0 :
  lookup df name = Some s0 -> lookup (setcol df name s) name = Some s.
Proof.
  induction df as [|[n s1] df IH]; simpl; [discriminate|].
  destruct (String.eqb_spec n name) as [->|Hn]; simpl.
  - rewrite String.eqb_refl. reflexivity.
  - intros H. destruct (String.eqb_spec n name); [contradiction|]. auto.
Qed.

Lemma columns_setcol df name s s0 :
  lookup df name = Some s0 -> columns (setcol df name s) = columns df.
Proof.
  unfold columns.
  induction df as [|[n s1] df IH]; simpl; [discriminate|].
  destruct (String.eqb_spec n name) as [->|Hn]; simpl; [reflexivity|].
  intros H. f_equal. auto.
Qed.

Lemma getcol_Ok df name s : getcol df name = Ok s <-> lookup df name = Some s.
Proof.
  unfold getcol. destruct (lookup df name); split; congruence.
Qed.

(** C6 (amended).  [iv_woe] leaves its input dataset unchanged when no bin
    count is given ([bins] is None or 0).  With a bin count it keeps the
    column labels and every column other than [variable], and stores the
    binned column under [variable] when the binning succeeds. *)
Theorem iv_woe_frame df variable target bins :
  (truthy bins = false -> fst (iv_woe df variable target bins) = df)
  /\ (forall other, other <> variable ->
        lookup (fst (iv_woe df variable target bins)) other = lookup df other)
  /\ columns (fst (iv_woe df variable target bins)) = columns df
  /\ (forall b s c, bins = Some b -> truthy bins = true ->
        getcol df variable = Ok s -> pd_cut s b = Ok c ->
        getcol (fst (iv_woe df variable target bins)) variable = Ok c).
Proof.
  unfold iv_woe.
  assert (E : forall X (p : DataFrame * result unit)
                     (k : DataFrame -> result unit -> X),
             fst (let '(df1, binned) := p in (df1, k df1 binned)) = fst p).
  { intros X [a b] k. reflexivity. }
  rewrite (E _ (apply_binning df variable bins)
             (fun df1 binned => _ <- binned ;; _)).
  clear E. unfold apply_binning.
  repeat split.
  - intros Hf. destruct bins as [b|]; [rewrite Hf|]; reflexivity.
  - intros other Hne. destruct bins as [b|]; [|reflexivity].
    destruct (truthy (Some b)); [|reflexivity].
    destruct (s <- getcol df variable ;; pd_cut s b); simpl; [|reflexivity].
    apply lookup_setcol_other; assumption.
  - destruct bins as [b|]; [|reflexivity].
    destruct (truthy (Some b)); [|reflexivity].
    destruct (getcol df variable) as [s|e] eqn:Hs; cbn [bind]; [|reflexivity].
    destruct (pd_cut s b); simpl; [|reflexivity].
    apply getcol_Ok in Hs. eapply columns_setcol; eassumption.
  - intros b s c -> Ht Hs Hc. rewrite Ht, Hs. cbn [bind]. rewrite Hc. simpl.
    apply getcol_Ok. apply getcol_Ok in Hs.
    eapply lookup_setcol_same; eassumption.
Qed.

(** Without bins the example dataset is returned as it was; with two bins
    the column [x] of the two-row dataset holds its intervals afterwards. *)
Lemma iv_woe_frame_witness :
  fst (iv_woe example_df "cat" "target" None) = example_df
  /\ exists c,
       pd_cut (mkSeries dt_int64 [] [Num (qz 1); Num (qz 2)]) 2 = Ok c
       /\ s_dtype c = dt_category
       /\ getcol (fst (iv_woe binning_df "x" "target" (Some 2%Z))) "x" = Ok c.
Proof.
  split.
  - apply (proj1 (iv_woe_frame example_df "cat" "target" None)).
    reflexivity.
  - eexists. split; [vm_compute; reflexivity|]. split; [reflexivity|].
    apply (proj2 (proj2 (proj2 (iv_woe_frame binning_df "x" "target"
                                  (Some 2%Z))))
             2%Z (mkSeries dt_int64 [] [Num (qz 1); Num (qz 2)])).
    + reflexivity.
    + reflexivity.
    + reflexivity.
    + vm_compute. reflexivity.
Defined.

(* ================================================================= *)
(** ** [dame_variables_categoricas] and the missing-dataset sentinel *)

Lemma lookup_in_columns df i :
  In i (columns df) -> exists s, lookup df i = Some s.
Proof.
  unfold columns. induction df as [|[n s] df IH]; simpl; [tauto|].
  intros [->|H].
  - rewrite String.eqb_refl. eauto.
  - destruct (String.eqb n i); eauto.
Qed.

Lemma clasifica_filter d max_unicos cols :
  forall cat other,
  incl cols (columns d) ->
  clasifica d max_unicos cols cat other
  = Ok (cat ++ filter (es_categorica d max_unicos) cols,
        other ++ filter (fun i => negb (es_categorica d max_unicos i)) cols).
Proof.
  induction cols as [|i rest IH]; intros cat other Hincl; simpl.
  - rewrite !app_nil_r. reflexivity.
  - assert (Hi : In i (columns d)) by (apply Hincl; left; reflexivity).
    destruct (lookup_in_columns d i Hi) as [s Hs].
    unfold getcol, es_categorica. rewrite Hs. cbn [bind].
    assert (Hrest : incl rest (columns d))
      by (intros x Hx; apply Hincl; right; assumption).
    destruct (is_object_or_category (s_dtype s) || (unicos s <? max_unicos)%Z);
      rewrite IH by assumption; simpl; rewrite <- app_assoc; reflexivity.
Qed.



(** C8.  Without a dataset both functions print their message and return
    the integer 1, raising nothing; with a dataset neither returns 1. *)
Theorem missing_dataset_sentinel :
  (forall max_unicos,
      dame_variables_categoricas None max_unicos
      = ([(newline ++ "Faltan argumentos por pasar a la función")%string],
         Ok (RetInt 1)))
  /\ (forall corr metodo,
        get_corr_matrix corr None metodo
        = (mk_effects
             [(newline ++ "Hace falta pasar argumentos a la función")%string]
             [],
           Ok 1%Z))
  /\ (forall d max_unicos,
        snd (dame_variables_categoricas (Some d) max_unicos) <> Ok (RetInt 1))
  /\ (forall corr d metodo,
        snd (get_corr_matrix corr (Some d) metodo) <> Ok 1%Z).
Proof.
  repeat split.
  - intros d max_unicos. cbn [dame_variables_categoricas snd].
    destruct (clasifica d max_unicos (columns d) [] []); cbn [bind];
      discriminate.
  - intros corr d metodo. cbn [get_corr_matrix].
    destruct (corr d metodo); cbn [snd]; discriminate.
Qed.

(* ================================================================= *)
(** ** Target distribution among missing or outlying rows *)

Lemma insert_by_count_length x l :
  length (insert_by_count x l) = S (length l).
Proof.
  induction l as [|y l IH]; simpl; [reflexivity|].
  destruct (snd y <=? snd x)%nat; simpl; congruence.
Qed.

Lemma value_counts_length s :
  s_dtype s <> dt_category ->
  length (value_counts s) = length (first_seen (dropna (s_values s)) []).
Proof.
  intros Hdt. unfold value_counts.
  replace (match s_dtype s with
           | dt_category => s_categories s
           | _ => first_seen (dropna (s_values s)) []
           end)
    with (first_seen (dropna (s_values s)) [])
    by (destruct (s_dtype s); congruence).
  induction (first_seen (dropna (s_values s)) []) as [|k ks IH];
    simpl; [reflexivity|].
  rewrite insert_by_count_length. congruence.
Qed.

Lemma first_seen_all_seen l seen :
  (forall c, In c l -> existsb (cell_eqb c) seen = true) ->
  first_seen l seen = [].
Proof.
  induction l as [|x l IH]; intros H; simpl; [reflexivity|].
  rewrite (H x) by (left; reflexivity).
  apply IH. intros c Hc. apply H. right. assumption.
Qed.

Lemma first_seen_single v l :
  (forall c, In c l -> c = v) -> (length (first_seen l []) <= 1)%nat.
Proof.
  intros H. destruct l as [|x l]; simpl; [lia|].
  rewrite first_seen_all_seen; [simpl; lia|].
  intros c Hc. simpl.
  rewrite (H c) by (right; assumption).
  rewrite (H x) by (left; reflexivity).
  rewrite cell_eqb_same. reflexivity.
Qed.

Lemma value_counts_single v s :
  s_dtype s <> dt_category ->
  (forall c, In c (s_values s) -> c = v) ->
  (length (value_counts s) <= 1)%nat.
Proof.
  intros Hdt H. rewrite value_counts_length by assumption.
  apply (@first_seen_single v).
  intros c Hc. apply H. unfold dropna in Hc. apply filter_In in Hc. tauto.
Qed.

(** With fewer than two distinct values the renaming step indexes past the
    last column. *)
Lemma renamed_distribution_single target v selected :
  s_dtype selected <> dt_category ->
  (forall c, In c (s_values selected) -> c = v) ->
  renamed_distribution target selected = Raise IndexError.
Proof.
  intros Hdt H. pose proof (@value_counts_single v selected Hdt H) as Hlen.
  unfold renamed_distribution, value_counts_frame, iloc.
  cbn [f_rows nth_error snd].
  destruct (value_counts selected) as [|p [|q vc]]; simpl in *;
    try reflexivity; lia.
Qed.

Lemma null_values_loop_app pd_loan target pre rest acc :
  null_values_loop pd_loan target (pre ++ rest) acc
  = (acc' <- null_values_loop pd_loan target pre acc ;;
     null_values_loop pd_loan target rest acc').
Proof.
  revert acc. induction pre as [|i pre IH]; intros acc;
    cbn [app null_values_loop bind]; [reflexivity|].
  destruct (getcol pd_loan i) as [s|e]; cbn [bind]; [|reflexivity].
  destruct (0 <? count_null s)%Z; [|apply IH].
  destruct (getcol pd_loan target) as [t|e]; cbn [bind]; [|reflexivity].
  destruct (renamed_distribution _ _) as [fr|e]; cbn [bind]; [|reflexivity].
  destruct (drop_row fr "index" true) as [fr'|e]; cbn [bind]; [|reflexivity].
  apply IH.
Qed.

Lemma deviation_loop_app pd_loan target multiplier pre rest acc :
  deviation_loop pd_loan target multiplier (pre ++ rest) acc
  = (acc' <- deviation_loop pd_loan target multiplier pre acc ;;
     deviation_loop pd_loan target multiplier rest acc').
Proof.
  revert acc. induction pre as [|i pre IH]; intros acc;
    cbn [app deviation_loop bind]; [reflexivity|].
  destruct (getcol pd_loan i) as [s|e]; cbn [bind]; [|reflexivity].
  destruct (column_mean s) as [m|e]; cbn [bind]; [|reflexivity].
  destruct (column_std s) as [sd|e]; cbn [bind]; [|reflexivity].
  destruct (py_int_div _ _) as [pg|e]; cbn [bind]; [|reflexivity].
  destruct (py_int_div _ _) as [pe|e]; cbn [bind]; [|reflexivity].
  destruct (fltb (Fin 0) pe); [|apply IH].
  destruct (getcol pd_loan target) as [t|e]; cbn [bind]; [|reflexivity].
  destruct (renamed_distribution _ _) as [fr|e]; cbn [bind]; [|reflexivity].
  destruct (drop_row fr target false) as [fr'|e]; cbn [bind]; [|reflexivity].
  apply IH.
Qed.


(** C7, failing input.  One listed column with 2 of 10 rows missing, both
    on rows whose target is 0: the call raises IndexError instead of
    returning a row with sum_null_values = 2 and
    porcentaje_sum_null_values = 0.2. *)
Theorem null_summary_single_class_raises :
  get_percent_null_values_target nulls_single_class_df ["x"] "target"
  = ([], Raise IndexError).
Proof.
  unfold get_percent_null_values_target. cbn [null_values_loop].
  change (getcol nulls_single_class_df "x")
    with (Ok (mkSeries dt_float64 [] (ten NA NA))).
  change (getcol nulls_single_class_df "target")
    with (Ok (mkSeries dt_int64 [] (repeat (Num (qz 0)) 10))).
  cbn [bind].
  change (0 <? count_null (mkSeries dt_float64 [] (ten NA NA)))%Z with true.
  cbv iota.
  rewrite (renamed_distribution_single "target" (Num (qz 0))).
  - reflexivity.
  - discriminate.
  - cbn [select_rows s_values ten repeat map isnull select_mask].
    intros c [<-|[<-|[]]]; reflexivity.
Qed.

Lemma Qc_to_R_qz z : Qc_to_R (qz z) = IZR z.
Proof.
  unfold Qc_to_R, qz, Q2Qc, this. rewrite Qred_correct.
  unfold Q2R, inject_Z, Qnum, Qden. lra.
Qed.

Lemma outliers_mask :
  excess_mask (mkSeries dt_int64 [] [Num (qz 0); Num (qz 0); Num (qz 3)])
    (fsub (mean_of [qz 0; qz 0; qz 3])
          (fmul (Fin 0) (std_of [qz 0; qz 0; qz 3])))
    (fadd (mean_of [qz 0; qz 0; qz 3])
          (fmul (Fin 0) (std_of [qz 0; qz 0; qz 3])))
  = [true; true; true].
Proof.
  unfold mean_of, std_of. cbn [length Nat.ltb Nat.leb map rsum fold_right].
  rewrite !Qc_to_R_qz. cbn [INR].
  cbn [fmul fsub fadd]. unfold excess_mask. cbn [s_values map].
  unfold cell_lt, cell_gt. rewrite !Qc_to_R_qz.
  unfold fltb.
  repeat match goal with
         | |- context [Rlt_dec ?a ?b] => destruct (Rlt_dec a b); try lra
         end.
  reflexivity.
Qed.


(** The same column when the two missing rows carry both target values:
    the rows returned record 2 missing values and the rate 2/10. *)
Lemma null_summary_two_classes :
  exists r1 r2,
    get_percent_null_values_target nulls_two_classes_df ["x"] "target"
    = ([], Ok [r1; r2])
    /\ row_get r1 "sum_null_values" = Some (VCell (Num (qz 2)))
    /\ row_get r1 "porcentaje_sum_null_values" = Some (VFloat (Fin (2 / 10)))
    /\ row_get r2 "sum_null_values" = Some (VCell (Num (qz 2)))
    /\ row_get r2 "porcentaje_sum_null_values" = Some (VFloat (Fin (2 / 10))).
Proof.
  unfold get_percent_null_values_target. cbn [null_values_loop].
  change (getcol nulls_two_classes_df "x")
    with (Ok (mkSeries dt_float64 [] (ten NA NA))).
  change (getcol nulls_two_classes_df "target")
    with (Ok (mkSeries dt_int64 []
                (Num (qz 0) :: Num (qz 1) :: repeat (Num (qz 0)) 8))).
  cbn [bind].
  change (0 <? count_null (mkSeries dt_float64 [] (ten NA NA)))%Z with true.
  cbv iota.
  change (count_null (mkSeries dt_float64 [] (ten NA NA))) with 2%Z.
  change (Z.of_nat (shape0 nulls_two_classes_df)) with 10%Z.
  change (fdiv (of_Z 2) (of_Z 10)) with (fdiv (Fin 2) (Fin 10)).
  rewrite (fdiv_Fin 2 10) by lra.
  remember (VFloat (Fin (2 / 10))) as p eqn:Hp.
  cbn [select_rows s_dtype s_categories s_values ten repeat map isnull
       select_mask].
  unfold renamed_distribution, value_counts_frame.
  change (value_counts (mkSeries dt_int64 [] [Num (qz 0); Num (qz 1)]))
    with [(Num (qz 0), 1%nat); (Num (qz 1), 1%nat)].
  cbn [s_values length map seq fst snd dropna filter notnull isnull negb].
  remember (VFloat (fdiv (of_Z (Z.of_nat 1)) (of_Z (Z.of_nat 2)))) as q eqn:Hq.
  cbn [iloc f_rows nth_error snd bind set_columns length f_columns Nat.eqb].
  vm_compute.
  do 2 eexists. split; [reflexivity|].
  repeat split.
Qed.

(* ================================================================= *)
(** ** Sums over tables *)

(** *** Algebra of float addition *)

Lemma fadd_comm a b : fadd a b = fadd b a.
Proof.
  destruct a, b; simpl; try reflexivity. f_equal. apply Rplus_comm.
Qed.

Lemma fadd_assoc a b c : fadd a (fadd b c) = fadd (fadd a b) c.
Proof.
  destruct a, b, c; simpl; try reflexivity. f_equal. ring.
Qed.

Lemma fadd_0_l a : fadd (Fin 0) a = a.
Proof. destruct a; simpl; try reflexivity. f_equal. ring. Qed.

Lemma fadd_0_r a : fadd a (Fin 0) = a.
Proof. rewrite fadd_comm. apply fadd_0_l. Qed.

Lemma fsum_app l1 l2 : fsum (l1 ++ l2) = fadd (fsum l1) (fsum l2).
Proof.
  unfold fsum. induction l1 as [|x l1 IH]; cbn [app fold_right].
  - symmetry. apply fadd_0_l.
  - rewrite IH. apply fadd_assoc.
Qed.

Lemma fsum_concat ls : fsum (concat ls) = fsum (map fsum ls).
Proof.
  induction ls as [|l ls IH]; cbn [concat map]; [reflexivity|].
  rewrite fsum_app, IH. reflexivity.
Qed.

Lemma fsum_map_add {A} (g h : A -> float) l :
  fsum (map (fun x => fadd (g x) (h x)) l)
  = fadd (fsum (map g l)) (fsum (map h l)).
Proof.
  unfold fsum. induction l as [|x l IH]; cbn [map fold_right].
  - symmetry. apply fadd_0_l.
  - rewrite IH. rewrite <- !fadd_assoc. f_equal.
    rewrite !fadd_assoc. f_equal. apply fadd_comm.
Qed.

Lemma fsum_zero {A} (l : list A) : fsum (map (fun _ => Fin 0) l) = Fin 0.
Proof.
  unfold fsum. induction l; cbn [map fold_right]; [reflexivity|].
  rewrite IHl. apply fadd_0_l.
Qed.

(** Summation over a rectangle in either order. *)
Lemma fsum_swap {A B} (g : A -> B -> float) rows cols :
  fsum (map (fun a => fsum (map (fun c => g a c) cols)) rows)
  = fsum (map (fun c => fsum (map (fun a => g a c) rows)) cols).
Proof.
  induction rows as [|a rows IH]; cbn [map].
  - rewrite fsum_zero. reflexivity.
  - transitivity
      (fadd (fsum (map (fun c => g a c) cols))
            (fsum (map (fun c => fsum (map (fun a0 => g a0 c) rows)) cols))).
    + rewrite <- IH. reflexivity.
    + rewrite <- fsum_map_add. reflexivity.
Qed.

Lemma fsum_Fin {A} (g : A -> R) l :
  fsum (map (fun x => Fin (g x)) l) = Fin (rsum (map g l)).
Proof.
  unfold fsum, rsum. induction l as [|x l IH]; simpl; [reflexivity|].
  rewrite IH. reflexivity.
Qed.

Lemma zsum_map_add {A} (g h : A -> Z) l :
  zsum (map (fun x => (g x + h x)%Z) l) = (zsum (map g l) + zsum (map h l))%Z.
Proof.
  unfold zsum. induction l as [|x l IH]; simpl; [reflexivity|].
  rewrite IH. ring.
Qed.

Lemma zsum_swap {A B} (g : A -> B -> Z) rows cols :
  zsum (map (fun a => zsum (map (fun c => g a c) cols)) rows)
  = zsum (map (fun c => zsum (map (fun a => g a c) rows)) cols).
Proof.
  induction rows as [|a rows IH]; cbn [map].
  - induction cols as [|c cols IHc]; [reflexivity|].
    cbn [map]. unfold zsum in *. cbn [fold_right map] in *.
    rewrite <- IHc. reflexivity.
  - transitivity
      (zsum (map (fun c => g a c) cols)
       + zsum (map (fun c => zsum (map (fun a0 => g a0 c) rows)) cols))%Z.
    + rewrite <- IH. reflexivity.
    + rewrite <- zsum_map_add. reflexivity.
Qed.

Lemma existsb_swap {A B} (p : A -> B -> bool) rows cols :
  existsb (fun a => existsb (fun c => p a c) cols) rows
  = existsb (fun c => existsb (fun a => p a c) rows) cols.
Proof.
  apply eq_true_iff_eq. rewrite !existsb_exists.
  split.
  - intros [a [Ha H]]. apply existsb_exists in H. destruct H as [c [Hc H]].
    exists c. split; [assumption|]. apply existsb_exists. eauto.
  - intros [c [Hc H]]. apply existsb_exists in H. destruct H as [a [Ha H]].
    exists a. split; [assumption|]. apply existsb_exists. eauto.
Qed.

(** *** [chi2_contingency] on tabulated matrices *)

Lemma existsb_map {A B} (p : B -> bool) (g : A -> B) l :
  existsb p (map g l) = existsb (fun x => p (g x)) l.
Proof. induction l; simpl; congruence. Qed.

Lemma existsb_ext_in {A} (p q : A -> bool) l :
  (forall x, In x l -> p x = q x) -> existsb p l = existsb q l.
Proof.
  induction l as [|x l IH]; intros H; simpl; [reflexivity|].
  rewrite (H x) by (left; reflexivity). f_equal.
  apply IH. intros y Hy. apply H. right. assumption.
Qed.

Lemma map2_map {A B C D} (g : B -> C -> D) (o : A -> B) (e : A -> C) l :
  map2 g (map o l) (map e l) = map (fun x => g (o x) (e x)) l.
Proof.
  unfold map2. induction l as [|x l IH]; simpl; congruence.
Qed.

Lemma map_nth_seq {A} (l : list A) d :
  map (fun j => nth j l d) (seq 0 (length l)) = l.
Proof.
  apply nth_ext with (d := d) (d' := d).
  - rewrite length_map, length_seq. reflexivity.
  - intros n Hn. rewrite length_map, length_seq in Hn.
    rewrite (nth_indep _ d (nth 0 l d))
      by (rewrite length_map, length_seq; assumption).
    rewrite (map_nth (fun j => nth j l d)).
    rewrite seq_nth by assumption. reflexivity.
Qed.

Section TabFacts.
Context {A B : Type} (rows : list A) (cols : list B) (f : A -> B -> Z).
Hypothesis rows_nonempty : rows <> [].
Hypothesis cols_nonempty : cols <> [].

Lemma shape_tab : shape (tab rows cols f) = (length rows, length cols).
Proof.
  unfold shape, tab. rewrite length_map.
  destruct rows; [contradiction|]. simpl. rewrite length_map. reflexivity.
Qed.

Lemma row_sums_tab : row_sums (tab rows cols f) = map (tab_row cols f) rows.
Proof. unfold row_sums, tab. rewrite map_map. reflexivity. Qed.

Lemma total_tab : total (tab rows cols f) = tab_total rows cols f.
Proof.
  unfold total. fold (row_sums (tab rows cols f)).
  rewrite row_sums_tab. reflexivity.
Qed.

Lemma col_sums_tab : col_sums (tab rows cols f) = map (tab_col rows f) cols.
Proof.
  unfold col_sums. rewrite shape_tab. cbn [snd].
  destruct cols as [|c0 cs] eqn:E; [contradiction|]. rewrite <- E.
  rewrite <- (map_nth_seq cols c0) at 2. rewrite map_map.
  apply map_ext_in. intros j Hj. apply in_seq in Hj.
  unfold tab_col, tab. rewrite map_map.
  f_equal. apply map_ext. intros a.
  rewrite (nth_indep _ 0%Z (f a c0)) by (rewrite length_map; lia).
  apply (map_nth (f a)).
Qed.

Lemma expected_freq_tab :
  expected_freq (tab rows cols f)
  = map (fun a => map (tab_expected rows cols f a) cols) rows.
Proof.
  unfold expected_freq. rewrite row_sums_tab, col_sums_tab, total_tab.
  rewrite !map_map. apply map_ext. intros a. rewrite map_map. reflexivity.
Qed.

Lemma size_tab_nonzero : Nat.eqb (length rows * length cols) 0 = false.
Proof.
  apply Nat.eqb_neq. destruct rows; [contradiction|].
  destruct cols; [contradiction|]. simpl. lia.
Qed.

Lemma chi2_contingency_tab :
  chi2_contingency (tab rows cols f) = chi2_tab rows cols f.
Proof.
  unfold chi2_contingency, chi2_tab.
  rewrite shape_tab, size_tab_nonzero, expected_freq_tab.
  fold (dof_of (length rows) (length cols)).
  unfold tab at 1. rewrite existsb_map.
  rewrite (existsb_ext_in _ (fun a => existsb (fun c => (f a c <? 0)%Z) cols))
    by (intros; apply existsb_map).
  destruct (existsb _ rows); [reflexivity|].
  rewrite existsb_map.
  rewrite (existsb_ext_in _
             (fun a => existsb (fun c => feqb (tab_expected rows cols f a c)
                                              (Fin 0)) cols))
    by (intros; apply existsb_map).
  destruct (existsb _ rows); [reflexivity|].
  destruct (dof_of (length rows) (length cols) =? 0)%Z; [reflexivity|].
  f_equal. rewrite fsum_concat. unfold tab_observed.
  destruct (dof_of (length rows) (length cols) =? 1)%Z.
  - unfold tab. rewrite map_map.
    rewrite (map_ext (fun a => map of_Z (map (f a) cols))
                     (fun a => map (fun c => of_Z (f a c)) cols))
      by (intros; apply map_map).
    rewrite (map2_map (map2 yates_adjust)).
    rewrite (map2_map (map2 pearson_term)).
    rewrite map_map. f_equal. apply map_ext. intros a.
    rewrite (map2_map yates_adjust), (map2_map pearson_term). reflexivity.
  - unfold tab. rewrite map_map.
    rewrite (map_ext (fun a => map of_Z (map (f a) cols))
                     (fun a => map (fun c => of_Z (f a c)) cols))
      by (intros; apply map_map).
    rewrite (map2_map (map2 pearson_term)).
    rewrite map_map. f_equal. apply map_ext. intros a.
    rewrite (map2_map pearson_term). reflexivity.
Qed.
End TabFacts.

Lemma fmul_comm a b : fmul a b = fmul b a.
Proof.
  destruct a, b; simpl; try reflexivity. f_equal. apply Rmult_comm.
Qed.

Lemma dof_of_comm r k : dof_of r k = dof_of k r.
Proof. unfold dof_of. rewrite Nat.mul_comm, Nat.add_comm. reflexivity. Qed.

Lemma tab_total_swap {A B} (rows : list A) (cols : list B) f :
  tab_total cols rows (fun c a => f a c) = tab_total rows cols f.
Proof. unfold tab_total, tab_row. symmetry. apply zsum_swap. Qed.

Lemma tab_expected_swap {A B} (rows : list A) (cols : list B) f a c :
  tab_expected cols rows (fun c a => f a c) c a = tab_expected rows cols f a c.
Proof.
  unfold tab_expected. rewrite tab_total_swap.
  rewrite fmul_comm. reflexivity.
Qed.

Lemma chi2_tab_swap {A B} (rows : list A) (cols : list B) f :
  chi2_tab cols rows (fun c a => f a c) = chi2_tab rows cols f.
Proof.
  unfold chi2_tab.
  rewrite (existsb_swap (fun c a => (f a c <? 0)%Z) cols rows).
  destruct (existsb _ rows); [reflexivity|].
  rewrite (existsb_swap
             (fun c a => feqb (tab_expected cols rows (fun c a => f a c) c a)
                              (Fin 0)) cols rows).
  rewrite (existsb_ext_in _
             (fun a => existsb (fun c => feqb (tab_expected rows cols f a c)
                                              (Fin 0)) cols))
    by (intros a _; apply existsb_ext_in; intros c _;
        rewrite tab_expected_swap; reflexivity).
  destruct (existsb _ rows); [reflexivity|].
  rewrite (dof_of_comm (length cols) (length rows)).
  destruct (dof_of (length rows) (length cols) =? 0)%Z; [reflexivity|].
  f_equal.
  rewrite (fsum_swap (fun c a => pearson_term
                        (tab_observed cols rows (fun c a => f a c) c a)
                        (tab_expected cols rows (fun c a => f a c) c a))
                     cols rows).
  f_equal. apply map_ext. intros a. f_equal. apply map_ext. intros c.
  unfold tab_observed. rewrite (dof_of_comm (length cols) (length rows)).
  rewrite (tab_expected_swap rows cols f a c). reflexivity.
Qed.

Lemma cramers_v_unfold m :
  cramers_v m
  = (chi2 <- chi2_contingency m ;;
     Ok (v_of_chi2 chi2 (total m) (Z.of_nat (fst (shape m)))
                   (Z.of_nat (snd (shape m))))).
Proof. reflexivity. Qed.

Lemma py_min_comm_fin x y : py_min (Fin x) (Fin y) = py_min (Fin y) (Fin x).
Proof.
  unfold py_min, fltb. repeat real_case; try reflexivity. f_equal. lra.
Qed.

Lemma v_of_chi2_swap chi2 n r k :
  (n = 1%Z -> r = k) ->
  v_of_chi2 chi2 n r k = v_of_chi2 chi2 n k r.
Proof.
  intros H. unfold v_of_chi2.
  replace ((k - 1) * (r - 1))%Z with ((r - 1) * (k - 1))%Z by ring.
  f_equal. f_equal.
  destruct (Z.eq_dec n 1) as [E|N].
  - rewrite (H E). reflexivity.
  - assert (IZR (n - 1) <> 0%R) by (apply not_0_IZR; lia).
    unfold fdiv, of_Z.
    destruct (Req_dec_T (IZR (n - 1)) 0); [contradiction|].
    cbn [fsub]. apply py_min_comm_fin.
Qed.

Lemma existsb_false {A} (p : A -> bool) l :
  existsb p l = false -> forall x, In x l -> p x = false.
Proof.
  intros H x Hx. destruct (p x) eqn:E; [|reflexivity].
  assert (existsb p l = true) by (apply existsb_exists; eauto). congruence.
Qed.

Lemma zsum_ge_length l : (forall x, In x l -> (1 <= x)%Z) ->
  (Z.of_nat (length l) <= zsum l)%Z.
Proof.
  unfold zsum. induction l as [|x l IH]; intros H;
    simpl fold_right; simpl length; [lia|].
  assert (1 <= x)%Z by (apply H; left; reflexivity).
  assert (Z.of_nat (length l) <= fold_right Z.add 0 l)%Z
    by (apply IH; intros; apply H; right; assumption).
  lia.
Qed.

Lemma zsum_nonneg l : (forall x, In x l -> (0 <= x)%Z) -> (0 <= zsum l)%Z.
Proof.
  unfold zsum. induction l as [|x l IH]; intros H; simpl; [lia|].
  assert (0 <= x)%Z by (apply H; left; reflexivity).
  assert (0 <= fold_right Z.add 0 l)%Z
    by (apply IH; intros; apply H; right; assumption).
  lia.
Qed.

Section TabChecks.
Context {A B : Type} (rows : list A) (cols : list B) (f : A -> B -> Z).
Hypothesis rows_nonempty : rows <> [].
Hypothesis cols_nonempty : cols <> [].
Variable chi2 : float.
Hypothesis chi2_ok : chi2_tab rows cols f = Ok chi2.

Lemma tab_nonneg : forall a c, In a rows -> In c cols -> (0 <= f a c)%Z.
Proof.
  intros a c Ha Hc. unfold chi2_tab in chi2_ok.
  destruct (existsb _ rows) eqn:E in chi2_ok; [discriminate|].
  pose proof (existsb_false _ _ E a Ha) as E1. cbv beta in E1.
  pose proof (existsb_false _ _ E1 c Hc) as E2. cbv beta in E2.
  apply Z.ltb_ge in E2. assumption.
Qed.

Lemma tab_expected_nonzero :
  forall a c, In a rows -> In c cols ->
              feqb (tab_expected rows cols f a c) (Fin 0) = false.
Proof.
  intros a c Ha Hc. unfold chi2_tab in chi2_ok.
  destruct (existsb _ rows) in chi2_ok; [discriminate|].
  destruct (existsb _ rows) eqn:E in chi2_ok; [discriminate|].
  pose proof (existsb_false _ _ E a Ha) as E1. cbv beta in E1.
  exact (existsb_false _ _ E1 c Hc).
Qed.

Lemma tab_row_nonneg a : In a rows -> (0 <= tab_row cols f a)%Z.
Proof.
  intros Ha. apply zsum_nonneg. intros x Hx. apply in_map_iff in Hx.
  destruct Hx as [c [<- Hc]]. apply tab_nonneg; assumption.
Qed.

Lemma tab_col_nonneg c : In c cols -> (0 <= tab_col rows f c)%Z.
Proof.
  intros Hc. apply zsum_nonneg. intros x Hx. apply in_map_iff in Hx.
  destruct Hx as [a [<- Ha]]. apply tab_nonneg; assumption.
Qed.

Lemma tab_margins_nonzero a c :
  tab_total rows cols f = 1%Z -> In a rows -> In c cols ->
  (1 <= tab_row cols f a)%Z /\ (1 <= tab_col rows f c)%Z.
Proof.
  intros Hn Ha Hc.
  pose proof (tab_expected_nonzero a c Ha Hc) as E.
  pose proof (tab_row_nonneg a Ha). pose proof (tab_col_nonneg c Hc).
  unfold tab_expected in E. rewrite Hn in E.
  assert (tab_row cols f a <> 0 /\ tab_col rows f c <> 0)%Z as [? ?];
    [|lia].
  split; intros Z0; rewrite Z0 in E; unfold of_Z, fmul, fdiv, feqb in E;
    repeat (revert E; real_case; intros E); try discriminate;
    apply n0; lra.
Qed.

Lemma tab_total_one_shape :
  tab_total rows cols f = 1%Z -> length rows = 1%nat /\ length cols = 1%nat.
Proof.
  intros Hn.
  assert (Ha0 : exists a0, In a0 rows /\ (1 <= length rows)%nat).
  { clear - rows_nonempty. destruct rows; [contradiction|].
    eexists; split; [left; reflexivity | simpl; lia]. }
  assert (Hc0 : exists c0, In c0 cols /\ (1 <= length cols)%nat).
  { clear - cols_nonempty. destruct cols; [contradiction|].
    eexists; split; [left; reflexivity | simpl; lia]. }
  destruct Ha0 as (a0 & Ha0 & Hlr), Hc0 as (c0 & Hc0 & Hlc).
  assert (Z.of_nat (length rows) <= 1)%Z.
  { rewrite <- Hn. unfold tab_total.
    rewrite <- (length_map (tab_row cols f) rows).
    apply zsum_ge_length. intros x Hx. apply in_map_iff in Hx.
    destruct Hx as [a [<- Ha]].
    apply (tab_margins_nonzero a c0 Hn Ha Hc0). }
  assert (Z.of_nat (length cols) <= 1)%Z.
  { rewrite <- Hn. rewrite <- tab_total_swap. unfold tab_total.
    rewrite <- (length_map (tab_row rows (fun c a => f a c)) cols).
    apply zsum_ge_length. intros x Hx. apply in_map_iff in Hx.
    destruct Hx as [c [<- Hc]].
    apply (tab_margins_nonzero a0 c Hn Ha0 Hc). }
  lia.
Qed.
End TabChecks.

Lemma cramers_v_tab_swap {A B} (rows : list A) (cols : list B) f :
  rows <> [] -> cols <> [] ->
  cramers_v (tab cols rows (fun c a => f a c)) = cramers_v (tab rows cols f).
Proof.
  intros Hr Hc. rewrite !cramers_v_unfold.
  rewrite !chi2_contingency_tab, !shape_tab, !total_tab by assumption.
  rewrite chi2_tab_swap, tab_total_swap. cbn [fst snd].
  destruct (chi2_tab rows cols f) as [chi2|e] eqn:E; cbn [bind]; [|reflexivity].
  f_equal. apply v_of_chi2_swap. intros Hn.
  destruct (tab_total_one_shape rows cols f Hr Hc chi2 E Hn) as [-> ->].
  reflexivity.
Qed.

(** *** [pd.crosstab] as a tabulated matrix *)

Lemma crosstab_tab a b :
  crosstab a b
  = tab (unique (map fst (pairs_of a b))) (unique (map snd (pairs_of a b)))
        (pair_count (pairs_of a b)).
Proof. reflexivity. Qed.

Lemma combine_swap (l1 l2 : list cell) :
  combine l2 l1 = map swap_pair (combine l1 l2).
Proof.
  revert l2. induction l1 as [|x l1 IH]; intros [|y l2]; simpl;
    try reflexivity.
  rewrite IH. reflexivity.
Qed.

Lemma filter_map_comm {A B} (p : B -> bool) (g : A -> B) l :
  filter p (map g l) = map g (filter (fun x => p (g x)) l).
Proof.
  induction l as [|x l IH]; simpl; [reflexivity|].
  destruct (p (g x)); simpl; rewrite IH; reflexivity.
Qed.

Lemma pairs_of_swap a b : pairs_of b a = map swap_pair (pairs_of a b).
Proof.
  unfold pairs_of. rewrite combine_swap, filter_map_comm.
  f_equal. apply filter_ext. intros [x y]. unfold both_present. simpl.
  apply andb_comm.
Qed.

Lemma pair_count_swap pairs r c :
  pair_count (map swap_pair pairs) c r = pair_count pairs r c.
Proof.
  unfold pair_count. rewrite filter_map_comm, length_map.
  do 2 f_equal. apply filter_ext. intros [x y]. simpl. apply andb_comm.
Qed.

Lemma insert_sorted_length x l : length (insert_sorted x l) = S (length l).
Proof.
  induction l as [|y l IH]; simpl; [reflexivity|].
  destruct (cell_leb x y); simpl; congruence.
Qed.

Lemma sort_cells_length l : length (sort_cells l) = length l.
Proof.
  unfold sort_cells. induction l as [|x l IH]; simpl; [reflexivity|].
  rewrite insert_sorted_length. congruence.
Qed.

Lemma unique_nil_iff l : unique l = [] <-> l = [].
Proof.
  unfold unique. split.
  - intros H. destruct l as [|x l]; [reflexivity|].
    assert (Hin : In x (nodup cell_eq_dec (x :: l)))
      by (apply nodup_In; left; reflexivity).
    apply (f_equal (@length cell)) in H. rewrite sort_cells_length in H.
    destruct (nodup cell_eq_dec (x :: l)); [destruct Hin | discriminate].
  - intros ->. reflexivity.
Qed.

Lemma crosstab_swap a b : cramers_v (crosstab b a) = cramers_v (crosstab a b).
Proof.
  rewrite !crosstab_tab, pairs_of_swap.
  rewrite !map_map. cbn [swap_pair fst snd].
  change (map (fun x => snd x) (pairs_of a b)) with (map snd (pairs_of a b)).
  change (map (fun x => fst x) (pairs_of a b)) with (map fst (pairs_of a b)).
  destruct (pairs_of a b) as [|p ps] eqn:E.
  - reflexivity.
  - rewrite <- E.
    rewrite <- (cramers_v_tab_swap
                  (unique (map fst (pairs_of a b)))
                  (unique (map snd (pairs_of a b)))
                  (pair_count (pairs_of a b))).
    + f_equal. unfold tab. apply map_ext. intros c. apply map_ext. intros r.
      apply pair_count_swap.
    + rewrite unique_nil_iff, E. discriminate.
    + rewrite unique_nil_iff, E. discriminate.
Qed.

(** *** The matrix built by the loops of [cramer_matrix] *)

Lemma mem_In x l : mem x l = true <-> In x l.
Proof.
  unfold mem. rewrite existsb_exists. split.
  - intros [y [Hy E]]. apply String.eqb_eq in E. subst. assumption.
  - intros H. exists x. split; [assumption|apply String.eqb_refl].
Qed.

Lemma cramers_v_of_swap data v1 v2 x :
  cramers_v_of data v1 v2 = Ok x -> cramers_v_of data v2 v1 = Ok x.
Proof.
  unfold cramers_v_of.
  destruct (getcol data v1) as [a|e]; cbn [bind]; [|discriminate].
  destruct (getcol data v2) as [b|e]; cbn [bind]; [|discriminate].
  rewrite (crosstab_swap a b). auto.
Qed.

Lemma loc_set_filled vars g r c x :
  loc_set (filled vars g) r c x
  = filled vars (fun r' c' =>
                   if String.eqb r' r && String.eqb c' c then x else g r' c').
Proof.
  unfold loc_set, filled. rewrite map_map. apply map_ext. intros r'.
  cbn [fst snd]. destruct (String.eqb r' r); cbn [andb].
  - f_equal. rewrite map_map. apply map_ext. intros c'. cbn [fst].
    destruct (String.eqb c' c); reflexivity.
  - reflexivity.
Qed.

Lemma cramer_inner_filled data vars var1 cs :
  forall g m',
  cramer_inner data var1 cs (filled vars g) = Ok m' ->
  (forall c, In c cs ->
        cramers_v_of data var1 c
        = Ok (value_or_nan (cramers_v_of data var1 c)))
  /\ exists g',
      m' = filled vars g'
      /\ forall r c, g' r c
                     = if String.eqb r var1 && mem c cs
                       then value_or_nan (cramers_v_of data var1 c)
                       else g r c.
Proof.
  induction cs as [|c0 cs IH]; intros g m' H.
  - cbn in H. injection H as <-. split; [intros c []|].
    exists g. split; [reflexivity|]. intros r c.
    cbn. rewrite andb_false_r. reflexivity.
  - cbn [cramer_inner] in H.
    assert (Hv : exists v, cramers_v_of data var1 c0 = Ok v
                 /\ cramer_inner data var1 cs
                      (loc_set (filled vars g) var1 c0 v) = Ok m').
    { unfold cramers_v_of.
      destruct (getcol data var1) as [a|e]; cbn [bind] in *; [|discriminate].
      destruct (getcol data c0) as [b|e]; cbn [bind] in *; [|discriminate].
      destruct (cramers_v (crosstab a b)) as [v|e]; cbn [bind] in *;
        [|discriminate].
      eauto. }
    destruct Hv as (v & Hv & Hrest).
    rewrite loc_set_filled in Hrest.
    destruct (IH _ _ Hrest) as (Hall & g' & -> & Hg').
    split.
    + intros c [<-|Hc]; [rewrite Hv; reflexivity | auto].
    + exists g'. split; [reflexivity|]. intros r c. rewrite Hg'.
      cbn [mem existsb]. fold (mem c cs).
      destruct (String.eqb r var1) eqn:Er; cbn [andb]; [|reflexivity].
      destruct (mem c cs); [rewrite orb_true_r; reflexivity|].
      rewrite orb_false_r.
      destruct (String.eqb_spec c c0) as [->|N]; [rewrite Hv; reflexivity|].
      reflexivity.
Qed.

Lemma cramer_outer_filled data vars vs1 :
  forall g m',
  cramer_outer data vs1 vars (filled vars g) = Ok m' ->
  (forall r c, In r vs1 -> In c vars ->
        cramers_v_of data r c = Ok (value_or_nan (cramers_v_of data r c)))
  /\ exists g',
      m' = filled vars g'
      /\ forall r c, g' r c
                     = if mem r vs1 && mem c vars
                       then value_or_nan (cramers_v_of data r c)
                       else g r c.
Proof.
  induction vs1 as [|v vs1 IH]; intros g m' H.
  - cbn in H. injection H as <-. split; [intros r c []|].
    exists g. split; [reflexivity|]. intros r c. reflexivity.
  - cbn [cramer_outer] in H.
    destruct (cramer_inner data v vars (filled vars g)) as [m1|e] eqn:E1;
      cbn [bind] in H; [|discriminate].
    destruct (cramer_inner_filled _ _ _ _ _ _ E1) as (Hall1 & g1 & -> & Hg1).
    destruct (IH _ _ H) as (Hall & g' & -> & Hg').
    split.
    + intros r c [<-|Hr] Hc; auto.
    + exists g'. split; [reflexivity|]. intros r c. rewrite Hg', Hg1.
      cbn [mem existsb]. fold (mem r vs1).
      destruct (String.eqb r v) eqn:Erv, (mem r vs1), (mem c vars);
        try reflexivity.
      all: apply String.eqb_eq in Erv; subst r; reflexivity.
Qed.

Lemma filled_ext_in vars g h :
  (forall r c, In r vars -> In c vars -> g r c = h r c) ->
  filled vars g = filled vars h.
Proof.
  intros H. unfold filled. apply map_ext_in. intros r Hr. f_equal.
  apply map_ext_in. intros c Hc. f_equal. auto.
Qed.

(** What a successful call returns. *)
Lemma cramer_matrix_value data vars m :
  cramer_matrix data vars = Ok m ->
  m = filled vars (fun r c => value_or_nan (cramers_v_of data r c))
  /\ forall r c, In r vars -> In c vars ->
       cramers_v_of data r c = Ok (value_or_nan (cramers_v_of data r c)).
Proof.
  unfold cramer_matrix. intros H.
  change (empty_matrix vars) with (filled vars (fun _ _ => NaN)) in H.
  destruct (cramer_outer_filled _ _ _ _ _ H) as (Hall & g' & -> & Hg').
  split; [|assumption].
  apply filled_ext_in. intros r c Hr Hc. rewrite Hg'.
  apply mem_In in Hr, Hc. rewrite Hr, Hc. reflexivity.
Qed.

Lemma mapi_nth {A B} (f : nat -> A -> B) (h : A -> B) l :
  (forall j x, nth_error l j = Some x -> f j x = h x) ->
  mapi f l = map h l.
Proof.
  unfold mapi.
  assert (G : forall s,
             (forall j x, nth_error l j = Some x -> f (s + j)%nat x = h x) ->
             map (fun p => f (fst p) (snd p)) (combine (seq s (length l)) l)
             = map h l).
  { induction l as [|x l IH]; intros s H; simpl; [reflexivity|].
    f_equal.
    - rewrite <- (H 0%nat x eq_refl). f_equal. lia.
    - apply IH. intros j y Hj. rewrite <- (H (S j) y Hj). f_equal. lia. }
  intros H. apply (G 0%nat). exact H.
Qed.

Lemma filled_columns vars g :
  match filled vars g with
  | [] => []
  | row :: _ => map fst (snd row)
  end = vars.
Proof.
  destruct vars as [|v vs]; [reflexivity|].
  simpl. f_equal. rewrite map_map. simpl. apply map_id.
Qed.

Lemma transpose_filled vars g :
  transpose (filled vars g) = filled vars (fun r c => g c r).
Proof.
  unfold transpose. rewrite filled_columns.
  apply mapi_nth. intros j c Hj.
  f_equal. unfold filled. rewrite map_map. apply map_ext. intros r.
  cbn [fst snd]. f_equal.
  assert (Hn : nth j (map (fun c0 => (c0, g r c0)) vars) (c, NaN)
               = (c, g r c)).
  { apply nth_error_nth. rewrite nth_error_map, Hj. reflexivity. }
  rewrite Hn. reflexivity.
Qed.

(** C5.  The matrix returned by [cramer_matrix] equals its own transpose
    (for every dataset and every list of variables, in particular those of
    two or more). *)
Theorem cramer_matrix_symmetric data categorical_vars m :
  cramer_matrix data categorical_vars = Ok m ->
  transpose m = m.
Proof.
  intros H. destruct (cramer_matrix_value _ _ _ H) as [-> Hall].
  rewrite transpose_filled. apply filled_ext_in. intros r c Hr Hc.
  pose proof (Hall c r Hc Hr) as Hcr.
  apply cramers_v_of_swap in Hcr.
  rewrite Hcr. reflexivity.
Qed.

Lemma pearson_term_Fin o e :
  e <> 0%R -> pearson_term (Fin o) (Fin e) = Fin (pearsonR o e).
Proof.
  intros He. unfold pearson_term, pearsonR. cbn [fsub fmul].
  unfold fdiv. destruct (Req_dec_T e 0); [contradiction|]. reflexivity.
Qed.

Lemma yates_adjust_Fin o e :
  exists o', yates_adjust (Fin o) (Fin e) = Fin o'
             /\ ((o' - e) * (o' - e)
                 = (Rabs (o - e) - Rmin (1 / 2) (Rabs (o - e)))
                   * (Rabs (o - e) - Rmin (1 / 2) (Rabs (o - e))))%R.
Proof.
  unfold yates_adjust. cbn [fsub fabs].
  assert (Hm : minimum (Fin (1 / 2)) (Fin (Rabs (e - o)))
               = Fin (Rmin (1 / 2) (Rabs (e - o)))).
  { unfold minimum, fltb, Rmin.
    destruct (Rlt_dec (Rabs (e - o)) (1 / 2)), (Rle_dec (1 / 2) (Rabs (e - o)));
      try reflexivity; lra. }
  rewrite Hm. rewrite (Rabs_minus_sym e o).
  unfold fsign, sgn.
  destruct (Rlt_dec 0 (e - o)); [|destruct (Rlt_dec (e - o) 0)];
    cbn [fmul fadd]; eexists; (split; [reflexivity|]).
  - rewrite (Rabs_left (o - e)) by lra. ring.
  - rewrite (Rabs_right (o - e)) by lra. ring.
  - assert (o - e = 0)%R by lra.
    replace (o - e)%R with 0%R by lra. rewrite Rabs_R0.
    unfold Rmin. destruct (Rle_dec (1 / 2) 0); [lra|]. 
    replace o with e by lra. ring.
Qed.

Lemma yates_term_Fin o e :
  e <> 0%R ->
  pearson_term (yates_adjust (Fin o) (Fin e)) (Fin e) = Fin (yatesR o e).
Proof.
  intros He. destruct (yates_adjust_Fin o e) as (o' & -> & Ho').
  rewrite pearson_term_Fin by assumption. unfold pearsonR, yatesR.
  rewrite Ho'. reflexivity.
Qed.

Lemma rsum_map_ext_in {A} (g h : A -> R) l :
  (forall x, In x l -> g x = h x) -> rsum (map g l) = rsum (map h l).
Proof. intros H. f_equal. apply map_ext_in. assumption. Qed.

Lemma IZR_zsum l : IZR (zsum l) = rsum (map IZR l).
Proof.
  unfold zsum, rsum. induction l as [|x l IH]; simpl; [reflexivity|].
  rewrite plus_IZR, IH. reflexivity.
Qed.

Lemma zsum_pos l : l <> [] -> (forall x, In x l -> (0 < x)%Z) -> (0 < zsum l)%Z.
Proof.
  intros Hne H. destruct l as [|x l]; [contradiction|].
  assert (0 < x)%Z by (apply H; left; reflexivity).
  assert (0 <= zsum l)%Z.
  { apply zsum_nonneg. intros y Hy. apply Z.lt_le_incl. apply H.
    right. assumption. }
  unfold zsum in *. simpl. lia.
Qed.

Section WellFormedTab.
Context {A B : Type} (rows : list A) (cols : list B) (f : A -> B -> Z).
Hypothesis rows_nonempty : rows <> [].
Hypothesis cols_nonempty : cols <> [].
Hypothesis nonneg : forall a c, In a rows -> In c cols -> (0 <= f a c)%Z.
Hypothesis row_pos : forall a, In a rows -> (0 < tab_row cols f a)%Z.
Hypothesis col_pos : forall c, In c cols -> (0 < tab_col rows f c)%Z.

Let n := tab_total rows cols f.

Lemma total_pos : (0 < n)%Z.
Proof.
  unfold n, tab_total. apply zsum_pos.
  - clear - rows_nonempty. destruct rows; [contradiction|discriminate].
  - intros x Hx. apply in_map_iff in Hx. destruct Hx as [a [<- Ha]]. auto.
Qed.

Lemma total_ge_rows : (Z.of_nat (length rows) <= n)%Z.
Proof.
  unfold n, tab_total. rewrite <- (length_map (tab_row cols f) rows).
  apply zsum_ge_length. intros x Hx. apply in_map_iff in Hx.
  destruct Hx as [a [<- Ha]]. specialize (row_pos a Ha). lia.
Qed.

Lemma total_ge_cols : (Z.of_nat (length cols) <= n)%Z.
Proof.
  unfold n. rewrite <- tab_total_swap. unfold tab_total.
  rewrite <- (length_map (tab_row rows (fun c a => f a c)) cols).
  apply zsum_ge_length. intros x Hx. apply in_map_iff in Hx.
  destruct Hx as [c [<- Hc]]. specialize (col_pos c Hc).
  unfold tab_col in col_pos. unfold tab_row. lia.
Qed.

Lemma expectedR_pos a c :
  In a rows -> In c cols -> (0 < expectedR rows cols f a c)%R.
Proof.
  intros Ha Hc. unfold expectedR.
  apply Rdiv_lt_0_compat.
  - apply Rmult_lt_0_compat; apply IZR_lt; auto.
  - apply IZR_lt. apply total_pos.
Qed.

Lemma tab_expected_Fin a c :
  tab_expected rows cols f a c = Fin (expectedR rows cols f a c).
Proof.
  unfold tab_expected, expectedR, of_Z. cbn [fmul]. unfold fdiv.
  fold n. pose proof total_pos.
  destruct (Req_dec_T (IZR n) 0) as [E|_]; [|reflexivity].
  apply eq_IZR in E. lia.
Qed.

Lemma fsum_rows_Fin (g : A -> B -> float) (h : A -> B -> R) :
  (forall a c, In a rows -> In c cols -> g a c = Fin (h a c)) ->
  fsum (map (fun a => fsum (map (fun c => g a c) cols)) rows)
  = Fin (rsum (map (fun a => rsum (map (fun c => h a c) cols)) rows)).
Proof.
  intros H.
  rewrite <- (fsum_Fin (fun a => rsum (map (fun c => h a c) cols)) rows).
  f_equal. apply map_ext_in. intros a Ha.
  rewrite <- (fsum_Fin (fun c => h a c) cols).
  f_equal. apply map_ext_in. intros c Hc. auto.
Qed.

Lemma chi2_tab_wf : chi2_tab rows cols f = Ok (Fin (chi2R rows cols f)).
Proof.
  unfold chi2_tab, chi2R.
  assert (E1 : existsb (fun a => existsb (fun c => (f a c <? 0)%Z) cols) rows
               = false).
  { apply not_true_is_false. intros H. apply existsb_exists in H.
    destruct H as (a & Ha & H). apply existsb_exists in H.
    destruct H as (c & Hc & H). apply Z.ltb_lt in H.
    specialize (nonneg a c Ha Hc). lia. }
  rewrite E1.
  assert (E2 : existsb (fun a => existsb (fun c =>
                  feqb (tab_expected rows cols f a c) (Fin 0)) cols) rows
               = false).
  { apply not_true_is_false. intros H. apply existsb_exists in H.
    destruct H as (a & Ha & H). apply existsb_exists in H.
    destruct H as (c & Hc & H). rewrite tab_expected_Fin in H.
    pose proof (expectedR_pos a c Ha Hc). unfold feqb in H.
    destruct (Req_dec_T (expectedR rows cols f a c) 0); [lra|discriminate]. }
  rewrite E2.
  destruct (dof_of (length rows) (length cols) =? 0)%Z; [reflexivity|].
  f_equal. apply fsum_rows_Fin. intros a c Ha Hc.
  pose proof (expectedR_pos a c Ha Hc).
  unfold tab_observed, termR. rewrite tab_expected_Fin.
  destruct (dof_of (length rows) (length cols) =? 1)%Z.
  - apply yates_term_Fin. lra.
  - apply pearson_term_Fin. lra.
Qed.
End WellFormedTab.

(** *** From the statistic to V *)

Lemma v_of_chi2_formula x n r k :
  (2 <= n)%Z \/ (n = 1 /\ r = 1 /\ k = 1)%Z ->
  v_of_chi2 (Fin x) n r k = cramers_v_formula (Fin x) r k n.
Proof.
  intros [Hn | (-> & -> & ->)].
  - unfold v_of_chi2, cramers_v_formula, of_Z.
    assert (Hn1 : IZR (n - 1) <> 0%R) by (apply not_0_IZR; lia).
    assert (Hn0 : IZR n <> 0%R) by (apply not_0_IZR; lia).
    rewrite Z.pow_2_r, Z.pow_2_r, !mult_IZR. cbn [fmul].
    unfold fdiv.
    destruct (Req_dec_T (IZR (n - 1)) 0); [contradiction|].
    destruct (Req_dec_T (IZR n) 0); [contradiction|].
    cbn [fsub]. reflexivity.
  - unfold v_of_chi2, cramers_v_formula, of_Z.
    cbn [Z.sub Z.mul Z.pow Z.opp Z.add Z.pos_sub Z.pow_pos Pos.iter].
    cbn [fmul]. rewrite Rmult_0_l.
    assert (E : fdiv (Fin 0) (Fin 0) = NaN).
    { unfold fdiv. destruct (Req_dec_T 0 0); [|lra].
      rewrite sgn_zero. reflexivity. }
    rewrite E. cbn [fsub fadd fopp].
    destruct (fdiv (Fin x) (Fin 1)); reflexivity.
Qed.

Section WellFormedV.
Context {A B : Type} (rows : list A) (cols : list B) (f : A -> B -> Z).
Hypothesis rows_nonempty : rows <> [].
Hypothesis cols_nonempty : cols <> [].
Hypothesis nonneg : forall a c, In a rows -> In c cols -> (0 <= f a c)%Z.
Hypothesis row_pos : forall a, In a rows -> (0 < tab_row cols f a)%Z.
Hypothesis col_pos : forall c, In c cols -> (0 < tab_col rows f c)%Z.

Lemma cramers_v_tab_wf :
  cramers_v (tab rows cols f)
  = Ok (cramers_v_formula (Fin (chi2R rows cols f))
          (Z.of_nat (length rows)) (Z.of_nat (length cols))
          (tab_total rows cols f)).
Proof.
  rewrite cramers_v_unfold.
  rewrite chi2_contingency_tab, shape_tab, total_tab by assumption.
  rewrite chi2_tab_wf by assumption. cbn [bind fst snd]. f_equal.
  apply v_of_chi2_formula.
  pose proof (total_ge_rows rows cols f row_pos).
  pose proof (total_ge_cols rows cols f col_pos).
  assert (1 <= length rows)%nat
    by (clear - rows_nonempty; destruct rows; [contradiction|simpl; lia]).
  assert (1 <= length cols)%nat
    by (clear - cols_nonempty; destruct cols; [contradiction|simpl; lia]).
  lia.
Qed.

(** With one row or one column every count equals its expectation. *)
Lemma pearson_zero_dof0 :
  dof_of (length rows) (length cols) = 0%Z ->
  rsum (map (fun a => rsum (map (fun c =>
          pearsonR (IZR (f a c)) (expectedR rows cols f a c)) cols)) rows)
  = 0%R.
Proof.
  intros Hdof.
  pose proof (total_pos rows cols f rows_nonempty row_pos) as Hn.
  assert (Hn' : IZR (tab_total rows cols f) <> 0%R)
    by (apply not_0_IZR; lia).
  assert (Hz : forall a c, In a rows -> In c cols ->
             pearsonR (IZR (f a c)) (expectedR rows cols f a c) = 0%R).
  { intros a c Ha Hc.
    assert (E : expectedR rows cols f a c = IZR (f a c)).
    { unfold expectedR.
      assert (Hcases : length rows = 1%nat \/ length cols = 1%nat).
      { unfold dof_of in Hdof.
        assert (1 <= length rows)%nat
          by (clear - rows_nonempty; destruct rows; [contradiction|simpl; lia]).
        assert (1 <= length cols)%nat
          by (clear - cols_nonempty; destruct cols; [contradiction|simpl; lia]).
        nia. }
      destruct Hcases as [H1 | H1].
      - assert (Hr : tab_total rows cols f = tab_row cols f a
                     /\ tab_col rows f c = f a c).
        { clear - H1 Ha. unfold tab_total, tab_col.
          destruct rows as [|a0 [|a1 rs]]; try discriminate.
          destruct Ha as [<-|[]]. unfold zsum. simpl. lia. }
        destruct Hr as [Hr1 Hr2]. rewrite Hr1, Hr2. rewrite Hr1 in Hn'.
        field. assumption.
      - assert (Hr : tab_total rows cols f = tab_col rows f c
                     /\ tab_row cols f a = f a c).
        { rewrite <- tab_total_swap. clear - H1 Hc.
          unfold tab_total, tab_col, tab_row.
          destruct cols as [|c0 [|c1 cs]]; try discriminate.
          destruct Hc as [<-|[]]. unfold zsum. simpl. lia. }
        destruct Hr as [Hr1 Hr2]. rewrite Hr1, Hr2. rewrite Hr1 in Hn'.
        field. assumption. }
    rewrite E. unfold pearsonR. unfold Rdiv. ring. }
  assert (Hrow : forall a, In a rows ->
             rsum (map (fun c => pearsonR (IZR (f a c))
                                  (expectedR rows cols f a c)) cols) = 0%R).
  { intros a Ha.
    rewrite (rsum_map_ext_in _ (fun _ => 0%R)) by (intros; auto).
    clear. unfold rsum. induction cols; simpl; lra. }
  rewrite (rsum_map_ext_in _ (fun _ => 0%R)) by (intros; auto).
  clear. unfold rsum. induction rows; simpl; lra.
Qed.
End WellFormedV.

(* ================================================================= *)
(** ** [cramers_v] against the formula of the specification *)

Lemma rectangular_tab m :
  rectangular m ->
  m = tab (seq 0 (fst (shape m))) (seq 0 (snd (shape m))) (cell_at m).
Proof.
  intros Hrect. unfold tab. cbn [shape fst].
  apply nth_ext with (d := []) (d' := []).
  - rewrite length_map, length_seq. reflexivity.
  - intros i Hi.
    set (F := fun a => map (cell_at m a) (seq 0 (snd (shape m)))).
    assert (E : nth i (map F (seq 0 (length m))) [] = F i).
    { rewrite (nth_indep (map F (seq 0 (length m))) [] (F 0%nat))
        by (rewrite length_map, length_seq; assumption).
      rewrite (map_nth F). rewrite seq_nth by assumption. reflexivity. }
    rewrite E. unfold F.
    unfold rectangular in Hrect. rewrite Forall_forall in Hrect.
    assert (Hlen : length (nth i m []) = snd (shape m))
      by (apply Hrect; apply nth_In; assumption).
    rewrite <- Hlen. unfold cell_at. symmetry. apply map_nth_seq.
Qed.

Lemma seq_nonempty n : n <> 0%nat -> seq 0 n <> [].
Proof. destruct n; [contradiction|discriminate]. Qed.

Lemma minimum_Fin x y : minimum (Fin x) (Fin y) = Fin (Rmin x y).
Proof.
  unfold minimum, fltb, Rmin.
  destruct (Rlt_dec y x), (Rle_dec x y); try reflexivity; lra.
Qed.

Section SpecStatistic.
Variable m : list (list Z).
Hypothesis wf : well_formed_table m.

Let r := fst (shape m).
Let k := snd (shape m).
Let rows := seq 0 r.
Let cols := seq 0 k.

Lemma wf_rows_nonempty : rows <> [].
Proof.
  apply seq_nonempty. unfold r. cbn. destruct wf as (Hm & _).
  destruct m; [contradiction|discriminate].
Qed.

Lemma wf_cols_nonempty : cols <> [].
Proof. apply seq_nonempty. apply wf. Qed.

Lemma wf_is_tab : m = tab rows cols (cell_at m).
Proof. apply rectangular_tab. apply wf. Qed.

Lemma wf_nonneg i j : In i rows -> In j cols -> (0 <= cell_at m i j)%Z.
Proof.
  intros Hi Hj. apply in_seq in Hi, Hj.
  destruct wf as (_ & _ & _ & H & _). apply H; lia.
Qed.

Lemma wf_row_pos i : In i rows -> (0 < tab_row cols (cell_at m) i)%Z.
Proof.
  intros Hi. apply in_seq in Hi.
  destruct wf as (_ & _ & _ & _ & H & _). apply (H i). lia.
Qed.

Lemma wf_col_pos j : In j cols -> (0 < tab_col rows (cell_at m) j)%Z.
Proof.
  intros Hj. apply in_seq in Hj.
  destruct wf as (_ & _ & _ & _ & _ & H). apply (H j). lia.
Qed.

Lemma wf_total : tab_total rows cols (cell_at m) = total m.
Proof.
  rewrite <- (total_tab rows cols (cell_at m)).
  rewrite <- wf_is_tab. reflexivity.
Qed.

Lemma expected_at_Fin i j :
  expected_at m i j = Fin (expectedR rows cols (cell_at m) i j).
Proof.
  unfold expected_at, expectedR, of_Z. rewrite wf_total, mult_IZR.
  pose proof (total_pos rows cols (cell_at m) wf_rows_nonempty wf_row_pos)
    as Hn.
  rewrite wf_total in Hn.
  unfold fdiv. destruct (Req_dec_T (IZR (total m)) 0) as [E|_].
  - apply eq_IZR in E. lia.
  - reflexivity.
Qed.

Lemma pearson_chi2_wf :
  pearson_chi2 m
  = Fin (rsum (map (fun i => rsum (map (fun j =>
           pearsonR (IZR (cell_at m i j))
                    (expectedR rows cols (cell_at m) i j)) cols)) rows)).
Proof.
  unfold pearson_chi2. fold r k rows cols.
  apply fsum_rows_Fin. intros i j Hi Hj. cbv zeta.
  rewrite expected_at_Fin.
  pose proof (expectedR_pos rows cols (cell_at m) wf_rows_nonempty
                wf_row_pos wf_col_pos i j Hi Hj).
  unfold of_Z. cbn [fsub fmul]. unfold fdiv, pearsonR.
  destruct (Req_dec_T _ 0); [lra|reflexivity].
Qed.

Lemma yates_chi2_wf :
  yates_chi2 m
  = Fin (rsum (map (fun i => rsum (map (fun j =>
           yatesR (IZR (cell_at m i j))
                  (expectedR rows cols (cell_at m) i j)) cols)) rows)).
Proof.
  unfold yates_chi2. fold r k rows cols.
  apply fsum_rows_Fin. intros i j Hi Hj. cbv zeta.
  rewrite expected_at_Fin.
  pose proof (expectedR_pos rows cols (cell_at m) wf_rows_nonempty
                wf_row_pos wf_col_pos i j Hi Hj).
  unfold of_Z. cbn [fsub fabs]. rewrite minimum_Fin. cbn [fsub fmul].
  unfold fdiv, yatesR.
  destruct (Req_dec_T _ 0); [lra|reflexivity].
Qed.

Lemma cramers_v_formula_wf :
  cramers_v m
  = Ok (cramers_v_formula
          (if (dof_of r k =? 1)%Z then yates_chi2 m else pearson_chi2 m)
          (Z.of_nat r) (Z.of_nat k) (total m)).
Proof.
  transitivity (cramers_v (tab rows cols (cell_at m)));
    [f_equal; apply wf_is_tab|].
  rewrite (cramers_v_tab_wf rows cols (cell_at m) wf_rows_nonempty
             wf_cols_nonempty wf_nonneg wf_row_pos wf_col_pos).
  assert (Hlr : length rows = r) by apply length_seq.
  assert (Hlc : length cols = k) by apply length_seq.
  rewrite wf_total, Hlr, Hlc.
  do 2 f_equal. unfold chi2R, termR. rewrite Hlr, Hlc.
  destruct (dof_of r k =? 0)%Z eqn:E0.
  - apply Z.eqb_eq in E0. rewrite E0. cbn [Z.eqb].
    rewrite pearson_chi2_wf. f_equal. symmetry.
    apply (pearson_zero_dof0 rows cols (cell_at m) wf_rows_nonempty
             wf_cols_nonempty wf_row_pos).
    rewrite Hlr, Hlc. assumption.
  - destruct (dof_of r k =? 1)%Z.
    + rewrite yates_chi2_wf. reflexivity.
    + rewrite pearson_chi2_wf. reflexivity.
Qed.
End SpecStatistic.

Lemma diag2_wf : well_formed_table diag2.
Proof.
  unfold well_formed_table, rectangular. cbn [diag2 shape fst snd length].
  repeat split; try discriminate.
  - repeat constructor.
  - intros [|[|i]] [|[|j]] Hi Hj; try lia; vm_compute; discriminate.
  - intros [|[|i]] Hi; try lia; reflexivity.
  - intros [|[|j]] Hj; try lia; reflexivity.
Qed.

Lemma expected_diag2 i j :
  (i < 2)%nat -> (j < 2)%nat -> expected_at diag2 i j = Fin 1.
Proof.
  intros Hi Hj.
  assert (E : expected_at diag2 i j = fdiv (of_Z 4) (of_Z 4)).
  { destruct i as [|[|i]], j as [|[|j]]; try lia; reflexivity. }
  rewrite E. float_compute. f_equal. lra.
Qed.

Lemma pearson_chi2_diag2 : pearson_chi2 diag2 = Fin 4.
Proof.
  unfold pearson_chi2. cbn [diag2 shape fst snd length seq map fsum fold_right].
  fold diag2. rewrite !expected_diag2 by lia.
  change (cell_at diag2 0 0) with 2%Z. change (cell_at diag2 0 1) with 0%Z.
  change (cell_at diag2 1 0) with 0%Z. change (cell_at diag2 1 1) with 2%Z.
  float_compute. f_equal. lra.
Qed.

Lemma yates_chi2_diag2 : yates_chi2 diag2 = Fin 1.
Proof.
  unfold yates_chi2. cbn [diag2 shape fst snd length seq map fsum fold_right].
  fold diag2. rewrite !expected_diag2 by lia.
  change (cell_at diag2 0 0) with 2%Z. change (cell_at diag2 0 1) with 0%Z.
  change (cell_at diag2 1 0) with 0%Z. change (cell_at diag2 1 1) with 2%Z.
  float_compute. f_equal. lra.
Qed.

Lemma formula_diag2_yates : cramers_v_formula (Fin 1) 2 2 4 = Fin 0.
Proof.
  unfold cramers_v_formula.
  change (2 - 1)%Z with 1%Z. change (4 - 1)%Z with 3%Z.
  float_compute.
  all: f_equal; replace (0 / (2 - 1 * 1 / 3 - 1))%R with 0%R by lra;
    apply sqrt_0.
Qed.

Lemma formula_diag2_pearson : cramers_v_formula (Fin 4) 2 2 4 = Fin 1.
Proof.
  unfold cramers_v_formula.
  change (2 - 1)%Z with 1%Z. change (4 - 1)%Z with 3%Z.
  float_compute. f_equal.
  replace ((4 / 4 - 1 * 1 / 3) / (2 - 1 * 1 / 3 - 1))%R with 1%R by lra.
  apply sqrt_1.
Qed.

(** Cramer's V of the 2x2 diagonal table under the code's statistic. *)
Lemma cramers_v_diag2 : cramers_v diag2 = Ok (Fin 0).
Proof.
  rewrite (cramers_v_formula_wf diag2 diag2_wf).
  change (dof_of (fst (shape diag2)) (snd (shape diag2)) =? 1)%Z with true.
  rewrite yates_chi2_diag2.
  change (Z.of_nat (fst (shape diag2))) with 2%Z.
  change (Z.of_nat (snd (shape diag2))) with 2%Z.
  change (total diag2) with 4%Z.
  rewrite formula_diag2_yates. reflexivity.
Qed.

Lemma cramers_v_spec_diag2 : cramers_v_spec diag2 = Fin 1.
Proof.
  unfold cramers_v_spec. rewrite pearson_chi2_diag2.
  apply formula_diag2_pearson.
Qed.

(** One degree of freedom: the 2x2 tables. *)
Lemma dof_of_one r k :
  r <> 0%nat -> k <> 0%nat ->
  (dof_of r k =? 1)%Z = Nat.eqb r 2 && Nat.eqb k 2.
Proof.
  intros Hr Hk. unfold dof_of. rewrite Nat2Z.inj_mul, Nat2Z.inj_add.
  assert (Hzr : (1 <= Z.of_nat r)%Z) by lia.
  assert (Hzk : (1 <= Z.of_nat k)%Z) by lia.
  destruct (Nat.eqb_spec r 2) as [->|Nr];
    [destruct (Nat.eqb_spec k 2) as [->|Nk]|]; cbn [andb].
  - reflexivity.
  - apply Z.eqb_neq. lia.
  - apply Z.eqb_neq.
    assert (Z.of_nat r = 1 \/ 3 <= Z.of_nat r)%Z as [E|E] by lia.
    + rewrite E. lia.
    + assert (Z.of_nat k = 1 \/ 2 <= Z.of_nat k)%Z as [F|F] by lia.
      * rewrite F. lia.
      * nia.
Qed.

(** C3, as stated, fails: on the table [[2,0],[0,2]] the code returns 0,
    the formula with the Pearson statistic gives 1. *)
Lemma cramers_v_yates_differs : cramers_v diag2 <> Ok (cramers_v_spec diag2).
Proof.
  rewrite cramers_v_diag2, cramers_v_spec_diag2.
  intros H. injection H as H. lra.
Qed.

(** C3 (amended).  For every contingency table of non-negative counts
    with r rows, k columns, total n and no empty row or column, [cramers_v]
    returns sqrt(phi2corr / min(kcorr-1, rcorr-1)) with phi2 = chi2/n,
    phi2corr = max(0, phi2 - (k-1)(r-1)/(n-1)), rcorr = r - (r-1)^2/(n-1),
    kcorr = k - (k-1)^2/(n-1), where chi2 is the Pearson chi-squared
    statistic of the table, except for 2x2 tables, where it is that
    statistic with Yates' continuity correction. *)
Theorem cramers_v_refines_formula m :
  well_formed_table m ->
  cramers_v m
  = Ok (cramers_v_formula
          (if Nat.eqb (fst (shape m)) 2 && Nat.eqb (snd (shape m)) 2
           then yates_chi2 m else pearson_chi2 m)
          (Z.of_nat (fst (shape m))) (Z.of_nat (snd (shape m))) (total m)).
Proof.
  intros Hwf. rewrite (cramers_v_formula_wf m Hwf).
  rewrite dof_of_one.
  - reflexivity.
  - destruct Hwf as (Hm & _). destruct m; [contradiction|discriminate].
  - apply Hwf.
Qed.

Lemma cramers_v_refines_formula_witness :
  cramers_v diag2
  = Ok (cramers_v_formula
          (if Nat.eqb (fst (shape diag2)) 2 && Nat.eqb (snd (shape diag2)) 2
           then yates_chi2 diag2 else pearson_chi2 diag2)
          (Z.of_nat (fst (shape diag2))) (Z.of_nat (snd (shape diag2)))
          (total diag2)).
Proof.
  apply (cramers_v_refines_formula diag2).
  unfold well_formed_table, rectangular. cbn [diag2 shape fst snd length].
  repeat split; try discriminate.
  - repeat constructor.
  - intros [|[|i]] [|[|j]] Hi Hj; try lia; vm_compute; discriminate.
  - intros [|[|i]] Hi; try lia; reflexivity.
  - intros [|[|j]] Hj; try lia; reflexivity.
Defined.

(* ================================================================= *)
(** ** Cramer's V of a column with itself *)

Lemma rsum_scale {K} (k : R) (u : K -> R) l :
  rsum (map (fun c => (k * u c)%R) l) = (k * rsum (map u l))%R.
Proof.
  unfold rsum. induction l as [|x l IH]; simpl; [ring|]. rewrite IH. ring.
Qed.

Lemma rsum_const_minus {K} (N : R) (u : K -> R) l :
  rsum (map (fun a => (N - u a)%R) l)
  = (INR (length l) * N - rsum (map u l))%R.
Proof.
  unfold rsum. induction l as [|x l IH]; [simpl; ring|].
  cbn [map fold_right]. rewrite IH. rewrite length_cons, S_INR. ring.
Qed.

Lemma rsum_single {K} (g h : K -> R) l a :
  NoDup l -> In a l ->
  (forall c, In c l -> c <> a -> g c = h c) ->
  rsum (map g l) = (rsum (map h l) + (g a - h a))%R.
Proof.
  induction l as [|x l IH]; intros Hnd Hin Hext; [destruct Hin|].
  inversion Hnd as [|? ? Hx Hnd']; subst.
  cbn [map]. unfold rsum in *. cbn [fold_right].
  destruct Hin as [->|Hin].
  - assert (E : map g l = map h l).
    { apply map_ext_in. intros c Hc. apply Hext; [right; assumption|].
      intros ->. contradiction. }
    rewrite E. ring.
  - rewrite (Hext x) by (try (left; reflexivity); intros ->; contradiction).
    rewrite IH; try assumption.
    + ring.
    + intros c Hc. apply Hext. right. assumption.
Qed.

Lemma zsum_all_zero {K} (g : K -> Z) l :
  (forall c, In c l -> g c = 0%Z) -> zsum (map g l) = 0%Z.
Proof.
  unfold zsum. induction l as [|x l IH]; intros H; [reflexivity|].
  cbn [map fold_right]. rewrite (H x) by (left; reflexivity).
  rewrite IH; [reflexivity|]. intros c Hc. apply H. right. assumption.
Qed.

Lemma zsum_single {K} (g : K -> Z) l a :
  NoDup l -> In a l ->
  (forall c, In c l -> c <> a -> g c = 0%Z) ->
  zsum (map g l) = g a.
Proof.
  induction l as [|x l IH]; intros Hnd Hin Hext; [destruct Hin|].
  inversion Hnd as [|? ? Hx Hnd']; subst.
  change (zsum (map g (x :: l))) with (g x + zsum (map g l))%Z.
  destruct Hin as [->|Hin].
  - rewrite zsum_all_zero; [lia|].
    intros c Hc. apply Hext; [right; assumption|].
    intros ->. contradiction.
  - rewrite (Hext x) by (try (left; reflexivity); intros ->; contradiction).
    rewrite IH; try assumption.
    + reflexivity.
    + intros c Hc. apply Hext. right. assumption.
Qed.

Section DiagonalStatistic.
Context {K : Type} (eq_dec : forall a c : K, {a = c} + {a <> c}).
Variables (ks : list K) (w : K -> R).
Hypothesis ks_nodup : NoDup ks.
Hypothesis ks_nonempty : ks <> [].
Hypothesis w_pos : forall a, In a ks -> (0 < w a)%R.

Let N := rsum (map w ks).

Lemma weights_total_pos : (0 < N)%R.
Proof.
  unfold N, rsum. clear ks_nodup.
  destruct ks as [|a l]; [contradiction|].
  assert (Ha : (0 < w a)%R) by (apply w_pos; left; reflexivity).
  assert (Hl : (0 <= fold_right Rplus 0 (map w l))%R).
  { clear - w_pos. induction l as [|x l IH]; simpl; [lra|].
    assert (0 < w x)%R by (apply w_pos; right; left; reflexivity).
    assert (0 <= fold_right Rplus 0 (map w l))%R.
    { apply IH. intros c [->|Hc]; apply w_pos;
        [left; reflexivity | right; right; assumption]. }
    lra. }
  simpl. lra.
Qed.

Lemma diagonal_row_sum a :
  In a ks ->
  rsum (map (fun c => pearsonR (if eq_dec a c then w a else 0)
                               (w a * w c / N)) ks)
  = (N - w a)%R.
Proof.
  intros Ha. pose proof weights_total_pos as HN.
  pose proof (w_pos a Ha) as Hwa.
  rewrite (rsum_single _ (fun c => (w a / N * w c)%R) ks a ks_nodup Ha).
  - rewrite rsum_scale. fold N.
    destruct (eq_dec a a) as [_|C]; [|contradiction].
    unfold pearsonR. field. lra.
  - intros c Hc Hne.
    destruct (eq_dec a c) as [->|_]; [contradiction|].
    pose proof (w_pos c Hc). unfold pearsonR. field. lra.
Qed.

Lemma diagonal_statistic :
  rsum (map (fun a =>
               rsum (map (fun c =>
                            pearsonR (if eq_dec a c then w a else 0)
                                     (w a * w c / N)) ks)) ks)
  = ((INR (length ks) - 1) * N)%R.
Proof.
  rewrite (rsum_map_ext_in _ (fun a => (N - w a)%R))
    by (intros a Ha; apply diagonal_row_sum; assumption).
  rewrite rsum_const_minus. fold N. ring.
Qed.
End DiagonalStatistic.

Lemma formula_perfect r n :
  (2 <= r)%Z -> (r < n)%Z ->
  cramers_v_formula (Fin ((IZR r - 1) * IZR n)) r r n = Fin 1.
Proof.
  intros Hr Hn. unfold cramers_v_formula, of_Z. cbn [fmul].
  rewrite !minus_IZR.
  assert (HR : (2 <= IZR r)%R) by (apply IZR_le; assumption).
  assert (HN : (IZR r < IZR n)%R) by (apply IZR_lt; assumption).
  set (R := IZR r) in *. set (N := IZR n) in *.
  assert (HN0 : N <> 0%R) by lra.
  assert (HN1 : (N - 1)%R <> 0%R) by lra.
  rewrite !fdiv_Fin by assumption. cbn [fsub].
  assert (Ey : (R - (R - 1) * (R - 1) / (N - 1) - 1
                = (R - 1) * (N - R) / (N - 1))%R) by (field; assumption).
  assert (Ex : ((R - 1) * N / N - (R - 1) * (R - 1) / (N - 1)
                = (R - 1) * (N - R) / (N - 1))%R) by (field; split; assumption).
  rewrite Ey, Ex.
  set (y := ((R - 1) * (N - R) / (N - 1))%R).
  assert (Hy : (0 < y)%R).
  { unfold y. apply Rdiv_lt_0_compat; [|lra].
    apply Rmult_lt_0_compat; lra. }
  rewrite minimum_Fin. unfold Rmin. destruct (Rle_dec y y); [|lra].
  unfold maximum, fltb. destruct (Rlt_dec 0 y); [|lra].
  rewrite fdiv_Fin by lra.
  replace (y / y)%R with 1%R by (field; lra).
  unfold fsqrt. rewrite sgn_pos by lra. rewrite sqrt_1. reflexivity.
Qed.

(** *** The cross-tabulation of a column with itself *)

Lemma combine_self {X} (l : list X) : combine l l = map (fun x => (x, x)) l.
Proof. induction l; simpl; congruence. Qed.

Lemma pairs_of_self s :
  pairs_of s s = map (fun x => (x, x)) (dropna (s_values s)).
Proof.
  unfold pairs_of, dropna. rewrite combine_self, filter_map_comm.
  f_equal. apply filter_ext. intros x. unfold both_present. simpl.
  apply andb_diag.
Qed.

Lemma pair_count_self xs a c :
  pair_count (map (fun x => (x, x)) xs) a c
  = if cell_eq_dec a c then occurrences xs a else 0%Z.
Proof.
  unfold pair_count, occurrences. rewrite filter_map_comm, length_map.
  cbn [fst snd]. destruct (cell_eq_dec a c) as [->|Hne].
  - do 2 f_equal. apply filter_ext. intros x. apply andb_diag.
  - rewrite (filter_ext _ (fun _ => false)).
    + clear. induction xs; simpl; auto.
    + intros x. destruct (cell_eq_dec x a) as [->|Hx].
      * rewrite (cell_eqb_false _ _ Hne). apply andb_false_r.
      * rewrite (cell_eqb_false _ _ Hx). reflexivity.
Qed.

Lemma insert_sorted_perm x l : Permutation (insert_sorted x l) (x :: l).
Proof.
  induction l as [|y l IH]; simpl; [reflexivity|].
  destruct (cell_leb x y); [reflexivity|].
  rewrite IH. apply perm_swap.
Qed.

Lemma sort_cells_perm l : Permutation (sort_cells l) l.
Proof.
  unfold sort_cells. induction l as [|x l IH]; simpl; [constructor|].
  rewrite insert_sorted_perm. constructor. assumption.
Qed.

Lemma unique_NoDup l : NoDup (unique l).
Proof.
  unfold unique. apply (Permutation_NoDup (l := nodup cell_eq_dec l)).
  - symmetry. apply sort_cells_perm.
  - apply NoDup_nodup.
Qed.

Lemma unique_In a l : In a (unique l) <-> In a l.
Proof.
  unfold unique. split.
  - intros H. apply (nodup_In cell_eq_dec).
    apply (Permutation_in a (sort_cells_perm _) H).
  - intros H. apply (nodup_In cell_eq_dec) in H.
    apply (Permutation_in a (Permutation_sym (sort_cells_perm _)) H).
Qed.

Lemma occurrences_pos xs a : In a xs -> (0 < occurrences xs a)%Z.
Proof.
  intros H. unfold occurrences.
  assert (In a (filter (fun x => cell_eqb x a) xs))
    by (apply filter_In; split; [assumption | apply cell_eqb_same]).
  destruct (filter _ xs); [contradiction | simpl; lia].
Qed.

Lemma occurrences_total ks xs :
  NoDup ks -> (forall x, In x xs -> In x ks) ->
  zsum (map (occurrences xs) ks) = Z.of_nat (length xs).
Proof.
  intros Hnd. induction xs as [|x xs IH]; intros Hin.
  - apply zsum_all_zero. reflexivity.
  - rewrite (map_ext _ (fun a => ((if cell_eqb x a then 1 else 0)
                                  + occurrences xs a)%Z)).
    + rewrite zsum_map_add, IH by (intros; apply Hin; right; assumption).
      rewrite (zsum_single _ ks x Hnd).
      * rewrite cell_eqb_same. cbn [length]. lia.
      * apply Hin. left. reflexivity.
      * intros c _ Hc. rewrite cell_eqb_false by congruence. reflexivity.
    + intros a. unfold occurrences. cbn [filter].
      destruct (cell_eqb x a); cbn [length]; lia.
Qed.

Section SelfCrosstab.
Variable s : Series.
Let xs := dropna (s_values s).
Let ks := unique xs.
Let f := pair_count (map (fun x => (x, x)) xs).
Hypothesis three_values : (3 <= length ks)%nat.
Hypothesis repeated : (length ks < length xs)%nat.

Lemma self_crosstab : crosstab s s = tab ks ks f.
Proof.
  rewrite crosstab_tab, pairs_of_self, !map_map. cbn [fst snd].
  rewrite map_id. reflexivity.
Qed.

Lemma self_keys_nonempty : ks <> [].
Proof. intros E. rewrite E in three_values. simpl in three_values. lia. Qed.

Lemma self_row a : In a ks -> tab_row ks f a = occurrences xs a.
Proof.
  intros Ha. unfold tab_row.
  rewrite (zsum_single (f a) ks a (unique_NoDup xs) Ha).
  - unfold f. rewrite pair_count_self.
    destruct (cell_eq_dec a a); [reflexivity|contradiction].
  - intros c _ Hc. unfold f. rewrite pair_count_self.
    destruct (cell_eq_dec a c); [congruence|reflexivity].
Qed.

Lemma self_col c : In c ks -> tab_col ks f c = occurrences xs c.
Proof.
  intros Hc. unfold tab_col.
  rewrite (zsum_single (fun a => f a c) ks c (unique_NoDup xs) Hc).
  - unfold f. rewrite pair_count_self.
    destruct (cell_eq_dec c c); [reflexivity|contradiction].
  - intros a _ Ha. unfold f. rewrite pair_count_self.
    destruct (cell_eq_dec a c); [congruence|reflexivity].
Qed.

Lemma self_total : tab_total ks ks f = Z.of_nat (length xs).
Proof.
  unfold tab_total.
  rewrite (map_ext_in _ (occurrences xs))
    by (intros; apply self_row; assumption).
  apply occurrences_total.
  - apply unique_NoDup.
  - intros x Hx. apply unique_In. assumption.
Qed.

Lemma self_row_pos a : In a ks -> (0 < tab_row ks f a)%Z.
Proof.
  intros Ha. rewrite self_row by assumption.
  apply occurrences_pos. apply unique_In. assumption.
Qed.

Lemma self_col_pos c : In c ks -> (0 < tab_col ks f c)%Z.
Proof.
  intros Hc. rewrite self_col by assumption.
  apply occurrences_pos. apply unique_In. assumption.
Qed.

Lemma self_nonneg a c : In a ks -> In c ks -> (0 <= f a c)%Z.
Proof. intros _ _. unfold f, pair_count. lia. Qed.

Lemma self_statistic :
  chi2R ks ks f
  = ((IZR (Z.of_nat (length ks)) - 1) * IZR (Z.of_nat (length xs)))%R.
Proof.
  unfold chi2R, termR.
  assert (Hd0 : (dof_of (length ks) (length ks) =? 0)%Z = false)
    by (apply Z.eqb_neq; unfold dof_of; nia).
  assert (Hd1 : (dof_of (length ks) (length ks) =? 1)%Z = false)
    by (apply Z.eqb_neq; unfold dof_of; nia).
  rewrite Hd0, Hd1.
  set (w := fun a => IZR (occurrences xs a)).
  assert (HN : rsum (map w ks) = IZR (Z.of_nat (length xs))).
  { unfold w. rewrite <- (map_map (occurrences xs) IZR), <- IZR_zsum.
    f_equal. apply occurrences_total.
    - apply unique_NoDup.
    - intros x Hx. apply unique_In. assumption. }
  rewrite <- INR_IZR_INZ with (n := length ks).
  rewrite <- HN.
  rewrite <- (diagonal_statistic cell_eq_dec ks w (unique_NoDup xs)
                self_keys_nonempty).
  - apply rsum_map_ext_in. intros a Ha.
    apply rsum_map_ext_in. intros c Hc.
    unfold expectedR. rewrite self_row, self_col, self_total by assumption.
    rewrite HN. unfold f. rewrite pair_count_self. unfold w.
    destruct (cell_eq_dec a c); reflexivity.
  - intros a Ha. unfold w. apply IZR_lt. apply occurrences_pos.
    apply unique_In. assumption.
Qed.

Lemma cramers_v_self : cramers_v (crosstab s s) = Ok (Fin 1).
Proof.
  rewrite self_crosstab.
  rewrite (cramers_v_tab_wf ks ks f self_keys_nonempty self_keys_nonempty
             self_nonneg self_row_pos self_col_pos).
  rewrite self_statistic, self_total. f_equal.
  apply formula_perfect; lia.
Qed.
End SelfCrosstab.

(* ================================================================= *)
(** ** [cramer_matrix] returns *)

Lemma pair_count_row_total pairs ks r :
  NoDup ks -> (forall p, In p pairs -> In (snd p) ks) ->
  zsum (map (pair_count pairs r) ks) = first_count pairs r.
Proof.
  intros Hnd. induction pairs as [|p pairs IH]; intros Hin.
  - apply zsum_all_zero. reflexivity.
  - rewrite (map_ext _ (fun c => ((if cell_eqb (fst p) r && cell_eqb (snd p) c
                                   then 1 else 0)
                                  + pair_count pairs r c)%Z)).
    + rewrite zsum_map_add, IH by (intros; apply Hin; right; assumption).
      rewrite (zsum_single _ ks (snd p) Hnd).
      * rewrite cell_eqb_same, andb_true_r. unfold first_count.
        cbn [filter]. destruct (cell_eqb (fst p) r); cbn [length]; lia.
      * apply Hin. left. reflexivity.
      * intros c _ Hc. rewrite (cell_eqb_false (snd p) c) by congruence.
        rewrite andb_false_r. reflexivity.
    + intros c. unfold pair_count. cbn [filter].
      destruct (cell_eqb (fst p) r && cell_eqb (snd p) c); cbn [length]; lia.
Qed.

Lemma pair_count_col_total pairs ks c :
  NoDup ks -> (forall p, In p pairs -> In (fst p) ks) ->
  zsum (map (fun r => pair_count pairs r c) ks) = second_count pairs c.
Proof.
  intros Hnd. induction pairs as [|p pairs IH]; intros Hin.
  - apply zsum_all_zero. reflexivity.
  - rewrite (map_ext _ (fun r => ((if cell_eqb (fst p) r && cell_eqb (snd p) c
                                   then 1 else 0)
                                  + pair_count pairs r c)%Z)).
    + rewrite zsum_map_add, IH by (intros; apply Hin; right; assumption).
      rewrite (zsum_single _ ks (fst p) Hnd).
      * rewrite cell_eqb_same, andb_true_l. unfold second_count.
        cbn [filter]. destruct (cell_eqb (snd p) c); cbn [length]; lia.
      * apply Hin. left. reflexivity.
      * intros r _ Hr. rewrite (cell_eqb_false (fst p) r) by congruence.
        reflexivity.
    + intros r. unfold pair_count. cbn [filter].
      destruct (cell_eqb (fst p) r && cell_eqb (snd p) c); cbn [length]; lia.
Qed.

Lemma first_count_pos pairs r :
  In r (map fst pairs) -> (0 < first_count pairs r)%Z.
Proof.
  intros H. apply in_map_iff in H. destruct H as (p & <- & Hp).
  unfold first_count.
  assert (In p (filter (fun q => cell_eqb (fst q) (fst p)) pairs))
    by (apply filter_In; split; [assumption | apply cell_eqb_same]).
  destruct (filter _ pairs); [contradiction | simpl; lia].
Qed.

Lemma second_count_pos pairs c :
  In c (map snd pairs) -> (0 < second_count pairs c)%Z.
Proof.
  intros H. apply in_map_iff in H. destruct H as (p & <- & Hp).
  unfold second_count.
  assert (In p (filter (fun q => cell_eqb (snd q) (snd p)) pairs))
    by (apply filter_In; split; [assumption | apply cell_eqb_same]).
  destruct (filter _ pairs); [contradiction | simpl; lia].
Qed.

(** Two columns with a row where both are present have a Cramer's V. *)
Lemma cramers_v_crosstab_returns a b :
  pairs_of a b <> [] -> exists x, cramers_v (crosstab a b) = Ok x.
Proof.
  intros Hne. rewrite crosstab_tab.
  set (pairs := pairs_of a b) in *.
  assert (Hr : unique (map fst pairs) <> []).
  { rewrite unique_nil_iff. destruct pairs; [contradiction|discriminate]. }
  assert (Hc : unique (map snd pairs) <> []).
  { rewrite unique_nil_iff. destruct pairs; [contradiction|discriminate]. }
  eexists.
  apply (cramers_v_tab_wf (unique (map fst pairs)) (unique (map snd pairs))
           (pair_count pairs) Hr Hc).
  - intros r c _ _. unfold pair_count. lia.
  - intros r Hin. unfold tab_row.
    rewrite pair_count_row_total.
    + apply first_count_pos. apply unique_In. assumption.
    + apply unique_NoDup.
    + intros p Hp. apply unique_In. apply in_map. assumption.
  - intros c Hin. unfold tab_col.
    rewrite pair_count_col_total.
    + apply second_count_pos. apply unique_In. assumption.
    + apply unique_NoDup.
    + intros p Hp. apply unique_In. apply in_map. assumption.
Qed.

Lemma cramer_inner_returns data vars var1 cs :
  (forall c, In c cs -> exists x, cramers_v_of data var1 c = Ok x) ->
  forall g, exists g',
    cramer_inner data var1 cs (filled vars g) = Ok (filled vars g').
Proof.
  induction cs as [|c cs IH]; intros H g.
  - exists g. reflexivity.
  - destruct (H c (or_introl eq_refl)) as [x Hx].
    cbn [cramer_inner]. unfold cramers_v_of in Hx.
    destruct (getcol data var1) as [a|e]; cbn [bind] in *; [|discriminate].
    destruct (getcol data c) as [b|e]; cbn [bind] in *; [|discriminate].
    rewrite Hx. cbn [bind]. rewrite loc_set_filled.
    apply IH. intros c' Hc'. apply H. right. assumption.
Qed.

Lemma cramer_outer_returns data vars vs1 :
  (forall r c, In r vs1 -> In c vars ->
               exists x, cramers_v_of data r c = Ok x) ->
  forall g, exists g',
    cramer_outer data vs1 vars (filled vars g) = Ok (filled vars g').
Proof.
  induction vs1 as [|v vs1 IH]; intros H g.
  - exists g. reflexivity.
  - cbn [cramer_outer].
    destruct (cramer_inner_returns data vars v vars
                (fun c Hc => H v c (or_introl eq_refl) Hc) g) as [g1 Hg1].
    rewrite Hg1. cbn [bind].
    apply IH. intros r c Hr Hc. apply H; [right|]; assumption.
Qed.

(** [cramer_matrix] returns a matrix whenever every listed variable is a
    column and every two listed columns share a row where both are
    present. *)
Lemma cramer_matrix_returns data categorical_vars :
  (forall v, In v categorical_vars -> exists s, getcol data v = Ok s) ->
  (forall v1 v2 a b, In v1 categorical_vars -> In v2 categorical_vars ->
     getcol data v1 = Ok a -> getcol data v2 = Ok b -> pairs_of a b <> []) ->
  exists m, cramer_matrix data categorical_vars = Ok m.
Proof.
  intros Hcols Hpairs. unfold cramer_matrix.
  change (empty_matrix categorical_vars)
    with (filled categorical_vars (fun _ _ => NaN)).
  assert (Hall : forall r c, In r categorical_vars -> In c categorical_vars ->
                   exists x, cramers_v_of data r c = Ok x).
  { intros r c Hr Hc.
    destruct (Hcols r Hr) as [a Ha]. destruct (Hcols c Hc) as [b Hb].
    unfold cramers_v_of. rewrite Ha, Hb. cbn [bind].
    apply cramers_v_crosstab_returns.
    exact (Hpairs r c a b Hr Hc Ha Hb). }
  destruct (cramer_outer_returns data categorical_vars categorical_vars Hall
              (fun _ _ => NaN)) as [g' Hg'].
  exists (filled categorical_vars g'). exact Hg'.
Qed.

(** *** Concrete matrices *)

Lemma crosstab_binary : crosstab binary_series binary_series = diag2.
Proof. vm_compute. reflexivity. Qed.

Lemma cramer_matrix_two_binary :
  cramer_matrix two_binary_df ["c1"; "c2"]
  = Ok [ ("c1", [("c1", Fin 0); ("c2", Fin 0)]);
         ("c2", [("c1", Fin 0); ("c2", Fin 0)]) ].
Proof.
  unfold cramer_matrix. cbn [cramer_outer cramer_inner].
  change (getcol two_binary_df "c1") with (Ok binary_series).
  change (getcol two_binary_df "c2") with (Ok binary_series).
  cbn [bind]. rewrite crosstab_binary, cramers_v_diag2. cbn [bind].
  reflexivity.
Qed.

Lemma cramer_matrix_symmetric_witness :
  transpose [ ("c1", [("c1", Fin 0); ("c2", Fin 0)]);
              ("c2", [("c1", Fin 0); ("c2", Fin 0)]) ]
  = [ ("c1", [("c1", Fin 0); ("c2", Fin 0)]);
      ("c2", [("c1", Fin 0); ("c2", Fin 0)]) ].
Proof.
  apply (cramer_matrix_symmetric two_binary_df ["c1"; "c2"]).
  exact cramer_matrix_two_binary.
Defined.

Lemma cramer_matrix_binary :
  cramer_matrix [ ("cat", binary_series) ] ["cat"]
  = Ok [ ("cat", [("cat", Fin 0)]) ].
Proof.
  unfold cramer_matrix. cbn [cramer_outer cramer_inner].
  change (getcol [("cat", binary_series)] "cat") with (Ok binary_series).
  cbn [bind]. rewrite crosstab_binary, cramers_v_diag2. reflexivity.
Qed.

(** C9, as stated, fails: for a two-valued column the diagonal cell is 0. *)
Lemma cramer_matrix_diagonal_not_one :
  exists m row e,
    cramer_matrix [ ("cat", binary_series) ] ["cat"] = Ok m
    /\ In row m /\ In e (snd row) /\ fst e = fst row /\ snd e <> Fin 1.
Proof.
  exists [ ("cat", [("cat", Fin 0)]) ], ("cat", [("cat", Fin 0)]),
         ("cat", Fin 0).
  split; [exact cramer_matrix_binary|].
  split; [left; reflexivity|]. split; [left; reflexivity|].
  split; [reflexivity|]. cbn [snd]. intros H. injection H as H. lra.
Qed.

(** C9 (amended).  In the matrix returned by [cramer_matrix], the diagonal
    cell of a variable with at least 3 distinct non-missing values and more
    non-missing rows than distinct values exists and equals 1; the code
    computes it like every other cell. *)
Theorem cramer_matrix_diagonal data categorical_vars m v s :
  cramer_matrix data categorical_vars = Ok m ->
  In v categorical_vars ->
  getcol data v = Ok s ->
  (3 <= length (unique (dropna (s_values s))))%nat ->
  (length (unique (dropna (s_values s))) < length (dropna (s_values s)))%nat ->
  (exists row e, In row m /\ fst row = v /\ In e (snd row) /\ fst e = v)
  /\ forall row e,
       In row m -> fst row = v -> In e (snd row) -> fst e = v ->
       snd e = Fin 1.
Proof.
  intros Hm Hv Hs H3 Hrep.
  destruct (cramer_matrix_value _ _ _ Hm) as [-> Hall].
  assert (HV : value_or_nan (cramers_v_of data v v) = Fin 1).
  { unfold cramers_v_of. rewrite Hs. cbn [bind].
    rewrite (cramers_v_self s H3 Hrep). reflexivity. }
  split.
  - exists (v, map (fun c => (c, value_or_nan (cramers_v_of data v c)))
                   categorical_vars),
           (v, value_or_nan (cramers_v_of data v v)).
    repeat split.
    + unfold filled. apply in_map_iff. exists v.
      split; [reflexivity|assumption].
    + cbn [snd]. apply in_map_iff. exists v. split; [reflexivity|assumption].
  - intros row e Hrow Hfr He Hfe.
    unfold filled in Hrow. apply in_map_iff in Hrow.
    destruct Hrow as (r & <- & Hr). cbn [fst snd] in *. subst r.
    apply in_map_iff in He. destruct He as (c & <- & Hc).
    cbn [fst snd] in *. subst c. exact HV.
Qed.

Lemma cramer_matrix_three_valued :
  cramer_matrix [ ("cat", three_valued) ] ["cat"]
  = Ok [ ("cat", [("cat", Fin 1)]) ].
Proof.
  unfold cramer_matrix. cbn [cramer_outer cramer_inner].
  change (getcol [("cat", three_valued)] "cat") with (Ok three_valued).
  cbn [bind]. rewrite cramers_v_self.
  - reflexivity.
  - vm_compute. lia.
  - vm_compute. lia.
Qed.

(** A three-valued column with a repeated value: its diagonal cell is 1. *)
Lemma cramer_matrix_diagonal_witness :
  snd ("cat", Fin 1) = Fin 1.
Proof.
  refine (proj2 (cramer_matrix_diagonal [ ("cat", three_valued) ] ["cat"]
                   [ ("cat", [("cat", Fin 1)]) ] "cat" three_valued
                   cramer_matrix_three_valued _ _ _ _)
                ("cat", [("cat", Fin 1)]) ("cat", Fin 1) _ _ _ _).
  - left. reflexivity.
  - reflexivity.
  - vm_compute. lia.
  - vm_compute. lia.
  - left. reflexivity.
  - reflexivity.
  - left. reflexivity.
  - reflexivity.
Defined.

(* ================================================================= *)
(** ** [iv_woe]: missing columns *)

(** X1.  A variable or target that is not a column of the dataset makes
    [iv_woe] raise: KeyError, with the dataset untouched, when no bin count
    is given; some exception, never a table, in every case. *)
Theorem iv_woe_missing_column df variable target :
  lookup df variable = None \/ lookup df target = None ->
  iv_woe df variable target None = (df, Raise KeyError)
  /\ forall bins, exists df' e,
       iv_woe df variable target bins = (df', Raise e).
Proof.
  intros H.
  assert (G : forall d, lookup d variable = None \/ lookup d target = None ->
                groupby_agg d variable target = Raise KeyError).
  { intros d Hd. unfold groupby_agg, getcol.
    destruct (lookup d variable); cbn [bind]; [|reflexivity].
    destruct Hd as [Hd|Hd]; [discriminate|]. rewrite Hd. reflexivity. }
  split.
  - unfold iv_woe. cbn [apply_binning bind]. rewrite (G df H). reflexivity.
  - intros bins. unfold iv_woe.
    destruct (apply_binning df variable bins) as [df1 binned] eqn:E.
    destruct binned as [[]|e]; cbn [bind]; [|eauto].
    assert (H1 : lookup df1 variable = None \/ lookup df1 target = None).
    { unfold apply_binning in E. destruct bins as [b|]; [|congruence].
      destruct (truthy (Some b)); [|congruence].
      unfold getcol in E.
      destruct (lookup df variable) as [s|] eqn:Hs; cbn [bind] in E;
        [|discriminate].
      destruct H as [H|H]; [discriminate|].
      destruct (pd_cut s b); [|discriminate].
      injection E as <-. right.
      destruct (String.eqb_spec target variable) as [->|N].
      - congruence.
      - rewrite lookup_setcol_other by assumption. assumption. }
    rewrite (G df1 H1). cbn [bind]. eauto.
Qed.

Lemma iv_woe_missing_column_witness :
  iv_woe example_df "edad" "target" None = (example_df, Raise KeyError)
  /\ forall bins, exists df' e,
       iv_woe example_df "edad" "target" bins = (df', Raise e).
Proof.
  apply (iv_woe_missing_column example_df "edad" "target").
  left. reflexivity.
Defined.

(* ================================================================= *)
(** ** [iv_woe]: sign of the Information Value *)

Lemma iv_term_nonneg a c :
  (0 < a)%R -> (0 < c)%R -> (0 <= (a - c) * ln (a / c))%R.
Proof.
  intros Ha Hc.
  destruct (Rle_lt_dec c a) as [Hle|Hlt].
  - apply Rmult_le_pos; [lra|].
    rewrite <- ln_1. destruct (Req_dec_T a c) as [->|N].
    + replace (c / c)%R with 1%R by (field; lra). lra.
    + left. apply ln_increasing; [lra|].
      apply Rmult_lt_reg_r with c; [assumption|].
      replace (a / c * c)%R with a by (field; lra). lra.
  - assert (ln (a / c) < 0)%R.
    { rewrite <- ln_1. apply ln_increasing.
      - apply Rdiv_lt_0_compat; assumption.
      - apply Rmult_lt_reg_r with c; [assumption|].
        replace (a / c * c)%R with a by (field; lra). lra. }
    replace ((a - c) * ln (a / c))%R with ((c - a) * (- ln (a / c)))%R by ring.
    apply Rmult_le_pos; lra.
Qed.

Lemma woe_of_counts_iv tb tm k b m :
  (0 <= b <= tb)%Z -> (0 <= m <= tm)%Z ->
  nonneg_or_nan (IV (woe_of_counts tb tm (k, b, m))).
Proof.
  intros Hb Hm. unfold nonneg_or_nan. cbn [woe_of_counts IV].
  destruct (share_cases b tb Hb) as [-> | (a & -> & Ha)];
    destruct (share_cases m tm Hm) as [-> | (c & -> & Hc)].
  - left. reflexivity.
  - left. cbn [replace_zero_nan].
    destruct (Req_dec_T c 0); reflexivity.
  - left. reflexivity.
  - unfold replace_zero_nan.
    destruct (Req_dec_T c 0) as [->|Nc].
    + left. reflexivity.
    + assert (Hc' : (0 < c)%R) by lra.
      rewrite fdiv_Fin by assumption. cbn [fsub].
      destruct (Req_dec_T a 0) as [->|Na].
      * right. left.
        replace (0 / c)%R with 0%R by (field; assumption).
        unfold flog. rewrite sgn_zero. cbn [fmul signed_inf].
        rewrite sgn_neg by lra. reflexivity.
      * right. right.
        assert (Ha' : (0 < a)%R) by lra.
        unfold flog. rewrite sgn_pos by (apply Rdiv_lt_0_compat; assumption).
        cbn [fmul]. eexists. split; [reflexivity|].
        apply iv_term_nonneg; assumption.
Qed.

Lemma nansum_nonneg l :
  (forall x, In x l -> nonneg_or_nan x) ->
  nansum l = PInf \/ exists r, nansum l = Fin r /\ (0 <= r)%R.
Proof.
  unfold nansum. induction l as [|x l IH]; intros H.
  - right. exists 0%R. split; [reflexivity|lra].
  - assert (IH' := IH (fun y Hy => H y (or_intror Hy))).
    destruct (H x (or_introl eq_refl)) as [-> | [-> | (r & -> & Hr)]];
      cbn [filter isnan negb].
    + exact IH'.
    + left. cbn [fsum fold_right]. fold (fsum (filter (fun a => negb (isnan a)) l)).
      destruct IH' as [-> | (s & -> & _)]; reflexivity.
    + cbn [fsum fold_right]. fold (fsum (filter (fun a => negb (isnan a)) l)).
      destruct IH' as [-> | (s & -> & Hs)].
      * left. reflexivity.
      * right. exists (r + s)%R. split; [reflexivity|lra].
Qed.

(** X2.  The Information Value never comes out negative: in a returned
    table every group's IV is missing (NaN), plus infinity or a
    non-negative number, and the total is plus infinity or a non-negative
    number (never NaN). *)
Theorem iv_total_nonnegative df variable target bins df' tabla iv_total :
  iv_woe df variable target bins = (df', Ok (tabla, iv_total)) ->
  (forall row, In row tabla ->
     IV row = NaN \/ IV row = PInf
     \/ exists r, IV row = Fin r /\ (0 <= r)%R)
  /\ (iv_total = PInf \/ exists r, iv_total = Fin r /\ (0 <= r)%R).
Proof.
  unfold iv_woe. destruct (apply_binning df variable bins) as [df1 binned].
  intros H. injection H as _ H.
  destruct binned as [[]|e]; [|discriminate]. cbn [bind] in H.
  unfold groupby_agg in H.
  destruct (getcol df1 variable) as [v|e]; [|discriminate]. cbn [bind] in H.
  destruct (getcol df1 target) as [t|e]; [|discriminate]. cbn [bind] in H.
  injection H as <- <-.
  assert (Hrows : forall row,
            In row (map (woe_of_counts (count_eq_int 0 (s_values t))
                                       (count_eq_int 1 (s_values t)))
                        (map (fun k =>
                                (k,
                                 count_eq_int 0
                                   (select_mask (s_values t)
                                      (map (cell_eqb k) (s_values v))),
                                 count_eq_int 1
                                   (select_mask (s_values t)
                                      (map (cell_eqb k) (s_values v)))))
                             (group_keys v))) ->
            nonneg_or_nan (IV row)).
  { intros row Hin. apply in_map_iff in Hin. destruct Hin as [g [<- Hg]].
    apply in_map_iff in Hg. destruct Hg as [k [<- _]].
    apply woe_of_counts_iv; apply count_eq_int_select. }
  split.
  - exact Hrows.
  - apply nansum_nonneg. intros x Hx. apply in_map_iff in Hx.
    destruct Hx as [row [<- Hrow]]. apply Hrows. assumption.
Qed.

Lemma iv_total_nonnegative_witness :
  (forall row,
     In row [ mk_woe_row (Str "A") 2 0 (Fin 1) (Fin 0) NaN NaN;
              mk_woe_row (Str "B") 0 2 (Fin 0) (Fin 1) (Fin 0) PInf ] ->
     IV row = NaN \/ IV row = PInf
     \/ exists r, IV row = Fin r /\ (0 <= r)%R)
  /\ (PInf = PInf \/ exists r, PInf = Fin r /\ (0 <= r)%R).
Proof.
  exact (iv_total_nonnegative example_df "cat" "target" None example_df _ _
           iv_woe_example_value).
Defined.

(* ================================================================= *)
(** ** [iv_woe]: the counts of the frequency table *)






(* ================================================================= *)
(** ** [iv_woe]: the shares of a variable without missing values *)





(* ================================================================= *)
(** ** [iv_woe]: calling again on the DataFrame the call left *)



(** Every cell of a binned column is an interval or missing. *)
Lemma cut_cell_cases cats c :
  cut_cell cats c = NA \/ exists lo hi, cut_cell cats c = Itv lo hi.
Proof.
  unfold cut_cell. destruct c as [|q|s|lo hi]; try (left; reflexivity).
  destruct (find _ cats) as [i|] eqn:E; [|left; reflexivity].
  apply find_some in E. destruct E as [_ E].
  destruct i; try discriminate. right. eauto.
Qed.

Lemma numeric_values_binned cats l :
  numeric_values (map (cut_cell cats) l) = Ok []
  \/ numeric_values (map (cut_cell cats) l) = Raise TypeError.
Proof.
  induction l as [|c l IH]; [left; reflexivity|].
  cbn [map]. destruct (cut_cell_cases cats c) as [-> | (lo & hi & ->)].
  - exact IH.
  - right. reflexivity.
Qed.

Lemma pd_cut_binned_fails s b c b' :
  pd_cut s b = Ok c -> exists e, pd_cut c b' = Raise e.
Proof.
  unfold pd_cut at 1.
  destruct (nbins_to_bins (s_values s) b) as [edges|e]; [|discriminate].
  cbn [bind]. intros H. injection H as <-.
  unfold pd_cut, nbins_to_bins. cbn [s_values].
  destruct (b' <? 1)%Z; [eexists; reflexivity|].
  destruct (Nat.eqb (length (map (cut_cell (intervals edges)) (s_values s))) 0);
    [eexists; reflexivity|].
  destruct (numeric_values_binned (intervals edges) (s_values s)) as [-> | ->];
    eexists; reflexivity.
Qed.

(** X6.  Binning is not repeatable: after a call with a bin count that
    returned, the variable's column holds intervals, and a second call
    with a bin count on the same DataFrame raises instead of returning,
    leaving the DataFrame as the first call left it. *)
Theorem iv_woe_binning_not_repeatable df variable target b b' df1 res :
  b <> 0%Z -> b' <> 0%Z ->
  iv_woe df variable target (Some b) = (df1, Ok res) ->
  exists e, iv_woe df1 variable target (Some b') = (df1, Raise e).
Proof.
  intros Hb Hb'. unfold iv_woe at 1. unfold apply_binning.
  assert (Et : forall z, z <> 0%Z -> truthy (Some z) = true).
  { intros z Hz. cbn. destruct (Z.eqb_spec z 0); [contradiction|reflexivity]. }
  rewrite (Et b Hb).
  destruct (getcol df variable) as [s|e] eqn:Hs; cbn [bind];
    [|intros H; discriminate H].
  destruct (pd_cut s b) as [c|e] eqn:Hc; [|intros H; discriminate H].
  intros H. injection H as <- _.
  destruct (pd_cut_binned_fails s b c b' Hc) as [e He].
  exists e. unfold iv_woe, apply_binning. rewrite (Et b' Hb').
  apply getcol_Ok in Hs.
  assert (Hc1 : getcol (setcol df variable c) variable = Ok c).
  { apply getcol_Ok. eapply lookup_setcol_same. eassumption. }
  rewrite Hc1. cbn [bind]. rewrite He. reflexivity.
Qed.

Lemma binning_df_returns :
  exists res, snd (iv_woe binning_df "x" "target" (Some 2%Z)) = Ok res.
Proof.
  unfold iv_woe.
  destruct (apply_binning binning_df "x" (Some 2%Z)) as [d1 r1] eqn:E.
  cbn [snd].
  assert (Er : r1 = Ok tt).
  { assert (H : snd (apply_binning binning_df "x" (Some 2%Z)) = Ok tt)
      by (vm_compute; reflexivity).
    rewrite E in H. exact H. }
  assert (Ed : d1 = fst (apply_binning binning_df "x" (Some 2%Z)))
    by (rewrite E; reflexivity).
  rewrite Er. cbn [bind].
  assert (Hg : exists g, groupby_agg d1 "x" "target" = Ok g).
  { rewrite Ed. eexists. vm_compute. reflexivity. }
  assert (Ht : exists t, getcol d1 "target" = Ok t).
  { rewrite Ed. eexists. vm_compute. reflexivity. }
  destruct Hg as [g ->]. destruct Ht as [t ->]. cbn [bind]. eauto.
Qed.

Lemma iv_woe_binning_not_repeatable_witness :
  exists e,
    iv_woe (fst (iv_woe binning_df "x" "target" (Some 2%Z))) "x" "target"
           (Some 3%Z)
    = (fst (iv_woe binning_df "x" "target" (Some 2%Z)), Raise e).
Proof.
  refine (iv_woe_binning_not_repeatable binning_df "x" "target" 2 3
            (fst (iv_woe binning_df "x" "target" (Some 2%Z)))
            (match snd (iv_woe binning_df "x" "target" (Some 2%Z)) with
             | Ok r => r
             | Raise _ => ([], NaN)
             end) _ _ _).
  - discriminate.
  - discriminate.
  - destruct binning_df_returns as [res H].
    destruct (iv_woe binning_df "x" "target" (Some 2%Z)) as [d r].
    cbn [fst snd] in *. rewrite H. reflexivity.
Defined.

(* ================================================================= *)
(** ** [iv_woe]: what binning does to the rows *)


























(* ================================================================= *)
(** ** [dame_variables_categoricas]: the threshold *)

Lemma dame_variables_categoricas_value d max_unicos :
  dame_variables_categoricas (Some d) max_unicos
  = ([], Ok (RetLists
               (filter (es_categorica d max_unicos) (columns d))
               (filter (fun i => negb (es_categorica d max_unicos i))
                       (columns d)))).
Proof.
  unfold dame_variables_categoricas.
  rewrite clasifica_filter by apply incl_refl. reflexivity.
Qed.

Lemma es_categorica_mono d m1 m2 i :
  (m1 <= m2)%Z -> es_categorica d m1 i = true -> es_categorica d m2 i = true.
Proof.
  intros Hm. unfold es_categorica. destruct (lookup d i) as [s|]; [|auto].
  rewrite !orb_true_iff, !Z.ltb_lt. intros [H|H]; [left; assumption|].
  right. lia.
Qed.

(** X8.  Raising the threshold only moves columns from the second list to
    the first: every column classified as categorical under [m1] is still
    categorical under any [m2 >= m1], and every column left in [other]
    under [m2] was already there under [m1]. *)
Theorem dame_variables_categoricas_monotone d m1 m2 cat1 other1 cat2 other2 :
  (m1 <= m2)%Z ->
  dame_variables_categoricas (Some d) m1 = ([], Ok (RetLists cat1 other1)) ->
  dame_variables_categoricas (Some d) m2 = ([], Ok (RetLists cat2 other2)) ->
  incl cat1 cat2 /\ incl other2 other1.
Proof.
  intros Hm. rewrite !dame_variables_categoricas_value.
  intros H1 H2. injection H1 as <- <-. injection H2 as <- <-.
  split; intros i Hi; apply filter_In in Hi; destruct Hi as [Hc Hi];
    apply filter_In; (split; [assumption|]).
  - eapply es_categorica_mono; eassumption.
  - destruct (es_categorica d m1 i) eqn:E; [|reflexivity].
    rewrite (es_categorica_mono d m1 m2 i Hm E) in Hi. discriminate.
Qed.

Lemma dame_variables_categoricas_monotone_witness :
  incl ["cat"] ["target"; "cat"] /\ incl [] ["target"].
Proof.
  apply (dame_variables_categoricas_monotone example_df 2 50
           ["cat"] ["target"] ["target"; "cat"] []).
  - lia.
  - vm_compute. reflexivity.
  - vm_compute. reflexivity.
Defined.







(* ================================================================= *)
(** ** [get_corr_matrix]: what is drawn *)

Lemma nth_set_nth {A} i j (x : A) l d :
  (i < length l)%nat ->
  nth j (set_nth i x l) d = if Nat.eqb j i then x else nth j l d.
Proof.
  revert i j. induction l as [|y l IH]; intros i j Hi; [simpl in Hi; lia|].
  destruct i as [|i]; destruct j as [|j]; cbn [set_nth nth Nat.eqb];
    try reflexivity.
  apply IH. simpl in Hi. lia.
Qed.

Lemma set_nth_length {A} i (x : A) l : length (set_nth i x l) = length l.
Proof.
  revert i. induction l as [|y l IH]; intros [|i]; cbn [set_nth length];
    try reflexivity.
  rewrite IH. reflexivity.
Qed.

Lemma mapi_length {A B} (f : nat -> A -> B) l : length (mapi f l) = length l.
Proof.
  unfold mapi. rewrite length_map, length_combine, length_seq. lia.
Qed.

Lemma nth_mapi {A B} (f : nat -> A -> B) l i d d' :
  (i < length l)%nat -> nth i (mapi f l) d = f i (nth i l d').
Proof.
  intros Hi. unfold mapi.
  rewrite (nth_indep _ d (f 0%nat d')) by (rewrite length_map, length_combine, length_seq; lia).
  change (f 0%nat d') with ((fun p => f (fst p) (snd p)) (0%nat, d')).
  rewrite map_nth. rewrite combine_nth by apply length_seq.
  cbn [fst snd]. rewrite seq_nth by assumption. reflexivity.
Qed.

(** X10.  Given a dataset whose correlation matrix is square, the call
    draws one heatmap and returns 0; the matrix drawn has the shape of the
    correlation matrix, zeros on its diagonal and the correlations
    everywhere else. *)
Theorem get_corr_matrix_zeroes_diagonal
    (pandas_corr : DataFrame -> string -> result (list (list float)))
    d metodo corr :
  pandas_corr d metodo = Ok corr ->
  (forall row, In row corr -> length row = length corr) ->
  exists drawn,
    get_corr_matrix pandas_corr (Some d) metodo
    = (mk_effects [] [drawn], Ok 0%Z)
    /\ length drawn = length corr
    /\ (forall row, In row drawn -> length row = length corr)
    /\ forall i j, (i < length corr)%nat -> (j < length corr)%nat ->
         nth j (nth i drawn []) NaN
         = if Nat.eqb i j then Fin 0 else nth j (nth i corr []) NaN.
Proof.
  intros Hc Hsq. unfold get_corr_matrix. rewrite Hc.
  exists (zero_diagonal corr). split; [reflexivity|].
  unfold zero_diagonal. split; [apply mapi_length|]. split.
  - intros row Hrow. apply (In_nth _ _ []) in Hrow.
    destruct Hrow as (i & Hi & <-). rewrite mapi_length in Hi.
    rewrite (nth_mapi _ corr i [] []) by assumption.
    rewrite set_nth_length. apply Hsq. apply nth_In. assumption.
  - intros i j Hi Hj.
    rewrite (nth_mapi _ corr i [] []) by assumption.
    rewrite nth_set_nth.
    + rewrite (Nat.eqb_sym j i). reflexivity.
    + rewrite (Hsq (nth i corr [])) by (apply nth_In; assumption).
      assumption.
Qed.

Lemma get_corr_matrix_zeroes_diagonal_witness :
  exists drawn,
    get_corr_matrix (fun _ _ => Ok [[Fin 1; Fin (1 / 2)]; [Fin (1 / 2); Fin 1]])
                    (Some example_df) "pearson"
    = (mk_effects [] [drawn], Ok 0%Z)
    /\ length drawn = 2%nat
    /\ (forall row, In row drawn -> length row = 2%nat)
    /\ forall i j, (i < 2)%nat -> (j < 2)%nat ->
         nth j (nth i drawn []) NaN
         = if Nat.eqb i j then Fin 0
           else nth j (nth i [[Fin 1; Fin (1 / 2)]; [Fin (1 / 2); Fin 1]] [])
                    NaN.
Proof.
  apply (get_corr_matrix_zeroes_diagonal
           (fun _ _ => Ok [[Fin 1; Fin (1 / 2)]; [Fin (1 / 2); Fin 1]])
           example_df "pearson"
           [[Fin 1; Fin (1 / 2)]; [Fin (1 / 2); Fin 1]]).
  - reflexivity.
  - intros row [<-|[<-|[]]]; reflexivity.
Defined.

(* ================================================================= *)
(** ** The two summaries: more than two target values *)

Lemma first_seen_In l : forall seen x,
  In x (first_seen l seen)
  <-> In x l /\ existsb (cell_eqb x) seen = false.
Proof.
  induction l as [|y l IH]; intros seen x; cbn [first_seen].
  - simpl. tauto.
  - destruct (existsb (cell_eqb y) seen) eqn:Ey.
    + rewrite IH. split.
      * intros [H1 H2]. split; [right; assumption|assumption].
      * intros [[<-|H1] H2]; [congruence|]. split; assumption.
    + cbn [In]. rewrite IH. cbn [existsb]. rewrite orb_false_iff. split.
      * intros [<-|[H1 [H2 H3]]].
        -- split; [left; reflexivity|assumption].
        -- split; [right; assumption|assumption].
      * intros [[<-|H1] H2]; [left; reflexivity|].
        destruct (cell_eq_dec y x) as [->|N]; [left; reflexivity|].
        right. split; [assumption|]. split; [|assumption].
        apply cell_eqb_false. congruence.
Qed.


Lemma three_values_counted s a b c :
  s_dtype s <> dt_category ->
  In a (s_values s) -> In b (s_values s) -> In c (s_values s) ->
  a <> NA -> b <> NA -> c <> NA -> a <> b -> a <> c -> b <> c ->
  (3 <= length (value_counts s))%nat.
Proof.
  intros Hdt Ha Hb Hc Na Nb Nc Hab Hac Hbc.
  rewrite value_counts_length by assumption.
  assert (Hdrop : forall x, In x (s_values s) -> x <> NA ->
                            In x (first_seen (dropna (s_values s)) [])).
  { intros x Hx Nx. apply first_seen_In. split; [|reflexivity].
    unfold dropna. apply filter_In. split; [assumption|].
    destruct x; [contradiction|reflexivity..]. }
  change 3%nat with (length [a; b; c]).
  apply NoDup_incl_length.
  - repeat constructor; simpl; intuition congruence.
  - intros x [<-|[<-|[<-|[]]]]; auto.
Qed.

(** With more than two distinct values the two new labels do not fit the
    columns. *)
Lemma renamed_distribution_many target selected :
  (3 <= length (value_counts selected))%nat ->
  renamed_distribution target selected = Raise ValueError.
Proof.
  intros H. unfold renamed_distribution, value_counts_frame, iloc, set_columns.
  cbn [f_rows f_columns nth_error snd].
  destruct (value_counts selected) as [|p [|q [|r vc]]];
    cbn [length] in H; try lia.
  cbn [map nth_error bind length seq Nat.eqb]. reflexivity.
Qed.

Lemma select_mask_In_true {A} (x : A) l mask :
  In x (select_mask l mask) -> (0 < count_true mask)%Z.
Proof.
  unfold count_true. revert mask.
  induction l as [|y l IH]; intros [|b mask]; cbn [select_mask];
    try (intros []).
  destruct b; cbn [filter length].
  - intros _. lia.
  - apply IH.
Qed.

Lemma count_true_isnull s : count_true (map isnull (s_values s)) = count_null s.
Proof.
  unfold count_true, count_null. f_equal.
  induction (s_values s) as [|c l IH]; [reflexivity|].
  cbn [map filter]. destruct (isnull c); cbn [length]; congruence.
Qed.

(** X11.  When the rows selected for a variable (its missing rows, or its
    outlier rows) carry three or more distinct target values, the two
    labels of the renaming step do not fit the columns and the call raises
    ValueError; no table is returned.  (The target is an ordinary column,
    not one of categorical dtype.) *)
Theorem many_target_values_raise :
  (forall pd_loan target pre i post acc s t a b c,
      null_values_loop pd_loan target pre [] = Ok acc ->
      getcol pd_loan i = Ok s ->
      getcol pd_loan target = Ok t ->
      s_dtype t <> dt_category ->
      In a (select_mask (s_values t) (map isnull (s_values s))) ->
      In b (select_mask (s_values t) (map isnull (s_values s))) ->
      In c (select_mask (s_values t) (map isnull (s_values s))) ->
      a <> NA -> b <> NA -> c <> NA -> a <> b -> a <> c -> b <> c ->
      get_percent_null_values_target pd_loan (pre ++ i :: post) target
      = ([], Raise ValueError))
  /\
  (forall pd_loan target multiplier pre i post acc s t xs a b c,
      deviation_loop pd_loan target multiplier pre [] = Ok acc ->
      getcol pd_loan i = Ok s ->
      getcol pd_loan target = Ok t ->
      s_dtype t <> dt_category ->
      numeric_values (s_values s) = Ok xs ->
      let std_amp := fmul multiplier (std_of xs) in
      let left := fsub (mean_of xs) std_amp in
      let right := fadd (mean_of xs) std_amp in
      In a (select_mask (s_values t) (excess_mask s left right)) ->
      In b (select_mask (s_values t) (excess_mask s left right)) ->
      In c (select_mask (s_values t) (excess_mask s left right)) ->
      a <> NA -> b <> NA -> c <> NA -> a <> b -> a <> c -> b <> c ->
      get_deviation_of_mean_perc pd_loan (pre ++ i :: post) target multiplier
      = ([], Raise ValueError)).
Proof.
  split.
  - intros pd_loan target pre i post acc s t a b c Hpre Hs Ht Hdt
           Ha Hb Hc Na Nb Nc Hab Hac Hbc.
    unfold get_percent_null_values_target.
    rewrite null_values_loop_app, Hpre. cbn [bind null_values_loop].
    rewrite Hs. cbn [bind].
    pose proof (select_mask_In_true _ _ _ Ha) as Hnull.
    rewrite count_true_isnull in Hnull.
    apply Z.ltb_lt in Hnull. rewrite Hnull, Ht. cbn [bind].
    rewrite renamed_distribution_many; [reflexivity|].
    apply (three_values_counted (select_rows t _) a b c); assumption.
  - intros pd_loan target multiplier pre i post acc s t xs a b c
           Hpre Hs Ht Hdt Hxs std_amp left right
           Ha Hb Hc Na Nb Nc Hab Hac Hbc.
    unfold get_deviation_of_mean_perc.
    rewrite deviation_loop_app, Hpre. cbn [bind deviation_loop].
    rewrite Hs. cbn [bind]. unfold column_mean, column_std.
    rewrite Hxs. cbn [bind].
    fold std_amp. fold left. fold right.
    pose proof (select_mask_In_true _ _ _ Ha) as Hex.
    assert (Hsize : (0 < Z.of_nat (length (s_values s)))%Z).
    { unfold count_true, excess_mask in Hex.
      destruct (s_values s); simpl in *; lia. }
    unfold py_int_div.
    destruct (Z.eqb_spec (Z.of_nat (length (s_values s))) 0); [lia|].
    cbn [bind].
    assert (Hpos : fltb (Fin 0)
                     (Fin (IZR (count_true (excess_mask s left right))
                           / IZR (Z.of_nat (length (s_values s))))) = true).
    { unfold fltb. destruct (Rlt_dec _ _) as [|N]; [reflexivity|].
      exfalso. apply N. apply Rdiv_lt_0_compat; apply IZR_lt; assumption. }
    rewrite Hpos, Ht. cbn [bind].
    rewrite renamed_distribution_many; [reflexivity|].
    apply (three_values_counted (select_rows t _) a b c); assumption.
Qed.

Lemma qz_inj a b : qz a = qz b -> a = b.
Proof.
  unfold qz. intros E. apply Q2Qc_eq_iff in E.
  unfold Qeq, inject_Z in E. cbn in E. lia.
Qed.

Lemma many_target_values_raise_witness :
  get_percent_null_values_target nulls_three_classes_df ([] ++ "x" :: [])
                                 "target"
  = ([], Raise ValueError)
  /\ get_deviation_of_mean_perc outliers_three_classes_df ([] ++ "x" :: [])
                                "target" (Fin 0)
     = ([], Raise ValueError).
Proof.
  split.
  - apply (proj1 many_target_values_raise nulls_three_classes_df "target"
             [] "x" [] []
             (mkSeries dt_float64 [] [NA; NA; NA])
             (mkSeries dt_int64 [] [Num (qz 0); Num (qz 1); Num (qz 2)])
             (Num (qz 0)) (Num (qz 1)) (Num (qz 2)));
      try reflexivity; try discriminate;
      try (cbn [s_values map isnull select_mask In]; tauto);
      intros E; injection E as E; apply qz_inj in E; discriminate.
  - apply (proj2 many_target_values_raise outliers_three_classes_df "target"
             (Fin 0) [] "x" [] []
             (mkSeries dt_int64 [] [Num (qz 0); Num (qz 0); Num (qz 3)])
             (mkSeries dt_int64 [] [Num (qz 0); Num (qz 1); Num (qz 2)])
             [qz 0; qz 0; qz 3]
             (Num (qz 0)) (Num (qz 1)) (Num (qz 2)));
      try reflexivity; try discriminate;
      try (rewrite outliers_mask; cbn [s_values select_mask In]; tauto);
      intros E; injection E as E; apply qz_inj in E; discriminate.
Defined.

(* ================================================================= *)
(** ** The two summaries: nothing to report *)

(** X12.  When no listed column has a missing value (in particular for an
    empty list), [get_percent_null_values_target] prints its message and
    returns the empty table; the target column is never read, so it need
    not exist. *)
Theorem no_null_values_reported pd_loan list_var_continuous target :
  (forall i, In i list_var_continuous ->
     exists s, getcol pd_loan i = Ok s /\ count_null s = 0%Z) ->
  get_percent_null_values_target pd_loan list_var_continuous target
  = ([no_nulls_message], Ok []).
Proof.
  intros H. unfold get_percent_null_values_target.
  assert (E : null_values_loop pd_loan target list_var_continuous [] = Ok []).
  { induction list_var_continuous as [|i rest IH]; [reflexivity|].
    cbn [null_values_loop].
    destruct (H i (or_introl eq_refl)) as (s & -> & Hz). cbn [bind].
    rewrite Hz. cbn [Z.ltb Z.compare].
    apply IH. intros j Hj. apply H. right. assumption. }
  rewrite E. reflexivity.
Qed.

Lemma no_null_values_reported_witness :
  get_percent_null_values_target example_df ["cat"; "target"] "objetivo"
  = ([no_nulls_message], Ok []).
Proof.
  apply (no_null_values_reported example_df ["cat"; "target"] "objetivo").
  intros i [<-|[<-|[]]]; eexists; split; reflexivity.
Defined.

Lemma fltb_nan_r a : fltb a NaN = false.
Proof. destruct a; reflexivity. Qed.

Lemma excess_mask_nan s :
  excess_mask s NaN NaN = map (fun _ => false) (s_values s).
Proof.
  unfold excess_mask. apply map_ext. intros c.
  unfold cell_lt, cell_gt. destruct c; reflexivity.
Qed.

Lemma count_true_all_false {A} (l : list A) :
  count_true (map (fun _ => false) l) = 0%Z.
Proof.
  unfold count_true. induction l as [|x l IH]; [reflexivity|].
  cbn [map filter]. exact IH.
Qed.

Lemma std_amp_undefined multiplier xs :
  (length xs < 2)%nat ->
  fsub (mean_of xs) (fmul multiplier (std_of xs)) = NaN
  /\ fadd (mean_of xs) (fmul multiplier (std_of xs)) = NaN.
Proof.
  intros H. unfold std_of. apply Nat.ltb_lt in H. rewrite H.
  assert (E : fmul multiplier NaN = NaN) by (destruct multiplier; reflexivity).
  rewrite E. destruct (mean_of xs); split; reflexivity.
Qed.

(** X13.  A column with fewer than two observations has no standard
    deviation, so none of its rows counts as an outlier: when every listed
    column is a non-empty numeric column with at most one non-missing
    value, [get_deviation_of_mean_perc] prints its message and returns the
    empty table, whatever the multiplier. *)
Theorem single_observation_never_flagged
    pd_loan list_var_continuous target multiplier :
  (forall i, In i list_var_continuous ->
     exists s xs, getcol pd_loan i = Ok s
                  /\ numeric_values (s_values s) = Ok xs
                  /\ (length xs < 2)%nat
                  /\ s_values s <> []) ->
  get_deviation_of_mean_perc pd_loan list_var_continuous target multiplier
  = ([no_nulls_message], Ok []).
Proof.
  intros H. unfold get_deviation_of_mean_perc.
  assert (E : deviation_loop pd_loan target multiplier list_var_continuous []
              = Ok []).
  { induction list_var_continuous as [|i rest IH]; [reflexivity|].
    cbn [deviation_loop].
    destruct (H i (or_introl eq_refl)) as (s & xs & -> & Hxs & Hlen & Hne).
    cbn [bind]. unfold column_mean, column_std. rewrite Hxs. cbn [bind].
    destruct (std_amp_undefined multiplier xs Hlen) as [-> ->].
    rewrite excess_mask_nan, count_true_all_false.
    unfold py_int_div.
    destruct (Z.eqb_spec (Z.of_nat (length (s_values s))) 0) as [Hz|Hz].
    { destruct (s_values s); [contradiction|discriminate]. }
    cbn [bind].
    assert (Hf : fltb (Fin 0) (Fin (0 / IZR (Z.of_nat (length (s_values s)))))
                 = false).
    { unfold fltb. destruct (Rlt_dec _ _) as [Hlt|]; [|reflexivity].
      unfold Rdiv in Hlt. rewrite Rmult_0_l in Hlt. lra. }
    rewrite Hf. apply IH. intros j Hj. apply H. right. assumption. }
  rewrite E. reflexivity.
Qed.

Lemma single_observation_never_flagged_witness :
  get_deviation_of_mean_perc single_observation_df ["x"] "target" (Fin 3)
  = ([no_nulls_message], Ok []).
Proof.
  apply (single_observation_never_flagged single_observation_df ["x"]
           "target" (Fin 3)).
  intros i [<-|[]].
  exists (mkSeries dt_float64 [] [Num (qz 7); NA]), [qz 7].
  repeat split; try reflexivity.
  - cbn. lia.
  - discriminate.
Defined.

(* ================================================================= *)
(** ** The two summaries: errors *)

(** X14.  On a DataFrame without rows, [get_deviation_of_mean_perc] raises
    ZeroDivisionError at the first listed (numeric) column: the shares are
    quotients of two Python ints, and the size of the column is 0. *)
Theorem deviation_without_rows_raises
    pd_loan target multiplier pre i post acc s :
  deviation_loop pd_loan target multiplier pre [] = Ok acc ->
  getcol pd_loan i = Ok s ->
  is_object_or_category (s_dtype s) = false ->
  s_values s = [] ->
  get_deviation_of_mean_perc pd_loan (pre ++ i :: post) target multiplier
  = ([], Raise ZeroDivisionError).
Proof.
  intros Hpre Hs _ Hv. unfold get_deviation_of_mean_perc.
  rewrite deviation_loop_app, Hpre. cbn [bind deviation_loop].
  rewrite Hs. cbn [bind]. unfold column_mean, column_std.
  rewrite Hv. cbn [numeric_values bind length]. reflexivity.
Qed.

Lemma deviation_without_rows_raises_witness :
  get_deviation_of_mean_perc no_rows_df ([] ++ "x" :: []) "target" (Fin 3)
  = ([], Raise ZeroDivisionError).
Proof.
  apply (deviation_without_rows_raises no_rows_df "target" (Fin 3)
           [] "x" [] [] (mkSeries dt_float64 [] [])); reflexivity.
Defined.

(** X15.  A listed variable that is not a column makes either summary
    raise KeyError, and so does a target that is not a column as soon as a
    variable with missing values is reached; no table is returned. *)
Theorem summaries_missing_column :
  (forall pd_loan target pre i post acc,
      null_values_loop pd_loan target pre [] = Ok acc ->
      lookup pd_loan i = None ->
      get_percent_null_values_target pd_loan (pre ++ i :: post) target
      = ([], Raise KeyError))
  /\ (forall pd_loan target multiplier pre i post acc,
        deviation_loop pd_loan target multiplier pre [] = Ok acc ->
        lookup pd_loan i = None ->
        get_deviation_of_mean_perc pd_loan (pre ++ i :: post) target
                                   multiplier
        = ([], Raise KeyError))
  /\ (forall pd_loan target pre i post acc s,
        null_values_loop pd_loan target pre [] = Ok acc ->
        getcol pd_loan i = Ok s ->
        (0 < count_null s)%Z ->
        lookup pd_loan target = None ->
        get_percent_null_values_target pd_loan (pre ++ i :: post) target
        = ([], Raise KeyError)).
Proof.
  repeat split.
  - intros pd_loan target pre i post acc Hpre Hi.
    unfold get_percent_null_values_target.
    rewrite null_values_loop_app, Hpre. cbn [bind null_values_loop].
    unfold getcol. rewrite Hi. reflexivity.
  - intros pd_loan target multiplier pre i post acc Hpre Hi.
    unfold get_deviation_of_mean_perc.
    rewrite deviation_loop_app, Hpre. cbn [bind deviation_loop].
    unfold getcol. rewrite Hi. reflexivity.
  - intros pd_loan target pre i post acc s Hpre Hs Hnull Ht.
    unfold get_percent_null_values_target.
    rewrite null_values_loop_app, Hpre. cbn [bind null_values_loop].
    rewrite Hs. cbn [bind]. apply Z.ltb_lt in Hnull. rewrite Hnull.
    unfold getcol. rewrite Ht. reflexivity.
Qed.

Lemma summaries_missing_column_witness :
  get_percent_null_values_target example_df ([] ++ "edad" :: []) "target"
  = ([], Raise KeyError)
  /\ get_deviation_of_mean_perc example_df ([] ++ "edad" :: []) "target"
                                (Fin 3)
     = ([], Raise KeyError)
  /\ get_percent_null_values_target nulls_single_class_df ([] ++ "x" :: [])
                                    "objetivo"
     = ([], Raise KeyError).
Proof.
  split; [|split].
  - apply (proj1 summaries_missing_column example_df "target" [] "edad" [] []);
      reflexivity.
  - apply (proj1 (proj2 summaries_missing_column) example_df "target" (Fin 3)
             [] "edad" [] []); reflexivity.
  - apply (proj2 (proj2 summaries_missing_column) nulls_single_class_df
             "objetivo" [] "x" [] [] (mkSeries dt_float64 [] (ten NA NA)));
      reflexivity.
Defined.

(* ================================================================= *)
(** ** The two summaries: the rows returned *)

Lemma set_scalar_fresh fr label v :
  ~ In (VCell (Str label)) (f_columns fr) ->
  set_scalar fr label v
  = mk_frame (f_columns fr ++ [VCell (Str label)])
             (map (fun r => (fst r, snd r ++ [v])) (f_rows fr)).
Proof.
  intros H. unfold set_scalar.
  assert (E : existsb (fun c => if pyval_eq_dec c (VCell (Str label))
                                then true else false) (f_columns fr)
              = false).
  { apply not_true_is_false. intros Hex. apply existsb_exists in Hex.
    destruct Hex as (c & Hc & Hd).
    destruct (pyval_eq_dec c (VCell (Str label))); [|discriminate].
    subst c. contradiction. }
  rewrite E. reflexivity.
Qed.

(** The table of the renaming step, when the selected rows carry exactly
    two target values. *)
Lemma renamed_distribution_two target selected a b na nb :
  value_counts selected = [(Num a, na); (Num b, nb)] ->
  renamed_distribution target selected
  = Ok (mk_frame
          [VCell (Num a); VCell (Num b)]
          [ (target, [VCell (Num a); VCell (Num b)]);
            ("proportion",
             [ VFloat (fdiv (of_Z (Z.of_nat na))
                            (of_Z (Z.of_nat
                                     (length (dropna (s_values selected))))));
               VFloat (fdiv (of_Z (Z.of_nat nb))
                            (of_Z (Z.of_nat
                                     (length (dropna (s_values selected))))))
             ]) ]).
Proof.
  intros H. unfold renamed_distribution, value_counts_frame. rewrite H.
  reflexivity.
Qed.

Ltac fresh_label :=
  cbn [f_columns app In];
  intros Hin;
  repeat (destruct Hin as [Hin|Hin]; [discriminate Hin|]);
  exact Hin.



(** X17.  When the outlier rows of a variable carry exactly two (numeric)
    target values, [get_deviation_of_mean_perc] appends one row for it:
    the shares of the two target values among the outliers, the variable,
    the number of outliers under [sum_outlier_values], and the share of
    outliers among all rows under the label [porcentaje_sum_null_values].
    (A target named [proportion] is set aside.) *)
Theorem deviation_summary_row
    pd_loan target multiplier pre i acc s t xs a b na nb :
  deviation_loop pd_loan target multiplier pre [] = Ok acc ->
  getcol pd_loan i = Ok s ->
  getcol pd_loan target = Ok t ->
  numeric_values (s_values s) = Ok xs ->
  target <> "proportion" ->
  let std_amp := fmul multiplier (std_of xs) in
  let left := fsub (mean_of xs) std_amp in
  let right := fadd (mean_of xs) std_amp in
  (0 < count_true (excess_mask s left right))%Z ->
  value_counts (select_rows t (excess_mask s left right))
  = [(Num a, na); (Num b, nb)] ->
  let n := Z.of_nat (length (dropna (select_mask (s_values t)
                                       (excess_mask s left right)))) in
  get_deviation_of_mean_perc pd_loan (pre ++ [i]) target multiplier
  = ([],
     Ok (acc
         ++ [ summary_row a b
                (VFloat (fdiv (of_Z (Z.of_nat na)) (of_Z n)))
                (VFloat (fdiv (of_Z (Z.of_nat nb)) (of_Z n)))
                i "sum_outlier_values"
                (count_true (excess_mask s left right))
                (Fin (IZR (count_true (excess_mask s left right))
                      / IZR (Z.of_nat (length (s_values s))))) ])).
Proof.
  intros Hpre Hs Ht Hxs Htp std_amp left right Hex Hvc n.
  unfold get_deviation_of_mean_perc.
  rewrite deviation_loop_app, Hpre. cbn [bind deviation_loop].
  rewrite Hs. cbn [bind]. unfold column_mean, column_std.
  rewrite Hxs. cbn [bind].
  fold std_amp. fold left. fold right.
  assert (Hsize : (0 < Z.of_nat (length (s_values s)))%Z).
  { unfold count_true, excess_mask in Hex.
    destruct (s_values s); simpl in *; lia. }
  unfold py_int_div.
  destruct (Z.eqb_spec (Z.of_nat (length (s_values s))) 0); [lia|].
  cbn [bind].
  assert (Hpos : fltb (Fin 0)
                   (Fin (IZR (count_true (excess_mask s left right))
                         / IZR (Z.of_nat (length (s_values s))))) = true).
  { unfold fltb. destruct (Rlt_dec _ _) as [|N]; [reflexivity|].
    exfalso. apply N. apply Rdiv_lt_0_compat; apply IZR_lt; assumption. }
  rewrite Hpos, Ht. cbn [bind].
  rewrite (renamed_distribution_two target _ a b na nb Hvc). cbn [bind].
  cbn [select_rows s_values]. fold n.
  unfold drop_row. cbn [f_rows f_columns existsb fst].
  rewrite String.eqb_refl. cbn [orb bind filter fst].
  assert (E1 : String.eqb "proportion" target = false).
  { apply String.eqb_neq. congruence. }
  rewrite String.eqb_refl, E1. cbn [negb].
  rewrite set_scalar_fresh by fresh_label.
  cbn [f_columns f_rows map fst snd app].
  rewrite set_scalar_fresh by fresh_label.
  cbn [f_columns f_rows map fst snd app].
  rewrite set_scalar_fresh by fresh_label.
  cbn [f_columns f_rows map fst snd app].
  unfold concat_rows, frame_rows. cbn [f_columns f_rows map snd combine].
  destruct (acc ++ _) eqn:E; [|reflexivity].
  apply app_eq_nil in E. destruct E as [_ E]. discriminate E.
Qed.

Lemma deviation_summary_row_witness :
  get_deviation_of_mean_perc outliers_two_classes_df ([] ++ ["x"]) "target"
                             (Fin 0)
  = ([],
     Ok ([]
         ++ [ summary_row (qz 0) (qz 1)
                (VFloat (fdiv (of_Z (Z.of_nat 2)) (of_Z 3)))
                (VFloat (fdiv (of_Z (Z.of_nat 1)) (of_Z 3)))
                "x" "sum_outlier_values" 3
                (Fin (IZR 3 / IZR (Z.of_nat 3))) ])).
Proof.
  pose proof (deviation_summary_row outliers_two_classes_df "target" (Fin 0)
                [] "x" []
                (mkSeries dt_int64 [] [Num (qz 0); Num (qz 0); Num (qz 3)])
                (mkSeries dt_int64 [] [Num (qz 0); Num (qz 1); Num (qz 0)])
                [qz 0; qz 0; qz 3] (qz 0) (qz 1) 2%nat 1%nat
                eq_refl eq_refl eq_refl eq_refl) as H.
  cbv zeta in H. rewrite outliers_mask in H.
  apply H.
  - discriminate.
  - reflexivity.
  - vm_compute. reflexivity.
Defined.

(* ================================================================= *)
(** ** The range of Cramer's V *)

(** *** Sums of reals *)

Lemma rsum_map_add {K} (g h : K -> R) l :
  rsum (map (fun c => (g c + h c)%R) l)
  = (rsum (map g l) + rsum (map h l))%R.
Proof.
  unfold rsum. induction l as [|x l IH]; simpl; [ring|]. rewrite IH. ring.
Qed.

Lemma rsum_le {K} (g h : K -> R) l :
  (forall c, In c l -> (g c <= h c)%R) ->
  (rsum (map g l) <= rsum (map h l))%R.
Proof.
  unfold rsum. induction l as [|x l IH]; intros H; simpl; [lra|].
  assert (g x <= h x)%R by (apply H; left; reflexivity).
  assert (fold_right Rplus 0 (map g l) <= fold_right Rplus 0 (map h l))%R
    by (apply IH; intros c Hc; apply H; right; assumption).
  lra.
Qed.

Lemma rsum_nonneg {K} (g : K -> R) l :
  (forall c, In c l -> (0 <= g c)%R) -> (0 <= rsum (map g l))%R.
Proof.
  unfold rsum. induction l as [|x l IH]; intros H; simpl; [lra|].
  assert (0 <= g x)%R by (apply H; left; reflexivity).
  assert (0 <= fold_right Rplus 0 (map g l))%R
    by (apply IH; intros c Hc; apply H; right; assumption).
  lra.
Qed.

Lemma rsum_zero {K} (l : list K) : rsum (map (fun _ => 0%R) l) = 0%R.
Proof. unfold rsum. induction l as [|x l IH]; simpl; [reflexivity|lra]. Qed.

Lemma rsum_swap {K L} (g : K -> L -> R) rows cols :
  rsum (map (fun a => rsum (map (fun c => g a c) cols)) rows)
  = rsum (map (fun c => rsum (map (fun a => g a c) rows)) cols).
Proof.
  induction rows as [|a rows IH].
  - cbn [map]. change (0 = rsum (map (fun _ : L => 0) cols))%R.
    symmetry. apply rsum_zero.
  - cbn [map].
    change (rsum (rsum (map (fun c => g a c) cols)
                  :: map (fun a0 => rsum (map (fun c => g a0 c) cols)) rows))
      with (rsum (map (fun c => g a c) cols)
            + rsum (map (fun a0 => rsum (map (fun c => g a0 c) cols)) rows))%R.
    rewrite IH, <- rsum_map_add. reflexivity.
Qed.

Lemma zsum_member_le {K} (g : K -> Z) l a :
  (forall x, In x l -> (0 <= g x)%Z) -> In a l -> (g a <= zsum (map g l))%Z.
Proof.
  induction l as [|x l IH]; intros H Ha; [destruct Ha|].
  change (zsum (map g (x :: l))) with (g x + zsum (map g l))%Z.
  assert (0 <= g x)%Z by (apply H; left; reflexivity).
  assert (0 <= zsum (map g l))%Z.
  { apply zsum_nonneg. intros y Hy. apply in_map_iff in Hy.
    destruct Hy as (z & <- & Hz). apply H. right. assumption. }
  destruct Ha as [->|Ha]; [lia|].
  assert (g a <= zsum (map g l))%Z
    by (apply IH; [intros y Hy; apply H; right|]; assumption).
  lia.
Qed.

(** *** The terms of the statistic *)

Lemma pearsonR_nonneg o e : (0 < e)%R -> (0 <= pearsonR o e)%R.
Proof.
  intros He. unfold pearsonR. apply Rmult_le_pos.
  - apply Rle_0_sqr.
  - left. apply Rinv_0_lt_compat. assumption.
Qed.

Lemma yatesR_bounds o e :
  (0 < e)%R -> (0 <= yatesR o e <= pearsonR o e)%R.
Proof.
  intros He. unfold yatesR, pearsonR.
  set (d := Rabs (o - e)).
  assert (Hd : (0 <= d)%R) by apply Rabs_pos.
  assert (Hm : (0 <= Rmin (1 / 2) d <= d)%R).
  { unfold Rmin. destruct (Rle_dec (1 / 2) d); lra. }
  assert (Hsq : ((o - e) * (o - e) = d * d)%R).
  { unfold d. unfold Rabs. destruct (Rcase_abs (o - e)); ring. }
  rewrite Hsq.
  assert (Hi : (0 < / e)%R) by (apply Rinv_0_lt_compat; assumption).
  unfold Rdiv. split.
  - apply Rmult_le_pos; [apply Rle_0_sqr | lra].
  - apply Rmult_le_compat_r; [lra|]. nra.
Qed.

Section StatisticBound.
Context {A B : Type} (rows : list A) (cols : list B) (f : A -> B -> Z).
Hypothesis rows_nonempty : rows <> [].
Hypothesis cols_nonempty : cols <> [].
Hypothesis nonneg : forall a c, In a rows -> In c cols -> (0 <= f a c)%Z.
Hypothesis row_pos : forall a, In a rows -> (0 < tab_row cols f a)%Z.
Hypothesis col_pos : forall c, In c cols -> (0 < tab_col rows f c)%Z.

Let N := IZR (tab_total rows cols f).

Lemma bound_total_pos : (0 < N)%R.
Proof.
  unfold N. apply IZR_lt.
  apply (total_pos rows cols f rows_nonempty row_pos).
Qed.

Lemma col_totals_sum :
  rsum (map (fun c => IZR (tab_col rows f c)) cols) = N.
Proof.
  unfold N. rewrite <- (tab_total_swap rows cols f).
  unfold tab_total. rewrite IZR_zsum, map_map. reflexivity.
Qed.

Lemma row_cells_sum a :
  rsum (map (fun c => IZR (f a c)) cols) = IZR (tab_row cols f a).
Proof. unfold tab_row. rewrite IZR_zsum, map_map. reflexivity. Qed.

Lemma row_totals_sum :
  rsum (map (fun a => IZR (tab_row cols f a)) rows) = N.
Proof. unfold N, tab_total. rewrite IZR_zsum, map_map. reflexivity. Qed.

(** One term of the Pearson sum, bounded by a linear expression. *)
Lemma pearson_term_bound a c :
  In a rows -> In c cols ->
  (pearsonR (IZR (f a c)) (expectedR rows cols f a c)
   <= (N / IZR (tab_row cols f a) - 2) * IZR (f a c)
      + IZR (tab_row cols f a) / N * IZR (tab_col rows f c))%R.
Proof.
  intros Ha Hc. unfold expectedR. fold N.
  pose proof bound_total_pos as HN.
  assert (HR : (0 < IZR (tab_row cols f a))%R) by (apply IZR_lt; auto).
  assert (HC : (0 < IZR (tab_col rows f c))%R) by (apply IZR_lt; auto).
  assert (Ho : (0 <= IZR (f a c))%R) by (apply IZR_le; auto).
  assert (HoC : (IZR (f a c) <= IZR (tab_col rows f c))%R).
  { apply IZR_le. unfold tab_col.
    apply (zsum_member_le (fun a0 => f a0 c) rows a); [|assumption].
    intros x Hx. auto. }
  set (o := IZR (f a c)) in *. set (Ra := IZR (tab_row cols f a)) in *.
  set (Cc := IZR (tab_col rows f c)) in *.
  unfold pearsonR.
  replace ((o - Ra * Cc / N) * (o - Ra * Cc / N) / (Ra * Cc / N))%R
    with (o * N / Ra * (o / Cc) - 2 * o + Ra / N * Cc)%R
    by (field; repeat split; lra).
  assert (H1 : (o / Cc <= 1)%R).
  { apply Rmult_le_reg_r with Cc; [assumption|].
    replace (o / Cc * Cc)%R with o by (field; lra). lra. }
  assert (H2 : (0 <= o * N / Ra)%R).
  { unfold Rdiv. apply Rmult_le_pos; [apply Rmult_le_pos; lra|].
    left. apply Rinv_0_lt_compat. assumption. }
  assert (H3 : (o * N / Ra * (o / Cc) <= o * N / Ra * 1)%R)
    by (apply Rmult_le_compat_l; assumption).
  replace ((N / Ra - 2) * o)%R with (o * N / Ra * 1 - 2 * o)%R
    by (field; lra).
  lra.
Qed.

Lemma pearson_row_bound a :
  In a rows ->
  (rsum (map (fun c => pearsonR (IZR (f a c)) (expectedR rows cols f a c))
             cols)
   <= N - IZR (tab_row cols f a))%R.
Proof.
  intros Ha. pose proof bound_total_pos as HN.
  assert (HR : (0 < IZR (tab_row cols f a))%R) by (apply IZR_lt; auto).
  eapply Rle_trans.
  - apply rsum_le. intros c Hc. apply pearson_term_bound; assumption.
  - rewrite (rsum_map_add
               (fun c => ((N / IZR (tab_row cols f a) - 2) * IZR (f a c))%R)
               (fun c => (IZR (tab_row cols f a) / N
                          * IZR (tab_col rows f c))%R)).
    rewrite !rsum_scale, row_cells_sum, col_totals_sum.
    right. field. split; lra.
Qed.

(** The Pearson sum is at most (r - 1) n. *)
Lemma pearson_sum_bound :
  (rsum (map (fun a => rsum (map (fun c =>
           pearsonR (IZR (f a c)) (expectedR rows cols f a c)) cols)) rows)
   <= (INR (length rows) - 1) * N)%R.
Proof.
  eapply Rle_trans.
  - apply rsum_le. intros a Ha. apply pearson_row_bound. assumption.
  - rewrite (rsum_const_minus N (fun a => IZR (tab_row cols f a)) rows).
    rewrite row_totals_sum. right. ring.
Qed.

Lemma pearson_sum_nonneg :
  (0 <= rsum (map (fun a => rsum (map (fun c =>
            pearsonR (IZR (f a c)) (expectedR rows cols f a c)) cols)) rows))%R.
Proof.
  apply rsum_nonneg. intros a Ha. apply rsum_nonneg. intros c Hc.
  apply pearsonR_nonneg.
  apply (expectedR_pos rows cols f rows_nonempty row_pos col_pos);
    assumption.
Qed.

Lemma chi2R_le_pearson :
  (0 <= chi2R rows cols f
   <= rsum (map (fun a => rsum (map (fun c =>
            pearsonR (IZR (f a c)) (expectedR rows cols f a c)) cols)) rows))%R.
Proof.
  unfold chi2R.
  destruct (dof_of (length rows) (length cols) =? 0)%Z.
  - split; [lra | apply pearson_sum_nonneg].
  - unfold termR. destruct (dof_of (length rows) (length cols) =? 1)%Z.
    + split.
      * apply rsum_nonneg. intros a Ha. apply rsum_nonneg. intros c Hc.
        apply yatesR_bounds.
        apply (expectedR_pos rows cols f rows_nonempty row_pos col_pos);
          assumption.
      * apply rsum_le. intros a Ha. apply rsum_le. intros c Hc.
        apply yatesR_bounds.
        apply (expectedR_pos rows cols f rows_nonempty row_pos col_pos);
          assumption.
    + split; [apply pearson_sum_nonneg | lra].
Qed.
End StatisticBound.

Lemma expectedR_swap {A B} (rows : list A) (cols : list B) f a c :
  expectedR cols rows (fun c a => f a c) c a = expectedR rows cols f a c.
Proof.
  unfold expectedR. rewrite tab_total_swap.
  change (tab_row rows (fun c0 a0 => f a0 c0) c) with (tab_col rows f c).
  change (tab_col cols (fun c0 a0 => f a0 c0) a) with (tab_row cols f a).
  f_equal. ring.
Qed.

Section StatisticRange.
Context {A B : Type} (rows : list A) (cols : list B) (f : A -> B -> Z).
Hypothesis rows_nonempty : rows <> [].
Hypothesis cols_nonempty : cols <> [].
Hypothesis nonneg : forall a c, In a rows -> In c cols -> (0 <= f a c)%Z.
Hypothesis row_pos : forall a, In a rows -> (0 < tab_row cols f a)%Z.
Hypothesis col_pos : forall c, In c cols -> (0 < tab_col rows f c)%Z.

(** The statistic lies between 0 and n min(r - 1, k - 1). *)
Lemma chi2R_range :
  (0 <= chi2R rows cols f)%R
  /\ (chi2R rows cols f
      <= (INR (length rows) - 1) * IZR (tab_total rows cols f))%R
  /\ (chi2R rows cols f
      <= (INR (length cols) - 1) * IZR (tab_total rows cols f))%R.
Proof.
  destruct (chi2R_le_pearson rows cols f rows_nonempty row_pos col_pos)
    as [H0 H1].
  split; [assumption|]. split.
  - eapply Rle_trans; [exact H1|].
    apply (pearson_sum_bound rows cols f rows_nonempty nonneg row_pos col_pos).
  - eapply Rle_trans; [exact H1|].
    rewrite (rsum_swap (fun a c => pearsonR (IZR (f a c))
                                     (expectedR rows cols f a c)) rows cols).
    rewrite <- (tab_total_swap rows cols f).
    rewrite (rsum_map_ext_in _
               (fun c => rsum (map (fun a =>
                  pearsonR (IZR (f a c))
                           (expectedR cols rows (fun c a => f a c) c a))
                  rows)) cols)
      by (intros c _; apply rsum_map_ext_in; intros a _;
          rewrite expectedR_swap; reflexivity).
    apply (pearson_sum_bound cols rows (fun c a => f a c) cols_nonempty).
    + intros c a Hc Ha. apply nonneg; assumption.
    + exact col_pos.
    + exact row_pos.
Qed.
End StatisticRange.

(** *** From the statistic to V *)

Lemma fsqrt_nonneg y : (0 <= y)%R -> fsqrt (Fin y) = Fin (sqrt y).
Proof.
  intros Hy. unfold fsqrt, sgn.
  destruct (Rlt_dec 0 y); [reflexivity|].
  destruct (Rlt_dec y 0); [lra|reflexivity].
Qed.

Lemma maximum_zero_Fin y :
  maximum (Fin 0) (Fin y) = Fin (if Rlt_dec 0 y then y else 0).
Proof. unfold maximum, fltb. destruct (Rlt_dec 0 y); reflexivity. Qed.

(** With a statistic between 0 and n min(r - 1, k - 1), the formula gives
    NaN or a number between 0 and 1. *)
Lemma formula_range x r k n :
  (1 <= r)%Z -> (1 <= k)%Z -> (r <= n)%Z -> (k <= n)%Z ->
  (0 <= x)%R ->
  (x <= (IZR r - 1) * IZR n)%R -> (x <= (IZR k - 1) * IZR n)%R ->
  unit_or_nan (cramers_v_formula (Fin x) r k n).
Proof.
  intros Hr Hk Hrn Hkn Hx Hxr Hxk.
  destruct (Z.eq_dec n 1) as [->|Hn1].
  - assert (r = 1%Z) by lia. assert (k = 1%Z) by lia. subst r k.
    left. unfold cramers_v_formula, of_Z.
    cbn [Z.sub Z.mul Z.opp Z.add Z.pos_sub]. cbn [fmul].
    rewrite Rmult_0_l.
    assert (E : fdiv (Fin 0) (Fin 0) = NaN).
    { unfold fdiv. destruct (Req_dec_T 0 0); [|lra].
      rewrite sgn_zero. reflexivity. }
    rewrite E. cbn [fsub fadd fopp].
    destruct (fdiv (Fin x) (Fin 1)); reflexivity.
  - unfold cramers_v_formula, of_Z. cbn [fmul]. rewrite !minus_IZR.
    assert (HR : (1 <= IZR r)%R) by (apply IZR_le; assumption).
    assert (HK : (1 <= IZR k)%R) by (apply IZR_le; assumption).
    assert (HRN : (IZR r <= IZR n)%R) by (apply IZR_le; assumption).
    assert (HKN : (IZR k <= IZR n)%R) by (apply IZR_le; assumption).
    assert (HN : (2 <= IZR n)%R) by (apply IZR_le; lia).
    set (R := IZR r) in *. set (K := IZR k) in *. set (N := IZR n) in *.
    rewrite !fdiv_Fin by lra. cbn [fsub].
    rewrite minimum_Fin, maximum_zero_Fin.
    set (phi := (x / N)%R).
    assert (Hphi0 : (0 <= phi)%R).
    { unfold phi, Rdiv. apply Rmult_le_pos; [assumption|].
      left. apply Rinv_0_lt_compat. lra. }
    assert (HphiR : (phi <= R - 1)%R).
    { unfold phi. apply Rmult_le_reg_r with N; [lra|].
      replace (x / N * N)%R with x by (field; lra). lra. }
    assert (HphiK : (phi <= K - 1)%R).
    { unfold phi. apply Rmult_le_reg_r with N; [lra|].
      replace (x / N * N)%R with x by (field; lra). lra. }
    set (p := (phi - (K - 1) * (R - 1) / (N - 1))%R).
    set (kc := (K - (K - 1) * (K - 1) / (N - 1) - 1)%R).
    set (rc := (R - (R - 1) * (R - 1) / (N - 1) - 1)%R).
    assert (Ekc : (kc * (N - 1) = (K - 1) * (N - K))%R)
      by (unfold kc; field; lra).
    assert (Erc : (rc * (N - 1) = (R - 1) * (N - R))%R)
      by (unfold rc; field; lra).
    assert (Ep : (p * (N - 1) = phi * (N - 1) - (K - 1) * (R - 1))%R)
      by (unfold p; field; lra).
    assert (Hkc0 : (0 <= kc)%R).
    { apply Rmult_le_reg_r with (N - 1)%R; [lra|]. rewrite Ekc. nra. }
    assert (Hrc0 : (0 <= rc)%R).
    { apply Rmult_le_reg_r with (N - 1)%R; [lra|]. rewrite Erc. nra. }
    assert (Hpk : (p <= kc)%R).
    { apply Rmult_le_reg_r with (N - 1)%R; [lra|]. rewrite Ekc, Ep.
      destruct (Rle_lt_dec K R) as [HKR|HKR].
      - assert (phi * (N - 1) <= (K - 1) * (N - 1))%R
          by (apply Rmult_le_compat_r; lra).
        nra.
      - assert (phi * (N - 1) <= (R - 1) * (N - 1))%R
          by (apply Rmult_le_compat_r; lra).
        assert (0 <= (K - R) * (N - K))%R by (apply Rmult_le_pos; lra).
        nra. }
    assert (Hpr : (p <= rc)%R).
    { apply Rmult_le_reg_r with (N - 1)%R; [lra|]. rewrite Erc, Ep.
      destruct (Rle_lt_dec R K) as [HKR|HKR].
      - assert (phi * (N - 1) <= (R - 1) * (N - 1))%R
          by (apply Rmult_le_compat_r; lra).
        nra.
      - assert (phi * (N - 1) <= (K - 1) * (N - 1))%R
          by (apply Rmult_le_compat_r; lra).
        assert (0 <= (R - K) * (N - R))%R by (apply Rmult_le_pos; lra).
        nra. }
    set (d := Rmin kc rc).
    assert (Hd0 : (0 <= d)%R) by (unfold d, Rmin; destruct (Rle_dec kc rc); lra).
    assert (Hpd : (p <= d)%R) by (unfold d, Rmin; destruct (Rle_dec kc rc); lra).
    destruct (Rlt_dec 0 p) as [Hp|Hp].
    + right. rewrite fdiv_Fin by lra.
      assert (Hq : (0 <= p / d <= 1)%R).
      { split.
        - unfold Rdiv. apply Rmult_le_pos; [lra|].
          left. apply Rinv_0_lt_compat. lra.
        - apply Rmult_le_reg_r with d; [lra|].
          replace (p / d * d)%R with p by (field; lra). lra. }
      rewrite fsqrt_nonneg by lra.
      eexists. split; [reflexivity|]. split; [apply sqrt_pos|].
      rewrite <- sqrt_1. apply sqrt_le_1; lra.
    + destruct (Req_dec_T d 0) as [Ed|Nd].
      * left. rewrite Ed. unfold fdiv.
        destruct (Req_dec_T 0 0); [|lra]. rewrite sgn_zero. reflexivity.
      * right. rewrite fdiv_Fin by assumption.
        replace (0 / d)%R with 0%R by (field; assumption).
        rewrite fsqrt_nonneg by lra. rewrite sqrt_0.
        exists 0%R. split; [reflexivity|lra].
Qed.

Section RangeOfV.
Context {A B : Type} (rows : list A) (cols : list B) (f : A -> B -> Z).
Hypothesis rows_nonempty : rows <> [].
Hypothesis cols_nonempty : cols <> [].
Hypothesis nonneg : forall a c, In a rows -> In c cols -> (0 <= f a c)%Z.
Hypothesis row_pos : forall a, In a rows -> (0 < tab_row cols f a)%Z.
Hypothesis col_pos : forall c, In c cols -> (0 < tab_col rows f c)%Z.

Lemma cramers_v_tab_range :
  exists v, cramers_v (tab rows cols f) = Ok v /\ unit_or_nan v.
Proof.
  rewrite (cramers_v_tab_wf rows cols f rows_nonempty cols_nonempty
             nonneg row_pos col_pos).
  eexists. split; [reflexivity|].
  destruct (chi2R_range rows cols f rows_nonempty cols_nonempty nonneg
              row_pos col_pos) as (H0 & H1 & H2).
  rewrite !INR_IZR_INZ in *.
  pose proof (total_ge_rows rows cols f row_pos).
  pose proof (total_ge_cols rows cols f col_pos).
  assert (1 <= length rows)%nat
    by (clear - rows_nonempty; destruct rows; [contradiction|simpl; lia]).
  assert (1 <= length cols)%nat
    by (clear - cols_nonempty; destruct cols; [contradiction|simpl; lia]).
  apply formula_range; try assumption; lia.
Qed.
End RangeOfV.

(** X18.  On a contingency table of non-negative counts with no empty row
    or column, [cramers_v] returns NaN or a number between 0 and 1 (in
    exact arithmetic): never a negative number, a number above 1 or an
    infinity. *)
Theorem cramers_v_range m :
  well_formed_table m ->
  exists v, cramers_v m = Ok v
            /\ (v = NaN \/ exists x, v = Fin x /\ (0 <= x <= 1)%R).
Proof.
  intros wf.
  destruct (cramers_v_tab_range
              (seq 0 (fst (shape m))) (seq 0 (snd (shape m))) (cell_at m)
              (wf_rows_nonempty m wf) (wf_cols_nonempty m wf)
              (wf_nonneg m wf) (wf_row_pos m wf) (wf_col_pos m wf))
    as (v & Hv & Hrange).
  rewrite <- (wf_is_tab m wf) in Hv. exists v. split; assumption.
Qed.

Lemma cramers_v_range_witness :
  exists v, cramers_v diag2 = Ok v
            /\ (v = NaN \/ exists x, v = Fin x /\ (0 <= x <= 1)%R).
Proof. exact (cramers_v_range diag2 diag2_wf). Defined.

Lemma cramers_v_empty : cramers_v [] = Raise ValueError.
Proof. reflexivity. Qed.

(** Cramer's V of two columns, when it is defined. *)
Lemma cramers_v_crosstab_range a b v :
  cramers_v (crosstab a b) = Ok v -> unit_or_nan v.
Proof.
  intros Hv.
  assert (Hne : pairs_of a b <> []).
  { intros E. rewrite crosstab_tab, E in Hv. discriminate Hv. }
  rewrite crosstab_tab in Hv.
  set (pairs := pairs_of a b) in *.
  assert (Hr : unique (map fst pairs) <> []).
  { rewrite unique_nil_iff. destruct pairs; [contradiction|discriminate]. }
  assert (Hc : unique (map snd pairs) <> []).
  { rewrite unique_nil_iff. destruct pairs; [contradiction|discriminate]. }
  destruct (cramers_v_tab_range (unique (map fst pairs))
              (unique (map snd pairs)) (pair_count pairs) Hr Hc)
    as (v' & Hv' & Hrange).
  - intros r c _ _. unfold pair_count. lia.
  - intros r Hin. unfold tab_row.
    rewrite pair_count_row_total.
    + apply first_count_pos. apply unique_In. assumption.
    + apply unique_NoDup.
    + intros p Hp. apply unique_In. apply in_map. assumption.
  - intros c Hin. unfold tab_col.
    rewrite pair_count_col_total.
    + apply second_count_pos. apply unique_In. assumption.
    + apply unique_NoDup.
    + intros p Hp. apply unique_In. apply in_map. assumption.
  - rewrite Hv in Hv'. injection Hv' as <-. assumption.
Qed.

(** X19.  Every cell of the matrix returned by [cramer_matrix] is NaN or a
    number between 0 and 1 (in exact arithmetic). *)
Theorem cramer_matrix_range data categorical_vars m row e :
  cramer_matrix data categorical_vars = Ok m ->
  In row m -> In e (snd row) ->
  snd e = NaN \/ exists x, snd e = Fin x /\ (0 <= x <= 1)%R.
Proof.
  intros Hm Hrow He.
  destruct (cramer_matrix_value _ _ _ Hm) as [-> Hall].
  unfold filled in Hrow. apply in_map_iff in Hrow.
  destruct Hrow as (r & <- & Hr). cbn [snd] in He.
  apply in_map_iff in He. destruct He as (c & <- & Hc). cbn [snd].
  specialize (Hall r c Hr Hc). unfold cramers_v_of in *.
  destruct (getcol data r) as [a|]; cbn [bind] in *; [|discriminate].
  destruct (getcol data c) as [b|]; cbn [bind] in *; [|discriminate].
  destruct (cramers_v (crosstab a b)) as [v|] eqn:Ev; [|discriminate].
  cbn [value_or_nan]. exact (cramers_v_crosstab_range a b v Ev).
Qed.

Lemma cramer_matrix_range_witness :
  snd ("c2", Fin 0) = NaN
  \/ exists x, snd ("c2", Fin 0) = Fin x /\ (0 <= x <= 1)%R.
Proof.
  apply (cramer_matrix_range two_binary_df ["c1"; "c2"]
           [ ("c1", [("c1", Fin 0); ("c2", Fin 0)]);
             ("c2", [("c1", Fin 0); ("c2", Fin 0)]) ]
           ("c1", [("c1", Fin 0); ("c2", Fin 0)]) ("c2", Fin 0)).
  - exact cramer_matrix_two_binary.
  - left. reflexivity.
  - right. left. reflexivity.
Defined.

(* ================================================================= *)
(** ** Cramer's V of a constant column *)

(** With one row the formula has 0 / 0 under the root. *)
Lemma formula_one_row k n :
  (1 <= k)%Z -> (k <= n)%Z ->
  cramers_v_formula (Fin 0) 1 k n = NaN.
Proof.
  intros Hk Hkn.
  destruct (Z.eq_dec n 1) as [->|Hn1].
  - assert (k = 1%Z) by lia. subst k.
    unfold cramers_v_formula, of_Z.
    cbn [Z.sub Z.mul Z.opp Z.add Z.pos_sub]. cbn [fmul].
    rewrite Rmult_0_l.
    assert (E : fdiv (Fin 0) (Fin 0) = NaN).
    { unfold fdiv. destruct (Req_dec_T 0 0); [|lra].
      rewrite sgn_zero. reflexivity. }
    rewrite E. cbn [fsub fadd fopp].
    destruct (fdiv (Fin 0) (Fin 1)); reflexivity.
  - unfold cramers_v_formula, of_Z. cbn [fmul]. rewrite !minus_IZR.
    assert (HK : (1 <= IZR k)%R) by (apply IZR_le; assumption).
    assert (HKN : (IZR k <= IZR n)%R) by (apply IZR_le; assumption).
    assert (HN : (2 <= IZR n)%R) by (apply IZR_le; lia).
    set (K := IZR k) in *. set (N := IZR n) in *.
    rewrite !fdiv_Fin by lra. cbn [fsub].
    rewrite minimum_Fin, maximum_zero_Fin.
    set (kc := (K - (K - 1) * (K - 1) / (N - 1) - 1)%R).
    assert (Ekc : (kc * (N - 1) = (K - 1) * (N - K))%R)
      by (unfold kc; field; lra).
    assert (Hkc0 : (0 <= kc)%R).
    { apply Rmult_le_reg_r with (N - 1)%R; [lra|]. rewrite Ekc. nra. }
    assert (Ep : (0 / N - (K - 1) * (1 - 1) / (N - 1) = 0)%R)
      by (field; lra).
    rewrite Ep.
    destruct (Rlt_dec 0 0); [lra|].
    assert (Ed : Rmin kc (1 - (1 - 1) * (1 - 1) / (N - 1) - 1) = 0%R).
    { replace (1 - (1 - 1) * (1 - 1) / (N - 1) - 1)%R with 0%R
        by (field; lra).
      unfold Rmin. destruct (Rle_dec kc 0); lra. }
    rewrite Ed. unfold fdiv. destruct (Req_dec_T 0 0); [|lra].
    rewrite sgn_zero. reflexivity.
Qed.

Lemma NoDup_all_equal {X} (x : X) l :
  NoDup l -> (forall y, In y l -> y = x) -> (length l <= 1)%nat.
Proof.
  intros Hnd H. destruct l as [|a [|b l]]; cbn [length]; try lia.
  exfalso. inversion Hnd as [|? ? Hna _]; subst. apply Hna.
  rewrite (H a) by (left; reflexivity).
  rewrite <- (H b) by (right; left; reflexivity). left. reflexivity.
Qed.

Lemma chi2R_one_row {A B} (rows : list A) (cols : list B) f :
  length rows = 1%nat -> cols <> [] -> chi2R rows cols f = 0%R.
Proof.
  intros Hr Hc. unfold chi2R.
  assert (E : dof_of (length rows) (length cols) = 0%Z).
  { rewrite Hr. unfold dof_of. lia. }
  rewrite E. reflexivity.
Qed.

(** X20.  A column that takes a single value on the rows where both
    columns are present has no defined association: [cramers_v] of its
    cross-tabulation with the other column, taken either way round,
    returns NaN and raises nothing (in exact arithmetic: the quotient under
    the root is 0 / 0). *)
Theorem constant_column_gives_nan a b x :
  pairs_of a b <> [] ->
  (forall p, In p (pairs_of a b) -> fst p = x) ->
  cramers_v (crosstab a b) = Ok NaN /\ cramers_v (crosstab b a) = Ok NaN.
Proof.
  intros Hne Hconst.
  assert (G : cramers_v (crosstab a b) = Ok NaN).
  { rewrite crosstab_tab.
    set (pairs := pairs_of a b) in *.
    assert (Hr : unique (map fst pairs) <> []).
    { rewrite unique_nil_iff. destruct pairs; [contradiction|discriminate]. }
    assert (Hc : unique (map snd pairs) <> []).
    { rewrite unique_nil_iff. destruct pairs; [contradiction|discriminate]. }
    assert (Hrow : forall r, In r (unique (map fst pairs)) ->
               (0 < tab_row (unique (map snd pairs)) (pair_count pairs) r)%Z).
    { intros r Hin. unfold tab_row. rewrite pair_count_row_total.
      - apply first_count_pos. apply unique_In. assumption.
      - apply unique_NoDup.
      - intros p Hp. apply unique_In. apply in_map. assumption. }
    assert (Hcol : forall c, In c (unique (map snd pairs)) ->
               (0 < tab_col (unique (map fst pairs)) (pair_count pairs) c)%Z).
    { intros c Hin. unfold tab_col. rewrite pair_count_col_total.
      - apply second_count_pos. apply unique_In. assumption.
      - apply unique_NoDup.
      - intros p Hp. apply unique_In. apply in_map. assumption. }
    rewrite (cramers_v_tab_wf (unique (map fst pairs))
               (unique (map snd pairs)) (pair_count pairs) Hr Hc);
      try assumption.
    2:{ intros r c _ _. unfold pair_count. lia. }
    assert (Hlen : length (unique (map fst pairs)) = 1%nat).
    { assert (length (unique (map fst pairs)) <= 1)%nat.
      { apply (NoDup_all_equal x); [apply unique_NoDup|].
        intros y Hy. apply (proj1 (unique_In y (map fst pairs))) in Hy.
        apply in_map_iff in Hy.
        destruct Hy as (p & <- & Hp). apply Hconst. assumption. }
      destruct (unique (map fst pairs)); [contradiction|simpl in *; lia]. }
    rewrite (chi2R_one_row _ _ _ Hlen Hc), Hlen. f_equal.
    apply formula_one_row.
    - destruct (unique (map snd pairs)); [contradiction|simpl; lia].
    - apply (total_ge_cols _ _ _ Hcol). }
  split; [exact G|]. rewrite crosstab_swap. exact G.
Qed.

Lemma constant_column_gives_nan_witness :
  cramers_v (crosstab constant_series binary_series) = Ok NaN
  /\ cramers_v (crosstab binary_series constant_series) = Ok NaN.
Proof.
  apply (constant_column_gives_nan constant_series binary_series (Str "k")).
  - discriminate.
  - intros p Hp. vm_compute in Hp.
    repeat (destruct Hp as [<-|Hp]; [reflexivity|]). destruct Hp.
Defined.

(* ================================================================= *)
(** ** Cramer's V of independent variables *)

Section IndependentTab.
Context {A B : Type} (rows : list A) (cols : list B) (f : A -> B -> Z).
Hypothesis rows_nonempty : rows <> [].
Hypothesis cols_nonempty : cols <> [].
Hypothesis nonneg : forall a c, In a rows -> In c cols -> (0 <= f a c)%Z.
Hypothesis row_pos : forall a, In a rows -> (0 < tab_row cols f a)%Z.
Hypothesis col_pos : forall c, In c cols -> (0 < tab_col rows f c)%Z.
Hypothesis independent :
  forall a c, In a rows -> In c cols ->
    (f a c * tab_total rows cols f = tab_row cols f a * tab_col rows f c)%Z.

Lemma independent_statistic : chi2R rows cols f = 0%R.
Proof.
  unfold chi2R.
  destruct (dof_of (length rows) (length cols) =? 0)%Z; [reflexivity|].
  pose proof (total_pos rows cols f rows_nonempty row_pos) as Hn.
  assert (Hterm : forall a c, In a rows -> In c cols ->
             termR rows cols f a c = 0%R).
  { intros a c Ha Hc.
    assert (E : expectedR rows cols f a c = IZR (f a c)).
    { unfold expectedR. rewrite <- mult_IZR, <- (independent a c Ha Hc).
      rewrite mult_IZR. field. apply not_0_IZR. lia. }
    unfold termR. rewrite E.
    destruct (dof_of (length rows) (length cols) =? 1)%Z.
    - unfold yatesR.
      replace (IZR (f a c) - IZR (f a c))%R with 0%R by ring.
      rewrite Rabs_R0. unfold Rmin. destruct (Rle_dec (1 / 2) 0); [lra|].
      unfold Rdiv. ring.
    - unfold pearsonR. unfold Rdiv. ring. }
  rewrite (rsum_map_ext_in _ (fun _ => 0%R)).
  - apply rsum_zero.
  - intros a Ha. rewrite (rsum_map_ext_in _ (fun _ => 0%R)).
    + apply rsum_zero.
    + intros c Hc. apply Hterm; assumption.
Qed.
End IndependentTab.

(** Without association, and with more observations than rows and
    columns, the formula gives 0. *)
Lemma formula_no_association r k n :
  (2 <= r)%Z -> (2 <= k)%Z -> (r < n)%Z -> (k < n)%Z ->
  cramers_v_formula (Fin 0) r k n = Fin 0.
Proof.
  intros Hr Hk Hrn Hkn.
  unfold cramers_v_formula, of_Z. cbn [fmul]. rewrite !minus_IZR.
  assert (HR : (2 <= IZR r)%R) by (apply IZR_le; assumption).
  assert (HK : (2 <= IZR k)%R) by (apply IZR_le; assumption).
  assert (HRN : (IZR r + 1 <= IZR n)%R)
    by (rewrite <- plus_IZR; apply IZR_le; lia).
  assert (HKN : (IZR k + 1 <= IZR n)%R)
    by (rewrite <- plus_IZR; apply IZR_le; lia).
  set (R := IZR r) in *. set (K := IZR k) in *. set (N := IZR n) in *.
  rewrite !fdiv_Fin by lra. cbn [fsub].
  rewrite minimum_Fin, maximum_zero_Fin.
  set (kc := (K - (K - 1) * (K - 1) / (N - 1) - 1)%R).
  set (rc := (R - (R - 1) * (R - 1) / (N - 1) - 1)%R).
  assert (Ekc : (kc * (N - 1) = (K - 1) * (N - K))%R)
    by (unfold kc; field; lra).
  assert (Erc : (rc * (N - 1) = (R - 1) * (N - R))%R)
    by (unfold rc; field; lra).
  assert (Hkc0 : (0 < kc)%R).
  { apply Rmult_lt_reg_r with (N - 1)%R; [lra|]. rewrite Ekc. nra. }
  assert (Hrc0 : (0 < rc)%R).
  { apply Rmult_lt_reg_r with (N - 1)%R; [lra|]. rewrite Erc. nra. }
  assert (Hp : (0 / N - (K - 1) * (R - 1) / (N - 1) <= 0)%R).
  { assert (0 <= (K - 1) * (R - 1) / (N - 1))%R.
    { unfold Rdiv. apply Rmult_le_pos; [nra|].
      left. apply Rinv_0_lt_compat. lra. }
    unfold Rdiv at 1. rewrite Rmult_0_l. lra. }
  destruct (Rlt_dec 0 _); [lra|].
  assert (Hd : (0 < Rmin kc rc)%R)
    by (unfold Rmin; destruct (Rle_dec kc rc); lra).
  rewrite fdiv_Fin by lra.
  replace (0 / Rmin kc rc)%R with 0%R by (field; lra).
  rewrite fsqrt_nonneg by lra. rewrite sqrt_0. reflexivity.
Qed.

(** X21.  On a table whose every count equals its expected count under
    independence (count x total = row total x column total), with at least
    two rows and two columns and more observations than rows and than
    columns, [cramers_v] returns 0 (in exact arithmetic). *)
Theorem cramers_v_independent m :
  well_formed_table m ->
  (forall i j, (i < fst (shape m))%nat -> (j < snd (shape m))%nat ->
     (cell_at m i j * total m = row_total m i * col_total m j)%Z) ->
  (2 <= fst (shape m))%nat -> (2 <= snd (shape m))%nat ->
  (Z.of_nat (fst (shape m)) < total m)%Z ->
  (Z.of_nat (snd (shape m)) < total m)%Z ->
  cramers_v m = Ok (Fin 0).
Proof.
  intros wf Hind Hr Hk Hrn Hkn.
  set (rows := seq 0 (fst (shape m))).
  set (cols := seq 0 (snd (shape m))).
  rewrite (wf_is_tab m wf) at 1. fold rows cols.
  rewrite (cramers_v_tab_wf rows cols (cell_at m)
             (wf_rows_nonempty m wf) (wf_cols_nonempty m wf)
             (wf_nonneg m wf) (wf_row_pos m wf) (wf_col_pos m wf)).
  rewrite (independent_statistic rows cols (cell_at m)
             (wf_rows_nonempty m wf) (wf_row_pos m wf)).
  - unfold rows, cols. rewrite !length_seq, (wf_total m wf). f_equal.
    apply formula_no_association; lia.
  - intros a c Ha Hc. apply in_seq in Ha, Hc.
    unfold rows, cols. rewrite (wf_total m wf).
    change (cell_at m a c * total m = row_total m a * col_total m c)%Z.
    apply Hind; lia.
Qed.

Lemma independent2_wf : well_formed_table independent2.
Proof.
  unfold well_formed_table, rectangular.
  cbn [independent2 shape fst snd length].
  repeat split; try discriminate.
  - repeat constructor.
  - intros [|[|[|i]]] [|[|j]] Hi Hj; try lia; vm_compute; discriminate.
  - intros [|[|[|i]]] Hi; try lia; reflexivity.
  - intros [|[|j]] Hj; try lia; reflexivity.
Qed.

Lemma cramers_v_independent_witness : cramers_v independent2 = Ok (Fin 0).
Proof.
  apply (cramers_v_independent independent2 independent2_wf).
  - intros [|[|[|i]]] [|[|j]] Hi Hj; cbn in Hi, Hj; try lia; reflexivity.
  - cbn. lia.
  - cbn. lia.
  - vm_compute. reflexivity.
  - vm_compute. reflexivity.
Defined.

(* ================================================================= *)
(** ** When [cramers_v] and [cramer_matrix] raise *)

Lemma expected_zero_product ri cj n :
  n <> 0%Z -> (ri = 0%Z \/ cj = 0%Z) ->
  feqb (fdiv (fmul (of_Z ri) (of_Z cj)) (of_Z n)) (Fin 0) = true.
Proof.
  intros Hn H. unfold of_Z. cbn [fmul].
  assert (Hn' : IZR n <> 0%R) by (apply not_0_IZR; assumption).
  rewrite fdiv_Fin by assumption. unfold feqb.
  destruct (Req_dec_T _ 0) as [|N]; [reflexivity|].
  exfalso. apply N. destruct H as [-> | ->]; unfold Rdiv; ring.
Qed.

(** X22.  A table with a row or a column that sums to zero (and a
    non-zero total) makes [cramers_v] raise ValueError: scipy refuses a
    table whose expected frequencies have a zero. *)
Theorem cramers_v_empty_margin m :
  total m <> 0%Z ->
  In 0%Z (row_sums m) \/ In 0%Z (col_sums m) ->
  cramers_v m = Raise ValueError.
Proof.
  intros Hn Hzero. unfold cramers_v, chi2_contingency.
  destruct (existsb (existsb (fun x => (x <? 0)%Z)) m); [reflexivity|].
  destruct (shape m) as [r k] eqn:Hs.
  destruct (Nat.eqb (r * k) 0) eqn:Hrk; [reflexivity|].
  apply Nat.eqb_neq in Hrk.
  assert (Hr : row_sums m <> []).
  { unfold row_sums. unfold shape in Hs. injection Hs as Hr _.
    destruct m; [simpl in Hr; subst r; lia | discriminate]. }
  assert (Hc : col_sums m <> []).
  { unfold col_sums. rewrite Hs. cbn [snd].
    destruct k; [lia | discriminate]. }
  assert (Hex : existsb (existsb (fun e => feqb e (Fin 0))) (expected_freq m)
                = true).
  { unfold expected_freq. rewrite existsb_map.
    apply existsb_exists.
    destruct Hzero as [Hz|Hz].
    - exists 0%Z. split; [assumption|]. rewrite existsb_map.
      apply existsb_exists.
      destruct (col_sums m) as [|cj cs]; [contradiction|].
      exists cj. split; [left; reflexivity|].
      apply expected_zero_product; [assumption | left; reflexivity].
    - destruct (row_sums m) as [|ri rs]; [contradiction|].
      exists ri. split; [left; reflexivity|]. rewrite existsb_map.
      apply existsb_exists.
      exists 0%Z. split; [assumption|].
      apply expected_zero_product; [assumption | right; reflexivity]. }
  rewrite Hex. reflexivity.
Qed.

Lemma cramers_v_empty_margin_witness :
  cramers_v empty_row_table = Raise ValueError.
Proof.
  apply (cramers_v_empty_margin empty_row_table).
  - discriminate.
  - left. left. reflexivity.
Defined.

Lemma cramers_v_raises m e : cramers_v m = Raise e -> e = ValueError.
Proof.
  unfold cramers_v, chi2_contingency.
  destruct (existsb _ m); [cbn [bind]; congruence|].
  destruct (shape m) as [r k].
  destruct (Nat.eqb (r * k) 0); [cbn [bind]; congruence|].
  destruct (existsb _ (expected_freq m)); [cbn [bind]; congruence|].
  destruct (_ =? 0)%Z; cbn [bind]; discriminate.
Qed.

Lemma cramer_inner_raises data var1 cs :
  forall m e,
    cramer_inner data var1 cs m = Raise e ->
    exists c, In c cs /\ cramers_v_of data var1 c = Raise e.
Proof.
  induction cs as [|c cs IH]; intros m e H; [discriminate|].
  cbn [cramer_inner] in H.
  destruct (cramers_v_of data var1 c) as [v|e1] eqn:Ec.
  - assert (Hrest : cramer_inner data var1 cs (loc_set m var1 c v) = Raise e).
    { unfold cramers_v_of in Ec.
      destruct (getcol data var1) as [a|]; cbn [bind] in *; [|discriminate].
      destruct (getcol data c) as [b|]; cbn [bind] in *; [|discriminate].
      rewrite Ec in H. exact H. }
    destruct (IH _ _ Hrest) as (c' & Hc' & Hr). exists c'.
    split; [right; assumption|assumption].
  - exists c. split; [left; reflexivity|]. rewrite Ec. f_equal.
    unfold cramers_v_of in Ec.
    destruct (getcol data var1) as [a|]; cbn [bind] in *; [|congruence].
    destruct (getcol data c) as [b|]; cbn [bind] in *; [|congruence].
    rewrite Ec in H. cbn [bind] in H. congruence.
Qed.

Lemma cramer_outer_raises data vars vs1 :
  forall m e,
    cramer_outer data vs1 vars m = Raise e ->
    exists r c, In r vs1 /\ In c vars /\ cramers_v_of data r c = Raise e.
Proof.
  induction vs1 as [|v vs1 IH]; intros m e H; [discriminate|].
  cbn [cramer_outer] in H.
  destruct (cramer_inner data v vars m) as [m1|e1] eqn:E1; cbn [bind] in H.
  - destruct (IH _ _ H) as (r & c & Hr & Hc & Hrc).
    exists r, c. split; [right; assumption|]. split; assumption.
  - injection H as <-. destruct (cramer_inner_raises _ _ _ _ _ E1)
      as (c & Hc & Hrc).
    exists v, c. split; [left; reflexivity|]. split; assumption.
Qed.

(** X23.  When every listed variable is a column, [cramer_matrix] returns
    a matrix exactly when every two listed columns (a column and itself
    included) have a row on which both are present; otherwise it raises,
    and the exception is ValueError. *)
Theorem cramer_matrix_returns_iff data categorical_vars :
  (forall v, In v categorical_vars -> exists s, getcol data v = Ok s) ->
  ((exists m, cramer_matrix data categorical_vars = Ok m)
   <-> (forall v1 v2 a b,
          In v1 categorical_vars -> In v2 categorical_vars ->
          getcol data v1 = Ok a -> getcol data v2 = Ok b ->
          pairs_of a b <> []))
  /\ (forall e, cramer_matrix data categorical_vars = Raise e ->
                e = ValueError).
Proof.
  intros Hcols. split; [split|].
  - intros [m Hm] v1 v2 a b H1 H2 Ha Hb Hnil.
    destruct (cramer_matrix_value _ _ _ Hm) as [_ Hall].
    specialize (Hall v1 v2 H1 H2). unfold cramers_v_of in Hall.
    rewrite Ha, Hb in Hall. cbn [bind] in Hall.
    rewrite crosstab_tab, Hnil in Hall. discriminate Hall.
  - intros H. apply cramer_matrix_returns; assumption.
  - intros e He. unfold cramer_matrix in He.
    destruct (cramer_outer_raises _ _ _ _ _ He) as (r & c & Hr & Hc & Hrc).
    unfold cramers_v_of in Hrc.
    destruct (Hcols r Hr) as [a Ha]. destruct (Hcols c Hc) as [b Hb].
    rewrite Ha, Hb in Hrc. cbn [bind] in Hrc.
    exact (cramers_v_raises _ _ Hrc).
Qed.

Lemma cramer_matrix_returns_iff_witness :
  ((exists m, cramer_matrix missing_pair_df ["c1"; "c2"] = Ok m)
   <-> (forall v1 v2 a b,
          In v1 ["c1"; "c2"] -> In v2 ["c1"; "c2"] ->
          getcol missing_pair_df v1 = Ok a ->
          getcol missing_pair_df v2 = Ok b ->
          pairs_of a b <> []))
  /\ (forall e, cramer_matrix missing_pair_df ["c1"; "c2"] = Raise e ->
                e = ValueError).
Proof.
  apply (cramer_matrix_returns_iff missing_pair_df ["c1"; "c2"]).
  intros v [<-|[<-|[]]]; eexists; reflexivity.
Defined.

(** X24.  The matrix returned by [cramer_matrix] has one row and one
    column per listed variable, in the order of the list, and every cell
    holds [cramers_v] of the cross-tabulation of its row variable with its
    column variable: no cell is left as initialised. *)
Theorem cramer_matrix_cells data categorical_vars m :
  cramer_matrix data categorical_vars = Ok m ->
  map fst m = categorical_vars
  /\ forall row, In row m ->
       map fst (snd row) = categorical_vars
       /\ forall e, In e (snd row) ->
            exists a b,
              getcol data (fst row) = Ok a
              /\ getcol data (fst e) = Ok b
              /\ cramers_v (crosstab a b) = Ok (snd e).
Proof.
  intros Hm. destruct (cramer_matrix_value _ _ _ Hm) as [-> Hall].
  unfold filled. split.
  - rewrite map_map. cbn [fst]. apply map_id.
  - intros row Hrow. apply in_map_iff in Hrow.
    destruct Hrow as (r & <- & Hr). cbn [fst snd]. split.
    + rewrite map_map. cbn [fst]. apply map_id.
    + intros e He. apply in_map_iff in He.
      destruct He as (c & <- & Hc). cbn [fst snd].
      specialize (Hall r c Hr Hc). unfold cramers_v_of in *.
      destruct (getcol data r) as [a|]; cbn [bind] in *; [|discriminate].
      destruct (getcol data c) as [b|]; cbn [bind] in *; [|discriminate].
      exists a, b. repeat split; try reflexivity.
      destruct (cramers_v (crosstab a b)); [|discriminate].
      reflexivity.
Qed.

Lemma cramer_matrix_cells_witness :
  map fst [ ("c1", [("c1", Fin 0); ("c2", Fin 0)]);
            ("c2", [("c1", Fin 0); ("c2", Fin 0)]) ]
  = ["c1"; "c2"]
  /\ forall row,
       In row [ ("c1", [("c1", Fin 0); ("c2", Fin 0)]);
                ("c2", [("c1", Fin 0); ("c2", Fin 0)]) ] ->
       map fst (snd row) = ["c1"; "c2"]
       /\ forall e, In e (snd row) ->
            exists a b,
              getcol two_binary_df (fst row) = Ok a
              /\ getcol two_binary_df (fst e) = Ok b
              /\ cramers_v (crosstab a b) = Ok (snd e).
Proof.
  exact (cramer_matrix_cells two_binary_df ["c1"; "c2"] _
           cramer_matrix_two_binary).
Defined.

(** X25.  A listed variable that is not a column of the dataset makes
    [cramer_matrix] raise instead of returning a matrix; when it is the
    first of the list the exception is KeyError. *)
Theorem cramer_matrix_missing_column data categorical_vars v :
  In v categorical_vars ->
  lookup data v = None ->
  (exists e, cramer_matrix data categorical_vars = Raise e)
  /\ (hd_error categorical_vars = Some v ->
      cramer_matrix data categorical_vars = Raise KeyError).
Proof.
  intros Hv Hl. split.
  - destruct (cramer_matrix data categorical_vars) as [m|e] eqn:E; [|eauto].
    exfalso. destruct (cramer_matrix_value _ _ _ E) as [_ Hall].
    specialize (Hall v v Hv Hv). unfold cramers_v_of, getcol in Hall.
    rewrite Hl in Hall. discriminate Hall.
  - intros Hhd. destruct categorical_vars as [|v0 rest]; [discriminate|].
    injection Hhd as ->. unfold cramer_matrix.
    cbn [cramer_outer cramer_inner]. unfold getcol. rewrite Hl. reflexivity.
Qed.

Lemma cramer_matrix_missing_column_witness :
  (exists e, cramer_matrix two_binary_df ["c3"; "c1"] = Raise e)
  /\ (hd_error ["c3"; "c1"] = Some "c3" ->
      cramer_matrix two_binary_df ["c3"; "c1"] = Raise KeyError).
Proof.
  apply (cramer_matrix_missing_column two_binary_df ["c3"; "c1"] "c3").
  - left. reflexivity.
  - reflexivity.
Defined.

(* ================================================================= *)
(** ** [plot_feature] *)

(** X26.  When [col_name] is not a column, [plot_feature] raises KeyError
    after creating the empty figure and before drawing anything; for a
    discrete variable it also raises KeyError, after drawing the first
    panel only, when [target] is not a column. *)
Theorem plot_feature_missing_column :
  (forall df col_name is_continuous target figsize color,
      lookup df col_name = None ->
      plot_feature df col_name is_continuous target figsize color
      = ([Subplots 1 2 figsize 90], Raise KeyError))
  /\ (forall df col_name target figsize color s,
        getcol df col_name = Ok s ->
        lookup df target = None ->
        exists first,
          plot_feature df col_name false target figsize color
          = (Subplots 1 2 figsize 90 :: first, Raise KeyError)
          /\ forall c, In c first ->
               match c with
               | Countplot _ _ _ a | SetTitle a _ | SetXlabel a _
               | SetYlabel a _ | TickParams a _ => a = ax1
               | _ => False
               end).
Proof.
  split.
  - intros df col_name is_continuous target figsize color H.
    unfold plot_feature, getcol. rewrite H. reflexivity.
  - intros df col_name target figsize color s Hs Ht.
    unfold plot_feature. rewrite Hs. unfold prop_data. rewrite Hs.
    cbn [bind]. unfold getcol. rewrite Ht. cbn [bind app].
    eexists. split; [reflexivity|].
    intros c Hc. cbn [In] in Hc.
    repeat (destruct Hc as [<-|Hc]; [reflexivity|]). destruct Hc.
Qed.

Lemma plot_feature_missing_column_witness :
  plot_feature example_df "edad" true "target" default_figsize default_color
  = ([Subplots 1 2 default_figsize 90], Raise KeyError)
  /\ exists first,
       plot_feature example_df "cat" false "objetivo" default_figsize
                    default_color
       = (Subplots 1 2 default_figsize 90 :: first, Raise KeyError)
       /\ forall c, In c first ->
            match c with
            | Countplot _ _ _ a | SetTitle a _ | SetXlabel a _
            | SetYlabel a _ | TickParams a _ => a = ax1
            | _ => False
            end.
Proof.
  split.
  - apply (proj1 plot_feature_missing_column). reflexivity.
  - apply (proj2 plot_feature_missing_column example_df "cat" "objetivo"
             default_figsize default_color
             (mkSeries dt_object [] [Str "A"; Str "A"; Str "B"; Str "B"]));
      reflexivity.
Defined.

(** *** The shares drawn in the second panel *)










